(** * data_fingerprint: canonicalisation and fingerprinting of tables

    A shallow embedding of [data_fingerprint.py] and the properties of its
    fingerprint pipeline.

    - Python [str] values are modelled as [string] (the UTF-8 bytes of the
      text), so [s.encode('utf-8')] is the identity on the bytes.  The
      character classes ([isdigit], the blanks of [strip], the classes of a
      format) are given on ASCII characters, where they are the ones of
      Python; outside ASCII Python knows further digits and blanks, and a
      theorem that depends on the class of the characters of a cell takes
      the text to be ASCII ([ascii_text]).
    - pandas is taken at a version the program runs with (1.5 or later).
      Where the versions differ, in the free-form reading of dates, the
      reading is a parameter ([date_reader]).
    - A [DataFrame] is a row count together with an ordered list of named,
      typed columns ([object], [int64], [float64], [datetime64]).
    - [float64] cells are the kernel's binary64 floats.
    - [hashlib.sha256] is SHA-256 as in FIPS 180-4, on 32-bit words kept in [Z].
    - [df[col] = ...] writes to the frame object the caller handed in; the
      functions are therefore given over a heap of frames. *)

From Stdlib Require Import ZArith Ascii String Floats Lia.
From stdpp Require Import base list sorting gmap strings.

Local Open Scope Z_scope.

(** ** Characters and strings *)

Definition chr (n : nat) : ascii := ascii_of_nat n.
Definition ord (c : ascii) : Z := Z.of_nat (nat_of_ascii c).

Definition str1 (c : ascii) : string := String c EmptyString.

(** The line feed, the comma and the double quote. *)
Definition LF : ascii := chr 10.
Definition COMMA : ascii := chr 44.
Definition DQUOTE : ascii := chr 34.

Fixpoint chars (s : string) : list ascii :=
  match s with
  | EmptyString => []
  | String c s' => c :: chars s'
  end.

Fixpoint of_chars (l : list ascii) : string :=
  match l with
  | [] => EmptyString
  | c :: l' => String c (of_chars l')
  end.

(** [''.join(l)] *)
Fixpoint concat_str (l : list string) : string :=
  match l with
  | [] => EmptyString
  | s :: l' => s +:+ concat_str l'
  end.

(** [sep.join(l)] *)
Fixpoint join (sep : string) (l : list string) : string :=
  match l with
  | [] => EmptyString
  | [s] => s
  | s :: l' => s +:+ sep +:+ join sep l'
  end.

(** ** SHA-256 ([hashlib.sha256(...).hexdigest()]) *)

Module SHA256.

Definition w32 (x : Z) : Z := x mod 2 ^ 32.
Definition add32 (x y : Z) : Z := w32 (x + y).
Definition not32 (x : Z) : Z := Z.lxor x 0xffffffff.
Definition rotr (n x : Z) : Z :=
  Z.lor (Z.shiftr x n) (w32 (Z.shiftl x (32 - n))).

Definition Ch (x y z : Z) : Z := Z.lxor (Z.land x y) (Z.land (not32 x) z).
Definition Maj (x y z : Z) : Z :=
  Z.lxor (Z.lxor (Z.land x y) (Z.land x z)) (Z.land y z).
Definition Sigma0 (x : Z) : Z := Z.lxor (Z.lxor (rotr 2 x) (rotr 13 x)) (rotr 22 x).
Definition Sigma1 (x : Z) : Z := Z.lxor (Z.lxor (rotr 6 x) (rotr 11 x)) (rotr 25 x).
Definition sigma0 (x : Z) : Z := Z.lxor (Z.lxor (rotr 7 x) (rotr 18 x)) (Z.shiftr x 3).
Definition sigma1 (x : Z) : Z := Z.lxor (Z.lxor (rotr 17 x) (rotr 19 x)) (Z.shiftr x 10).

(** The round constants are the first 32 bits of the fractional parts of
    the cube roots of the first 64 primes, and the initial hash value the
    same of the square roots of the first 8 primes (FIPS 180-4, 4.2.2 and
    5.3.3). *)
Definition is_prime (p : Z) : bool :=
  forallb (fun d => negb (p mod Z.of_nat d =? 0)) (seq 2 (Z.to_nat p - 2)).

Definition primes : list Z := List.filter is_prime (Z.of_nat <$> seq 2 310).

(** The integer cube root, one bit at a time from bit [bits - 1] down. *)
Fixpoint root3 (bits : nat) (n r : Z) : Z :=
  match bits with
  | O => r
  | S b =>
      let r' := r + 2 ^ Z.of_nat b in
      root3 b n (if r' ^ 3 <=? n then r' else r)
  end.

Definition frac_root3 (p : Z) : Z := root3 36 (p * 2 ^ 96) 0 mod 2 ^ 32.
Definition frac_root2 (p : Z) : Z := Z.sqrt (p * 2 ^ 64) mod 2 ^ 32.

Definition K : list Z := Eval vm_compute in frac_root3 <$> take 64 primes.

(** Big-endian bytes of a [n]-byte number, and back. *)
Fixpoint be_bytes (n : nat) (x : Z) : list Z :=
  match n with
  | O => []
  | S n' => Z.shiftr x (8 * Z.of_nat n') mod 256 :: be_bytes n' x
  end.

Definition be_word (bs : list Z) : Z :=
  fold_left (fun acc b => acc * 256 + b) bs 0.

(** The message, a 1 bit, zeros up to 56 mod 64, the bit length on 8 bytes. *)
Definition pad (msg : list Z) : list Z :=
  let len := Z.of_nat (length msg) in
  msg ++ [0x80] ++ repeat 0 (Z.to_nat ((55 - len) mod 64)) ++ be_bytes 8 (8 * len).

Fixpoint chunks (fuel : nat) (k : nat) {A} (l : list A) : list (list A) :=
  match fuel, l with
  | O, _ | _, [] => []
  | S fuel', _ => take k l :: chunks fuel' k (drop k l)
  end.

(** The message schedule, most recent word first: [sched] holds
    [W(t-1), W(t-2), ...]. *)
Fixpoint extend (n : nat) (sched : list Z) : list Z :=
  match n with
  | O => sched
  | S n' =>
      let w i := nth i sched 0 in
      extend n' (add32 (add32 (sigma1 (w 1%nat)) (w 6%nat))
                       (add32 (sigma0 (w 14%nat)) (w 15%nat)) :: sched)
  end.

Definition schedule (block : list Z) : list Z :=
  rev (extend 48 (rev (be_word <$> chunks 16 4 block))).

Record regs := Regs { ra : Z; rb : Z; rc : Z; rd : Z; re : Z; rf : Z; rg : Z; rh : Z }.

Definition round (s : regs) (kw : Z * Z) : regs :=
  let '(k, w) := kw in
  let t1 := add32 (add32 (add32 (rh s) (Sigma1 (re s))) (add32 (Ch (re s) (rf s) (rg s)) k)) w in
  let t2 := add32 (Sigma0 (ra s)) (Maj (ra s) (rb s) (rc s)) in
  Regs (add32 t1 t2) (ra s) (rb s) (rc s) (add32 (rd s) t1) (re s) (rf s) (rg s).

Definition compress (h : regs) (block : list Z) : regs :=
  let s := fold_left round (zip K (schedule block)) h in
  Regs (add32 (ra h) (ra s)) (add32 (rb h) (rb s)) (add32 (rc h) (rc s))
       (add32 (rd h) (rd s)) (add32 (re h) (re s)) (add32 (rf h) (rf s))
       (add32 (rg h) (rg s)) (add32 (rh h) (rh s)).

Definition init : regs :=
  Eval vm_compute in
    let h i := nth i (frac_root2 <$> primes) 0 in
    Regs (h 0%nat) (h 1%nat) (h 2%nat) (h 3%nat) (h 4%nat) (h 5%nat) (h 6%nat) (h 7%nat).

Definition digest (msg : list Z) : list Z :=
  let p := pad msg in
  let h := fold_left compress (chunks (length p) 64 p) init in
  flat_map (be_bytes 4) [ra h; rb h; rc h; rd h; re h; rf h; rg h; rh h].

Definition hex_digit (d : Z) : ascii :=
  if d <? 10 then chr (Z.to_nat (48 + d)) else chr (Z.to_nat (87 + d)).

Definition hex (bs : list Z) : string :=
  of_chars (flat_map (fun b => [hex_digit (b / 16); hex_digit (b mod 16)]) bs).

End SHA256.

(** [hashlib.sha256(s.encode('utf-8')).hexdigest()] *)
Definition sha256_hex (s : string) : string :=
  SHA256.hex (SHA256.digest (ord <$> chars s)).

(** ** Character classes *)

Definition is_char (c : ascii) : ascii -> bool := fun x => Ascii.eqb x c.
Definition in_range (lo hi : ascii) : ascii -> bool :=
  fun x => (ord lo <=? ord x) && (ord x <=? ord hi).

(** [c.isdigit()] and the pattern [\d] *)
Definition isdigit : ascii -> bool := in_range "0" "9".

(** [c.isspace()], the pattern [\s] and what [strip()] removes: tab, line
    feed, vertical tab, form feed, carriage return, the four separators
    0x1c to 0x1f and the space. *)
Definition isspace (c : ascii) : bool :=
  let n := ord c in
  ((9 <=? n) && (n <=? 13)) || ((28 <=? n) && (n <=? 31)) || (n =? 32).

(** [s.isdigit()]: every character is a digit and there is at least one. *)
Definition str_isdigit (s : string) : bool :=
  match chars s with
  | [] => false
  | l => forallb isdigit l
  end.

(** [s.strip()] *)
Fixpoint lstrip (l : list ascii) : list ascii :=
  match l with
  | c :: l' => if isspace c then lstrip l' else l
  | [] => []
  end.

Definition strip (s : string) : string :=
  of_chars (rev (lstrip (rev (lstrip (chars s))))).

(** [str(n)] for an integer: decimal digits, a minus sign when negative. *)
Fixpoint pos_digits (fuel : nat) (n : Z) (acc : list ascii) : list ascii :=
  match fuel with
  | O => acc
  | S fuel' =>
      let acc' := chr (Z.to_nat (48 + n mod 10)) :: acc in
      if n <? 10 then acc' else pos_digits fuel' (n / 10) acc'
  end.

Definition nat_digits (n : Z) : list ascii :=
  pos_digits (S (Z.to_nat (Z.log2 n))) n [].

Definition str_int (n : Z) : string :=
  if n <? 0 then String "-" (of_chars (nat_digits (- n)))
  else of_chars (nat_digits n).

(** [int(s)] on digits (blanks skipped) *)
Definition int_of (l : list ascii) : Z :=
  fold_left (fun acc c => if isdigit c then acc * 10 + (ord c - 48) else acc) l 0.

(** Decimal digits padded with zeros on the left to [w] characters. *)
Definition zfill (w : nat) (n : Z) : string :=
  let d := nat_digits n in
  of_chars (repeat ("0"%char) (w - length d) ++ d).

(** ** Timestamps and the explicit formats of [pd.to_datetime]

    With [format=] the conversion compiles the format to a pattern, one group
    per directive, and matches it at the start of the text; text left over
    after the match is an error.  The groups are the ones of the six
    directives used by the program. *)

Record datetime := DT {
  year : Z; month : Z; day : Z; hour : Z; minute : Z; second : Z
}.

Inductive directive :=
| Num (field : nat) (alts : list (list (ascii -> bool)))
| Blank
| Lit (c : ascii).

(** [\d\d\d\d] *)
Definition re_Y := [[isdigit; isdigit; isdigit; isdigit]].
(** [1[0-2]|0[1-9]|[1-9]] *)
Definition re_m :=
  [[is_char "1"; in_range "0" "2"]; [is_char "0"; in_range "1" "9"]; [in_range "1" "9"]].
(** [3[0-1]|[1-2]\d|0[1-9]|[1-9]| [1-9]] *)
Definition re_d :=
  [[is_char "3"; in_range "0" "1"]; [in_range "1" "2"; isdigit];
   [is_char "0"; in_range "1" "9"]; [in_range "1" "9"]; [is_char " "; in_range "1" "9"]].
(** [2[0-3]|[0-1]\d|\d] *)
Definition re_H := [[is_char "2"; in_range "0" "3"]; [in_range "0" "1"; isdigit]; [isdigit]].
(** [[0-5]\d|\d] *)
Definition re_M := [[in_range "0" "5"; isdigit]; [isdigit]].
(** [6[0-1]|[0-5]\d|\d] *)
Definition re_S := [[is_char "6"; in_range "0" "1"]; [in_range "0" "5"; isdigit]; [isdigit]].

(** The directives of a format string: [%Y %m %d %H %M %S], a run of blanks
    (turned into [\s+]) and literal characters. *)
Fixpoint compile_format (fmt : list ascii) : list directive :=
  match fmt with
  | [] => []
  | "%"%char :: c :: rest =>
      (if Ascii.eqb c "Y" then Num 0 re_Y
       else if Ascii.eqb c "m" then Num 1 re_m
       else if Ascii.eqb c "d" then Num 2 re_d
       else if Ascii.eqb c "H" then Num 3 re_H
       else if Ascii.eqb c "M" then Num 4 re_M
       else if Ascii.eqb c "S" then Num 5 re_S
       else Lit c) :: compile_format rest
  | c :: rest =>
      if isspace c then
        match compile_format rest with
        | Blank :: ds => Blank :: ds
        | ds => Blank :: ds
        end
      else Lit c :: compile_format rest
  end.

(** A sequence of character classes against the head of the text. *)
Fixpoint match_classes (cls : list (ascii -> bool)) (s : list ascii)
  : option (list ascii * list ascii) :=
  match cls, s with
  | [], _ => Some ([], s)
  | p :: cls', c :: s' =>
      if p c then
        match match_classes cls' s' with
        | Some (m, r) => Some (c :: m, r)
        | None => None
        end
      else None
  | _ :: _, [] => None
  end.

(** The fields found so far, indexed as [Y m d H M S]. *)
Definition set_field (i : nat) (v : Z) (fs : list Z) : list Z := <[i := v]> fs.

(** The ways [\s+] matches, longest first. *)
Fixpoint blank_splits (s : list ascii) : list (list ascii) :=
  match s with
  | c :: s' => if isspace c then blank_splits s' ++ [s'] else []
  | [] => []
  end.

(** All matches of the pattern at the start of [s], in the order in which a
    backtracking matcher finds them: the fields and the text left over. *)
Fixpoint matches (ds : list directive) (s : list ascii) (fs : list Z)
  : list (list Z * list ascii) :=
  match ds with
  | [] => [(fs, s)]
  | Lit c :: ds' =>
      match s with
      | x :: s' => if Ascii.eqb x c then matches ds' s' fs else []
      | [] => []
      end
  | Blank :: ds' =>
      flat_map (fun r => matches ds' r fs) (blank_splits s)
  | Num i alts :: ds' =>
      flat_map (fun cls =>
                  match match_classes cls s with
                  | Some (m, r) => matches ds' r (set_field i (int_of m) fs)
                  | None => []
                  end) alts
  end.

Definition is_leap (y : Z) : bool :=
  ((y mod 4 =? 0) && negb (y mod 100 =? 0)) || (y mod 400 =? 0).

Definition days_in_month (y m : Z) : Z :=
  if m =? 2 then (if is_leap y then 29 else 28)
  else if (m =? 4) || (m =? 6) || (m =? 9) || (m =? 11) then 30 else 31.

(** Lexicographic order on the six fields. *)
Definition dt_key (d : datetime) : list Z :=
  [year d; month d; day d; hour d; minute d; second d].

Fixpoint lex_leb (a b : list Z) : bool :=
  match a, b with
  | x :: a', y :: b' => (x <? y) || ((x =? y) && lex_leb a' b')
  | _, _ => true
  end.

(** The range of [datetime64[ns]], on whole seconds:
    1677-09-21 00:12:44 to 2262-04-11 23:47:16. *)
Definition in_bounds (d : datetime) : bool :=
  lex_leb [1677; 9; 21; 0; 12; 44] (dt_key d) && lex_leb (dt_key d) [2262; 4; 11; 23; 47; 16].

(** A calendar date and a time of day; seconds 60 and 61, which the pattern
    of [%S] lets through, are not a time of day. *)
Definition valid_datetime (d : datetime) : bool :=
  (1 <=? month d) && (month d <=? 12) && (1 <=? day d)
  && (day d <=? days_in_month (year d) (month d))
  && (hour d <=? 23) && (minute d <=? 59) && (second d <=? 59) && in_bounds d.

(** One text under one format.  Fields a format does not mention keep the
    defaults 1900-01-01 00:00:00. *)
Definition strptime (fmt : string) (s : string) : option datetime :=
  match matches (compile_format (chars fmt)) (chars s) [1900; 1; 1; 0; 0; 0] with
  | ([fY; fm; fd; fH; fM; fS], []) :: _ =>
      let t := DT fY fm fd fH fM fS in
      if valid_datetime t then Some t else None
  | _ => None
  end.

(** [Timestamp.strftime] for the directives above; other characters are
    copied. *)
Fixpoint strftime_chars (fmt : list ascii) (t : datetime) : string :=
  match fmt with
  | [] => EmptyString
  | "%"%char :: c :: rest =>
      (if Ascii.eqb c "Y" then zfill 4 (year t)
       else if Ascii.eqb c "m" then zfill 2 (month t)
       else if Ascii.eqb c "d" then zfill 2 (day t)
       else if Ascii.eqb c "H" then zfill 2 (hour t)
       else if Ascii.eqb c "M" then zfill 2 (minute t)
       else if Ascii.eqb c "S" then zfill 2 (second t)
       else str1 c) +:+ strftime_chars rest t
  | c :: rest => String c (strftime_chars rest t)
  end.

Definition strftime (fmt : string) (t : datetime) : string :=
  strftime_chars (chars fmt) t.

(** ** [float64] cells: rounding and [str]

    [Series.round(6)] on a float column is numpy's rounding: multiply by
    [10**6], round to the nearest integer with ties to even ([rint]), divide
    by [10**6], each step a binary64 operation.  [str] of a float is the
    shortest decimal text that reads back as the same float. *)

Module Float64.

Local Open Scope float_scope.

(** [numpy.rint]: below [2**52] adding and subtracting [2**52] rounds to an
    integer, ties to even; larger magnitudes are integers already. *)
Definition rint (x : float) : float :=
  let a := abs x in
  if a <? 0x1p52 then
    let r := (a + 0x1p52) - 0x1p52 in
    if get_sign x then - r else r
  else x.

(** [numpy.round(x, decimals)] for [decimals > 0] *)
Definition np_round (decimals : Z) (x : float) : float :=
  let f := of_uint63 (Uint63.of_Z (10 ^ decimals)) in
  rint (x * f) / f.

Local Open Scope Z_scope.

(** [d * 10^k] against [b * 2^e], both positive. *)
Definition cmp_dec_bin (d k b e : Z) : comparison :=
  (d * 10 ^ Z.max k 0 * 2 ^ Z.max (- e) 0 ?= b * 2 ^ Z.max e 0 * 10 ^ Z.max (- k) 0).

(** The decimal [d * 10^k] reads back as the float [m * 2^e]: it lies
    between the midpoints to the two neighbouring floats, the midpoints
    included when [m] is even.  The lower neighbour of a power of two is
    half as far away. *)
Definition reads_back (m e d k : Z) : bool :=
  let below := if (m =? 2 ^ 52) && (-1074 <? e) then 1 else 2 in
  let lo := cmp_dec_bin d k (4 * m - below) (e - 2) in
  let hi := cmp_dec_bin d k (4 * m + 2) (e - 2) in
  if Z.even m
  then negb (match lo with Lt => true | _ => false end)
       && negb (match hi with Gt => true | _ => false end)
  else (match lo with Gt => true | _ => false end)
       && (match hi with Lt => true | _ => false end).

(** The position of the decimal point: [p] with [10^(p-1) <= m * 2^e < 10^p],
    found from an estimate by the binary logarithm. *)
Fixpoint adjust (fuel : nat) (m e p : Z) : Z :=
  match fuel with
  | O => p
  | S fuel' =>
      match cmp_dec_bin 1 (p - 1) m e with
      | Gt => adjust fuel' m e (p - 1)
      | _ =>
          match cmp_dec_bin 1 p m e with
          | Gt => p
          | _ => adjust fuel' m e (p + 1)
          end
      end
  end.

Definition decpt (m e : Z) : Z :=
  adjust 8 m e ((Z.log2 m + e) * 30103 / 100000 + 1).

(** The largest [d] with [d * 10^k <= m * 2^e]. *)
Definition floor_dec (m e k : Z) : Z :=
  (m * 2 ^ Z.max e 0 * 10 ^ Z.max (- k) 0) / (2 ^ Z.max (- e) 0 * 10 ^ Z.max k 0).

(** With [n] significant digits: the nearer of the two decimals around the
    float, if it reads back. *)
Definition candidate (m e p : Z) (n : Z) : option Z :=
  let k := p - n in
  let d := floor_dec m e k in
  let lo_ok := (0 <? d) && reads_back m e d k in
  let hi_ok := reads_back m e (d + 1) k in
  (* [2x] against [d + (d+1)] *)
  let nearer_hi :=
    match cmp_dec_bin (2 * d + 1) k (8 * m) (e - 2) with
    | Lt => true
    | Eq => Z.odd d
    | Gt => false
    end in
  if lo_ok && hi_ok then Some (if nearer_hi then d + 1 else d)
  else if lo_ok then Some d
  else if hi_ok then Some (d + 1)
  else None.

Fixpoint shortest (fuel : nat) (m e p n : Z) : Z * Z :=
  match fuel with
  | O => (floor_dec m e (p - n), p - n)
  | S fuel' =>
      match candidate m e p n with
      | Some d => (d, p - n)
      | None => shortest fuel' m e p (n + 1)
      end
  end.

Fixpoint strip_zeros (fuel : nat) (d k : Z) : Z * Z :=
  match fuel with
  | O => (d, k)
  | S fuel' => if (d mod 10 =? 0) && (0 <? d) then strip_zeros fuel' (d / 10) (k + 1) else (d, k)
  end.

(** The digits of the shortest text and the position of the point after
    the first [decpt] digits. *)
Definition digits_decpt (m e : Z) : list ascii * Z :=
  let p := decpt m e in
  let '(d, k) := shortest 17 m e p 1 in
  let '(d, k) := strip_zeros 20 d k in
  let ds := nat_digits d in
  (ds, Z.of_nat (length ds) + k).

(** [repr] of the magnitude: scientific notation when the point would sit
    more than 16 digits to the right of the first digit or 4 or more zeros
    to its left, fixed notation otherwise. *)
Definition format_short (ds : list ascii) (p : Z) : string :=
  let n := Z.of_nat (length ds) in
  if (p <=? -4) || (16 <? p) then
    let mant := match ds with
                | [c] => [c]
                | c :: rest => c :: "."%char :: rest
                | [] => []
                end in
    let x := p - 1 in
    of_chars mant +:+ "e" +:+ (if x <? 0 then "-" else "+") +:+ zfill 2 (Z.abs x)
  else if p <=? 0 then
    "0." +:+ of_chars (repeat ("0"%char) (Z.to_nat (- p)) ++ ds)
  else if n <=? p then
    of_chars (ds ++ repeat ("0"%char) (Z.to_nat (p - n))) +:+ ".0"
  else
    of_chars (take (Z.to_nat p) ds) +:+ "." +:+ of_chars (drop (Z.to_nat p) ds).

(** [str(x)] *)
Definition str (x : float) : string :=
  match Prim2SF x with
  | S754_nan => "nan"
  | S754_infinity s => if s then "-inf" else "inf"
  | S754_zero s => if s then "-0.0" else "0.0"
  | S754_finite s m e =>
      let '(ds, p) := digits_decpt (Z.pos m) e in
      (if s then "-" else "") +:+ format_short ds p
  end.

End Float64.

(** ** Frames *)

Inductive dtype := dt_object | dt_int64 | dt_float64 | dt_datetime64.

(** A column with its values; a missing value is [None] in an [object] and
    in a [datetime64] column ([NaN], [NaT]) and the float [nan] in a
    [float64] column. *)
Inductive column :=
| ObjectCol (vals : list (option string))
| Int64Col (vals : list Z)
| Float64Col (vals : list float)
| DatetimeCol (vals : list (option datetime)).

(** The rows are numbered [0 .. nrows-1]; the columns keep their order.
    Column labels are strings. *)
Record DataFrame := Frame {
  nrows : nat;
  columns : list (string * column)
}.

Definition dtype_of (c : column) : dtype :=
  match c with
  | ObjectCol _ => dt_object
  | Int64Col _ => dt_int64
  | Float64Col _ => dt_float64
  | DatetimeCol _ => dt_datetime64
  end.

Definition dtype_eqb (a b : dtype) : bool :=
  match a, b with
  | dt_object, dt_object | dt_int64, dt_int64
  | dt_float64, dt_float64 | dt_datetime64, dt_datetime64 => true
  | _, _ => false
  end.

Definition col_length (c : column) : nat :=
  match c with
  | ObjectCol v => length v
  | Int64Col v => length v
  | Float64Col v => length v
  | DatetimeCol v => length v
  end.

(** [df.columns] *)
Definition labels (df : DataFrame) : list string := fst <$> columns df.

(** Labels are unique and every column has one value per row. *)
Definition wf (df : DataFrame) : Prop :=
  NoDup (labels df) /\ Forall (fun nc => col_length nc.2 = nrows df) (columns df).

(** [df.select_dtypes(include=kinds).columns] *)
Definition select_dtypes (kinds : list dtype) (df : DataFrame) : list string :=
  fst <$> filter (fun nc => existsb (dtype_eqb (dtype_of nc.2)) kinds = true) (columns df).

(** [df[col]]: the first column with that label. *)
Fixpoint lookup_col (col : string) (cols : list (string * column)) : option column :=
  match cols with
  | [] => None
  | (n, c) :: rest => if String.eqb n col then Some c else lookup_col col rest
  end.

(** [df[col] = c]: the column with that label is replaced, a new label is
    added last. *)
Fixpoint assign_col (col : string) (c : column) (cols : list (string * column))
  : list (string * column) :=
  match cols with
  | [] => [(col, c)]
  | (n, c0) :: rest =>
      if String.eqb n col then (n, c) :: rest else (n, c0) :: assign_col col c rest
  end.

(** [df[cols] = df[cols].apply(f)] for labels [cols] of the frame: each of
    these columns is replaced by its image. *)
Definition apply_cols (cols : list string) (f : column -> column) (df : DataFrame)
  : DataFrame :=
  Frame (nrows df)
    ((fun nc => if bool_decide (nc.1 ∈ cols) then (nc.1, f nc.2) else nc) <$> columns df).

(** Lexicographic order on strings by character code, the order of
    [sorted] on [str]. *)
Definition str_le (a b : string) : Prop := String.leb a b = true.

Global Instance str_le_dec : RelDecision str_le.
Proof. intros a b. unfold str_le. apply _. Defined.

(** [sorted(l)] for a list of strings *)
Definition sorted (l : list string) : list string := merge_sort str_le l.

(** [df.reindex(new_labels, axis=1)]: the columns in the order of
    [new_labels]; a label the frame does not have gives a column of [nan]. *)
Definition reindex (new_labels : list string) (df : DataFrame) : DataFrame :=
  Frame (nrows df)
    ((fun l => (l, default (Float64Col (replicate (nrows df) PrimFloat.nan))
                           (lookup_col l (columns df)))) <$> new_labels).

(** [x.str.strip()] on an [object] column *)
Definition str_strip (c : column) : column :=
  match c with
  | ObjectCol vals => ObjectCol ((fun v : option string => strip <$> v) <$> vals)
  | _ => c
  end.

(** [x.round(6)]: integers are left as they are. *)
Definition round6 (c : column) : column :=
  match c with
  | Float64Col vals => Float64Col (Float64.np_round 6 <$> vals)
  | _ => c
  end.

(** [fillna('').astype(str)] on one column: the text of every cell, the
    empty text for a missing one. *)
Definition texts (c : column) : list string :=
  match c with
  | ObjectCol vals => default EmptyString <$> vals
  | Int64Col vals => str_int <$> vals
  | Float64Col vals =>
      (fun x => if PrimFloat.is_nan x then EmptyString else Float64.str x) <$> vals
  | DatetimeCol vals =>
      (fun v => match v with
                | Some t => strftime "%Y-%m-%d %H:%M:%S" t
                | None => EmptyString
                end) <$> vals
  end.

(** [df.fillna('').astype(str)]: a frame of [object] columns of text. *)
Definition fillna_astype_str (df : DataFrame) : DataFrame :=
  Frame (nrows df) ((fun nc => (nc.1, ObjectCol (Some <$> texts nc.2))) <$> columns df).

(** The text in row [i] of a column of text; [None] for a cell that is not a
    [str]. *)
Definition text_at (i : nat) (c : column) : option string :=
  match c with
  | ObjectCol vals => mjoin (vals !! i)
  | _ => None
  end.

(** [row.values] for row [i] of a frame of text. *)
Definition row_values (df : DataFrame) (i : nat) : option (list string) :=
  mapM (fun nc => text_at i nc.2) (columns df).

(** The rows of a frame of text, first to last. *)
Definition rows_of (df : DataFrame) : option (list (list string)) :=
  mapM (row_values df) (seq 0 (nrows df)).

(** What [apply] gives back: a column with one value per row, or the frame
    it was called on. *)
Inductive applied :=
| Series (values : list string)
| SameFrame (f : DataFrame).

(** What [sorted(x)] and a [for] loop see: the values of a column, the
    column labels of a frame. *)
Definition iterate (a : applied) : list string :=
  match a with
  | Series values => values
  | SameFrame f => labels f
  end.

(** ** CSV output: [to_csv(index=False, header=False, lineterminator='\n')]

    The writer quotes a field only when it has to (minimal quoting): when the
    field holds the delimiter, the quote character or a character of the line
    terminator; quote characters inside are doubled.  A record made of one
    empty field is written as two quote characters. *)

Definition csv_special (c : ascii) : bool :=
  Ascii.eqb c COMMA || Ascii.eqb c DQUOTE || Ascii.eqb c LF.

Definition csv_field (s : string) : string :=
  if existsb csv_special (chars s) then
    of_chars (DQUOTE :: flat_map (fun c => if Ascii.eqb c DQUOTE then [c; c] else [c]) (chars s)
              ++ [DQUOTE])
  else s.

Definition csv_record (fields : list string) : string :=
  match fields with
  | [s] => if String.eqb s EmptyString then of_chars [DQUOTE; DQUOTE; LF]
           else csv_field s +:+ str1 LF
  | _ => join (str1 COMMA) (csv_field <$> fields) +:+ str1 LF
  end.

(** Row [i] of the cells as text (a missing cell is written as nothing). *)
Definition csv_row (df : DataFrame) (i : nat) : list string :=
  (fun nc => default EmptyString (texts nc.2 !! i)) <$> columns df.

Definition to_csv (df : DataFrame) : string :=
  concat_str ((fun i => csv_record (csv_row df i)) <$> seq 0 (nrows df)).

(** ** The heap of frames

    A Python variable holding a frame is a reference into the heap; [None]
    is an exception that leaves the function. *)

Abbreviation ref := nat (only parsing).
Abbreviation heap := (list DataFrame) (only parsing).
Definition M (A : Type) : Type := heap -> option (A * heap).

Definition ret {A} (a : A) : M A := fun h => Some (a, h).
Definition bind {A B} (m : M A) (k : A -> M B) : M B :=
  fun h => match m h with
           | Some (a, h') => k a h'
           | None => None
           end.
Definition raise {A} : M A := fun _ => None.

Notation "x <- m ;; k" := (bind m (fun x => k))
  (at level 100, m at next level, right associativity).
Notation "m ;;; k" := (bind m (fun _ => k))
  (at level 100, right associativity).

Definition load (r : ref) : M DataFrame :=
  fun h => match h !! r with
           | Some df => Some (df, h)
           | None => None
           end.

Definition store (r : ref) (df : DataFrame) : M unit :=
  fun h => if decide (r < length h)%nat then Some (tt, <[r := df]> h) else None.

Definition alloc (df : DataFrame) : M ref :=
  fun h => Some (length h, h ++ [df]).

(** [df[col]] and [df[col] = c] through a reference *)
Definition getitem (r : ref) (col : string) : M column :=
  df <- load r ;;
  match lookup_col col (columns df) with
  | Some c => ret c
  | None => raise
  end.

Definition setitem (r : ref) (col : string) (c : column) : M unit :=
  df <- load r ;;
  store r (Frame (nrows df) (assign_col col c (columns df))).

(** [for x in l: acc = body(acc, x)] *)
Fixpoint for_each {A S} (l : list A) (acc : S) (body : S -> A -> M S) : M S :=
  match l with
  | [] => ret acc
  | x :: l' => acc' <- body acc x ;; for_each l' acc' body
  end.

(** ** [standardize_datetime_columns] and the two fingerprints *)

Definition datetime_formats : list string :=
  [ "%Y-%m-%d %H:%M:%S";
    "%d-%m-%Y %H:%M:%S";
    "%Y-%m-%d %H:%M";
    "%d-%m-%Y %H:%M";
    "%Y-%m-%d";
    "%d-%m-%Y" ].

(** The texts the conversion with a format takes for a missing value,
    whatever the format: the empty text and the spellings of [NaT] and
    [nan]. *)
Definition nat_strings : list string := ["NaT"; "nat"; "NAT"; "nan"; "NaN"; "NAN"].

Definition is_nat_text (s : string) : bool :=
  String.eqb s EmptyString || existsb (String.eqb s) nat_strings.

(** [pd.to_datetime(values, format=fmt, errors='raise')] on the values of an
    [object] column: a missing value stays missing, a text that stands for a
    missing value becomes one, and one other text that does not parse fails
    the whole conversion. *)
Definition to_datetime_format (fmt : string) (vals : list (option string))
  : option (list (option datetime)) :=
  mapM (fun v : option string =>
          match v with
          | None => Some None
          | Some s => if is_nat_text s then Some None else Some <$> strptime fmt s
          end) vals.

(** The loop over the formats with its [break]: the first format under which
    the conversion succeeds, with the converted values. *)
Fixpoint first_format (fmts : list string) (vals : list (option string))
  : option (string * list (option datetime)) :=
  match fmts with
  | [] => None
  | fmt :: rest =>
      match to_datetime_format fmt vals with
      | Some parsed => Some (fmt, parsed)
      | None => first_format rest vals
      end
  end.

(** [parsed_col.notnull().mean()], a binary64 quotient; it is [nan] for an
    empty column. *)
Definition notnull_mean (parsed : list (option datetime)) : float :=
  let count := length (filter (fun v => is_Some v) parsed) in
  PrimFloat.div (PrimFloat.of_uint63 (Uint63.of_Z (Z.of_nat count)))
                (PrimFloat.of_uint63 (Uint63.of_Z (Z.of_nat (length parsed)))).

(** [x.dt.strftime(fmt)] *)
Definition dt_strftime (fmt : string) (vals : list (option datetime)) : column :=
  ObjectCol ((fun v : option datetime => strftime fmt <$> v) <$> vals).

(** [pd.to_datetime(values, errors='coerce')] without a format: the free-form
    reading of dates, whose rules belong to the date parser and are left
    open here.  [infer values text] is the reading of a text that is a value
    of the column [values]; it may depend on the column, since pandas from
    2.0 on reads every value under the one format it guesses from the first
    value that is not missing, where pandas before 2.0 reads each value on
    its own. *)
Definition date_reader : Type := list (option string) -> string -> option datetime.

Section Fingerprint.

Variable infer : date_reader.

(** With [errors='coerce'] a text that is not read becomes missing, and a
    missing value stays missing. *)
Definition to_datetime_coerce (vals : list (option string)) : list (option datetime) :=
  (fun v : option string => v ≫= infer vals) <$> vals.

(** One turn of the loop over the [object] columns. *)
Definition parse_object_column (df : ref) (potential_datetime_cols : list string)
           (col : string) : M (list string) :=
  c <- getitem df col ;;
  match c with
  | ObjectCol vals =>
      match first_format datetime_formats vals with
      | Some (_, parsed_col) =>
          setitem df col (DatetimeCol parsed_col) ;;;
          ret (potential_datetime_cols ++ [col])
      | None =>
          let parsed_col := to_datetime_coerce vals in
          if PrimFloat.leb 0x1.999999999999ap-1 (notnull_mean parsed_col) then
            setitem df col (DatetimeCol parsed_col) ;;;
            ret (potential_datetime_cols ++ [col])
          else ret potential_datetime_cols
      end
  | _ => raise
  end.

(** One turn of the loop that rewrites the datetime columns as text. *)
Definition format_datetime_column (date_format : string) (df : ref) (_ : unit)
           (col : string) : M unit :=
  c <- getitem df col ;;
  match c with
  | DatetimeCol vals => setitem df col (dt_strftime date_format vals)
  | _ => raise
  end.

Definition standardize_datetime_columns (df : ref) (date_only : bool) : M ref :=
  f <- load df ;;
  let datetime_cols := select_dtypes [dt_datetime64] f in
  let object_cols := select_dtypes [dt_object] f in
  potential_datetime_cols <- for_each object_cols [] (parse_object_column df) ;;
  let datetime_cols := remove_dups (datetime_cols ++ potential_datetime_cols) in
  let date_format := if date_only then "%Y-%m-%d" else "%Y-%m-%d %H:%M:%S" in
  for_each datetime_cols tt (format_datetime_column date_format df) ;;;
  ret df.

(** The statements both fingerprint functions start with, up to
    [df = df.fillna('').astype(str)]: the reference of the frame of text. *)
Definition canonical_frame (df : ref) : M ref :=
  df <- standardize_datetime_columns df false ;;
  f <- load df ;;
  df <- alloc (reindex (sorted (labels f)) f) ;;
  f <- load df ;;
  df <- alloc f ;;
  f <- load df ;;
  let string_cols := select_dtypes [dt_object] f in
  store df (apply_cols string_cols str_strip f) ;;;
  f <- load df ;;
  let numeric_cols := select_dtypes [dt_float64; dt_int64] f in
  store df (apply_cols numeric_cols round6 f) ;;;
  f <- load df ;;
  alloc (fillna_astype_str f).

Definition generate_order_dependent_fingerprint (df : ref) : M string :=
  df <- canonical_frame df ;;
  f <- load df ;;
  let data_string := to_csv f in
  ret (sha256_hex data_string).

(** [df.apply(lambda row: ','.join(row.values), axis=1)].  On a frame
    without rows pandas (from 1.5 on) tries the function once, on a row that
    holds [NaN] for every column, to learn the shape of the result: the join
    raises on a [NaN], pandas catches that and gives back a copy of the
    frame.  Without columns the join of nothing is the empty text, and the
    result is a column with one empty text per row. *)
Definition row_strings_of (f : DataFrame) : M applied :=
  match nrows f, columns f with
  | O, _ :: _ => ret (SameFrame f)
  | _, _ =>
      match rows_of f with
      | Some rows => ret (Series (join (str1 COMMA) <$> rows))
      | None => raise
      end
  end.

(** [row_strings.apply(lambda x: hashlib.sha256(x.encode('utf-8')).hexdigest())].
    On the frame without rows the function is tried on an empty column,
    which has no [encode]; pandas catches that as well and the frame comes
    back once more. *)
Definition row_hashes_of (row_strings : applied) : applied :=
  match row_strings with
  | Series values => Series (sha256_hex <$> values)
  | SameFrame f => SameFrame f
  end.

Definition generate_order_independent_fingerprint (df : ref) : M string :=
  df <- canonical_frame df ;;
  f <- load df ;;
  row_strings <- row_strings_of f ;;
  let row_hashes := row_hashes_of row_strings in
  let row_hashes := sorted (iterate row_hashes) in
  let concatenated_hashes := concat_str row_hashes in
  ret (sha256_hex concatenated_hashes).

(** A call on a table of the caller: the heap holds that table alone. *)
Definition call {A} (f : ref -> M A) (table : DataFrame) : option (A * heap) :=
  f 0%nat [table].

End Fingerprint.

(** ** [detect_decimal_separator]

    The function is given over the records the CSV reader yields for the
    file (the header record first), each a list of fields. *)

Definition decimal_separators : list ascii := [","%char; "."%char].

(** [s.split(sep)] for a one-character separator *)
Fixpoint split_on (sep : ascii) (s : list ascii) : list (list ascii) :=
  match s with
  | [] => [[]]
  | c :: s' =>
      if Ascii.eqb c sep then [] :: split_on sep s'
      else match split_on sep s' with
           | p :: ps => (c :: p) :: ps
           | [] => [[c]]
           end
  end.

(** [''.join(c for c in value if c.isdigit() or c in decimal_separators)] *)
Definition clean (value : string) : list ascii :=
  List.filter (fun c => isdigit c || existsb (Ascii.eqb c) decimal_separators) (chars value).

(** The body of [for sep in decimal_separators] *)
Definition count_sep (value_no_sep : list ascii) (decimal_counts : gmap string nat)
           (sep : ascii) : gmap string nat :=
  if existsb (Ascii.eqb sep) value_no_sep then
    let parts := of_chars <$> split_on sep value_no_sep in
    if (length parts =? 2)%nat && forallb str_isdigit parts
    then <[str1 sep := S (decimal_counts !!! str1 sep)]> decimal_counts
    else decimal_counts
  else decimal_counts.

(** The body of [for value in row] *)
Definition count_value (decimal_counts : gmap string nat) (value : string)
  : gmap string nat :=
  fold_left (count_sep (clean value)) decimal_separators decimal_counts.

(** The body of the loop over the sampled records; [if row:] skips an empty
    record. *)
Definition count_row (decimal_counts : gmap string nat) (row : list string)
  : gmap string nat :=
  match row with
  | [] => decimal_counts
  | _ => fold_left count_value row decimal_counts
  end.

Definition detect_decimal_separator (reader : list (list string)) : string :=
  let decimal_counts : gmap string nat := <["," := 0%nat]> (<["." := 0%nat]> ∅) in
  (* headers = next(reader, None) *)
  let reader := drop 1 reader in
  (* for _ in range(10): row = next(reader), until the reader is exhausted *)
  let decimal_counts := fold_left count_row (take 10 reader) decimal_counts in
  if (decimal_counts !!! "." <? decimal_counts !!! ",")%nat then "," else ".".

(** ** What the functions compute, column by column

    The definitions below describe the frames the functions leave on the
    heap; the theorems of the next part relate them to the functions. *)

Section Canonical.

Variable infer : date_reader.

(** An [object] column is taken for a datetime column when a format parses
    it or when the free-form reading gets at least 80% of its values. *)
Definition detect (vals : list (option string)) : option (list (option datetime)) :=
  match first_format datetime_formats vals with
  | Some (_, parsed) => Some parsed
  | None =>
      let parsed := to_datetime_coerce infer vals in
      if PrimFloat.leb 0x1.999999999999ap-1 (notnull_mean parsed) then Some parsed
      else None
  end.

(** The column after the first loop of [standardize_datetime_columns]. *)
Definition parsed_column (c : column) : column :=
  match c with
  | ObjectCol vals =>
      match detect vals with
      | Some parsed => DatetimeCol parsed
      | None => c
      end
  | _ => c
  end.

(** The column after the second loop. *)
Definition formatted_column (date_format : string) (c : column) : column :=
  match c with
  | DatetimeCol vals => dt_strftime date_format vals
  | _ => c
  end.

Definition standardized_column (date_only : bool) (c : column) : column :=
  formatted_column (if date_only then "%Y-%m-%d" else "%Y-%m-%d %H:%M:%S")
                   (parsed_column c).

Definition map_columns (g : column -> column) (df : DataFrame) : DataFrame :=
  Frame (nrows df) ((fun nc => (nc.1, g nc.2)) <$> columns df).

(** The caller's frame after [standardize_datetime_columns]. *)
Definition standardized (date_only : bool) (df : DataFrame) : DataFrame :=
  map_columns (standardized_column date_only) df.

(** The frame with its columns in sorted order. *)
Definition reindexed (df : DataFrame) : DataFrame :=
  let f := standardized false df in
  reindex (sorted (labels f)) f.

(** The same after trimming and rounding. *)
Definition trimmed_rounded (df : DataFrame) : DataFrame :=
  map_columns (fun c => round6 (str_strip c)) (reindexed df).

(** The canonical frame of text. *)
Definition canonical (df : DataFrame) : DataFrame :=
  fillna_astype_str (trimmed_rounded df).

(** The canonical text of the cells of one column of the table. *)
Definition canonical_texts (c : column) : list string :=
  texts (round6 (str_strip (standardized_column false c))).

(** The labels the first loop of [standardize_datetime_columns] has
    collected after the column [col]. *)
Definition potential_of (acc : list string) (col : string) (c : column) : list string :=
  acc ++ match c with
         | ObjectCol vals => match detect vals with Some _ => [col] | None => [] end
         | _ => []
         end.

(** The column a label gets in the frame with sorted columns. *)
Definition column_of (df : DataFrame) (l : string) : column :=
  default (Float64Col (replicate (nrows df) PrimFloat.nan))
          (standardized_column false <$> lookup_col l (columns df)).

(** The texts of the canonical column with label [l]. *)
Definition texts_of (df : DataFrame) (l : string) : list string :=
  texts (round6 (str_strip (column_of df l))).

(** The heap after the statements shared by the two functions: the caller's
    frame with its datetime columns rewritten, and three new frames. *)
Definition heap_after (r : ref) (h : list DataFrame) (f : DataFrame) : list DataFrame :=
  <[r := standardized false f]> h
    ++ [reindexed f; trimmed_rounded f; canonical f].

End Canonical.

(** [df.iloc[idx]]: the rows at the positions [idx], in that order. *)
Definition take_list {A} (idx : list nat) (l : list A) : list A :=
  omap (fun i => l !! i) idx.

Definition take_col (idx : list nat) (c : column) : column :=
  match c with
  | ObjectCol v => ObjectCol (take_list idx v)
  | Int64Col v => Int64Col (take_list idx v)
  | Float64Col v => Float64Col (take_list idx v)
  | DatetimeCol v => DatetimeCol (take_list idx v)
  end.

Definition take_rows (idx : list nat) (df : DataFrame) : DataFrame :=
  Frame (length idx) ((fun nc => (nc.1, take_col idx nc.2)) <$> columns df).

(** The order-independent fingerprint in the words of its description: the
    digests of the comma-joined rows, in sorted order with repetitions kept,
    concatenated and hashed once more. *)
Definition row_digest (row : list string) : string := sha256_hex (join (str1 COMMA) row).

(** What the order-independent function sorts for a frame of text with the
    rows [rows]: the digests of the rows, or the column labels when the
    frame has columns and no rows. *)
Definition items_of (f : DataFrame) (rows : list (list string)) : list string :=
  match nrows f, columns f with
  | O, _ :: _ => labels f
  | _, _ => row_digest <$> rows
  end.

Definition is_order_independent_fingerprint (rows : list (list string)) (fp : string) : Prop :=
  exists digests : list string,
    digests ≡ₚ row_digest <$> rows
    /\ Sorted str_le digests
    /\ fp = sha256_hex (concat_str digests).

(** Readers of dates for the examples: one that reads no text as a date,
    one that reads a year-month-day text, and one that does so after
    skipping surrounding blanks; the three read each value on its own. *)
Definition no_dates : date_reader := fun _ _ => None.
Definition strict_dates : date_reader := fun _ => strptime "%Y-%m-%d".
Definition lenient_dates : date_reader :=
  fun _ s => strptime "%Y-%m-%d" (strip s).

(** A reader in the manner of pandas from 2.0 on: the format is taken from
    the first value of the column that is not missing, here the first of
    year-month-day and month/day/year that reads it, and every value of the
    column is read under that format. *)
Definition first_text (vals : list (option string)) : option string :=
  mjoin (head (filter (fun v : option string => is_Some v) vals)).

Definition guessed_format (vals : list (option string)) : option string :=
  s ← first_text vals;
  head (filter (fun fmt => is_Some (strptime fmt s)) ["%Y-%m-%d"; "%m/%d/%Y"]).

Definition first_value_dates : date_reader :=
  fun vals s => fmt ← guessed_format vals; strptime fmt s.

(** The free-form reading of the values of a column does not depend on the
    order of the values; that matters for a column of text that no explicit
    format parses, the only one the reader is asked about. *)
Definition order_blind_col (infer : date_reader) (c : column) : Prop :=
  match c with
  | ObjectCol vals =>
      first_format datetime_formats vals = None ->
      forall vals' s, vals' ≡ₚ vals -> Some s ∈ vals -> infer vals' s = infer vals s
  | _ => True
  end.

Definition order_blind (infer : date_reader) (df : DataFrame) : Prop :=
  Forall (fun nc => order_blind_col infer nc.2) (columns df).

(** What a loop over labels that updates one column per turn accumulates. *)
Definition loop_result {S : Type} (upd : S -> string -> column -> S)
           (f : DataFrame) (cols : list string) (acc : S) : S :=
  fold_left (fun a col => match lookup_col col (columns f) with
                          | Some c => upd a col c
                          | None => a
                          end) cols acc.

(** Two readers of dates agree on the texts of the [object] columns of a
    frame. *)
Definition agree_col (infer infer' : date_reader) (c : column) : Prop :=
  match c with
  | ObjectCol vals =>
      Forall (fun v : option string =>
                match v with Some s => infer vals s = infer' vals s | None => True end) vals
  | _ => True
  end.

Definition agree_on (infer infer' : date_reader) (df : DataFrame) : Prop :=
  Forall (fun nc => agree_col infer infer' nc.2) (columns df).

(** A frame of text: every column is an [object] column of [nrows] texts. *)
Definition text_frame (f : DataFrame) : Prop :=
  Forall (fun nc => exists ts, nc.2 = ObjectCol (Some <$> ts) /\ length ts = nrows f)
         (columns f).

(** A column that [standardize_datetime_columns] leaves as it is: a column of
    numbers, or a column of text that is not taken for dates. *)
Definition kept_column (infer : date_reader) (c : column) : Prop :=
  match c with
  | ObjectCol vals => detect infer vals = None
  | DatetimeCol _ => False
  | _ => True
  end.

(** One for a cell that counts, nothing for another. *)
Definition bump (b : bool) : nat := if b then 1%nat else 0%nat.

(** Digits and points only. *)
Definition plain_char (c : ascii) : Prop := isdigit c = true \/ c = "."%char.

(** ** Tables of the scenarios *)

(** The fingerprint a call returns, when it returns. *)
Definition fingerprint_of (r : option (string * list DataFrame)) : option string :=
  fst <$> r.

(** The caller's table after a call. *)
Definition table_after (r : option (string * list DataFrame)) : option DataFrame :=
  r ≫= fun res => res.2 !! 0%nat.

(** Scenario A: columns [b, a], rows [(1, x)] and [(2, y)]. *)
Definition scenario_A : DataFrame :=
  Frame 2 [("b", Int64Col [1; 2]); ("a", ObjectCol [Some "x"; Some "y"])].

(** The CSV text of its canonical table, and the text its description
    gives. *)
Definition scenario_A_csv : string := "x,1" +:+ str1 LF +:+ "y,2" +:+ str1 LF.
Definition scenario_A_described : string := "1,x" +:+ str1 LF +:+ "2,y" +:+ str1 LF.

(** Three rows with a repeated one, for the order of the rows. *)
Definition three_rows : DataFrame :=
  Frame 3 [("k", Int64Col [7; 8; 7]); ("t", ObjectCol [Some "u"; None; Some "u"])].

(** Five dates written year-month-day and one written month/day/year, and
    the same rows with the last one first. *)
Definition mixed_dates : DataFrame :=
  Frame 6 [("d", ObjectCol [Some "2023-01-05"; Some "2023-01-06"; Some "2023-01-07";
                            Some "2023-01-08"; Some "2023-01-09"; Some "01/10/2023"])].
Definition last_row_first : list nat := [5; 0; 1; 2; 3; 4]%nat.

(** A table with two columns and no rows. *)
Definition header_only : DataFrame :=
  Frame 0 [("b", ObjectCol []); ("a", ObjectCol [])].

(** A table with one text column holding a date. *)
Definition dated_table : DataFrame :=
  Frame 1 [("d", ObjectCol [Some "2023-01-05"])].
Definition dated_table_after : DataFrame :=
  Frame 1 [("d", ObjectCol [Some "2023-01-05 00:00:00"])].

(** A table of numbers. *)
Definition numbers_table : DataFrame :=
  Frame 2 [("n", Int64Col [1; 2]); ("x", Float64Col [0.5%float; 0.25%float])].

(** Two one-row tables whose cells differ and whose comma-joined rows are
    the same text. *)
Definition comma_left : DataFrame :=
  Frame 1 [("p", ObjectCol [Some "a,b"]); ("q", ObjectCol [Some "c"])].
Definition comma_right : DataFrame :=
  Frame 1 [("p", ObjectCol [Some "a"]); ("q", ObjectCol [Some "b,c"])].

(** ** The decimal separator in the words of its description

    A cell is evidence for a separator when its cleaned value, the digits
    and the two separators of the cell with every other character struck
    out, splits on the separator into exactly two parts, both of them digits
    and nothing else; the sample is the first ten records after the
    header. *)

Definition pure_digits (part : list ascii) : bool :=
  match part with
  | [] => false
  | _ => forallb isdigit part
  end.

(** The digits and the separators of the cell, in their order. *)
Fixpoint cleaned (l : list ascii) : list ascii :=
  match l with
  | [] => []
  | c :: l' =>
      if isdigit c || Ascii.eqb c "," || Ascii.eqb c "." then c :: cleaned l'
      else cleaned l'
  end.

(** The text before the first [sep] and the text after it. *)
Fixpoint break_at (sep : ascii) (l : list ascii) : option (list ascii * list ascii) :=
  match l with
  | [] => None
  | c :: l' =>
      if Ascii.eqb c sep then Some ([], l')
      else match break_at sep l' with
           | Some (a, b) => Some (c :: a, b)
           | None => None
           end
  end.

(** Exactly two parts: one separator, and digits on both sides of it. *)
Definition is_evidence (sep : ascii) (value : string) : bool :=
  match break_at sep (cleaned (chars value)) with
  | Some (a, b) => pure_digits a && pure_digits b && negb (existsb (Ascii.eqb sep) b)
  | None => false
  end.

(** Text of ASCII characters, on which the character classes of this file
    are the ones of Python. *)
Definition ascii_text (s : string) : Prop := Forall (fun c => ord c < 128) (chars s).

Definition ascii_cells (vals : list (option string)) : Prop :=
  Forall (fun v : option string =>
            match v with Some s => ascii_text s | None => True end) vals.

Definition sample (reader : list (list string)) : list (list string) :=
  take 10 (drop 1 reader).

Definition evidence_count (sep : ascii) (rows : list (list string)) : nat :=
  length (List.filter (is_evidence sep) (concat rows)).

Definition described_separator (reader : list (list string)) : string :=
  if (evidence_count "." (sample reader) <? evidence_count "," (sample reader))%nat
  then "," else ".".

(** ** A column under one format, value by value *)


(** Every value that is not missing, as a value or by its text, parses
    under the format. *)
Definition all_parse (fmt : string) (vals : list (option string)) : Prop :=
  Forall (fun v : option string =>
            match v with
            | Some s => is_nat_text s = true \/ is_Some (strptime fmt s)
            | None => True
            end) vals.

(** The timestamps of the values under the format. *)
Definition parse_each (fmt : string) (vals : list (option string)) : list (option datetime) :=
  (fun v : option string =>
     v ≫= fun s => if is_nat_text s then None else strptime fmt s) <$> vals.

(** ** The canonical table a call builds, and its cells *)

(** The frame of text [canonical_frame] leaves at the reference it returns. *)
Definition canonical_table (infer : date_reader) (df : DataFrame)
  : option DataFrame :=
  res ← call (canonical_frame infer) df; res.2 !! res.1.

(** The canonical text of the cell in row [i] of the column [col]. *)
Definition canonical_cell (infer : date_reader) (df : DataFrame)
           (col : string) (i : nat) : option string :=
  f ← canonical_table infer df; c ← lookup_col col (columns f); text_at i c.

(** Scenario C: a date with blanks around it among dates without. *)
Definition padded_date : string := "  2023-01-05  ".

Definition scenario_C : DataFrame :=
  Frame 5 [("d", ObjectCol [Some "2023-01-04"; Some padded_date; Some "2023-01-06";
                            Some "2023-01-07"; Some "2023-01-08"])].

(** Numbers around the rounding boundary: 1.0000004999 and 1.0000005001 as
    the nearest binary64 values, and the ties 0.0078125 and 0.0234375, which
    are binary64 values whose millionfold ends in one half. *)
Definition below_half : float := 0x1.000008630ddcep+0.
Definition above_half : float := 0x1.00000863e9c3ep+0.
Definition tie_down : float := 0.0078125.
Definition tie_up : float := 0.0234375.

(** Large and small numbers: ten to the sixteenth, and 0.00001 as the nearest
    binary64 value. *)
Definition ten_to_16 : float := 1e16.
Definition one_in_100000 : float := 0x1.4f8b588e368f1p-17.

Definition one_float (x : float) : DataFrame := Frame 1 [("v", Float64Col [x])].

(** The characters of the text of a number: digits, the point, the signs,
    the exponent marker and the letters of [inf] and [nan]. *)
Definition number_char (c : ascii) : bool :=
  isdigit c || existsb (Ascii.eqb c) (chars ".-+einfa").

(** The text has an exponent marker. *)
Definition has_exponent (s : string) : bool := existsb (Ascii.eqb "e") (chars s).

(** The text has a comma. *)
Definition has_comma (s : string) : bool := existsb (Ascii.eqb COMMA) (chars s).

(** [str] writes a float with an exponent when the point would sit at or
    before the fourth zero after it, or more than sixteen digits in. *)
Definition scientific (x : float) : bool :=
  match Prim2SF x with
  | S754_finite _ m e =>
      let p := (Float64.digits_decpt (Z.pos m) e).2 in
      (p <=? -4) || (16 <? p)
  | _ => false
  end.

(** The canonical text of a float. *)
Definition float_text (x : float) : string :=
  let r := Float64.np_round 6 x in
  if PrimFloat.is_nan r then EmptyString else Float64.str r.

(** ** More about the fingerprints *)



(** ** Timestamps as text and back *)

(** A timestamp of a [datetime64] column: a calendar date within the range
    of the type and a time of day. *)
Definition is_timestamp (t : datetime) : Prop :=
  valid_datetime t = true /\ 0 <= hour t /\ 0 <= minute t /\ 0 <= second t.

(** The first alternative of a group that matches at the head of the
    text. *)
Fixpoint find_alt (alts : list (list (ascii -> bool))) (s : list ascii)
  : option (list ascii * list ascii) :=
  match alts with
  | [] => None
  | cls :: rest =>
      match match_classes cls s with
      | Some mr => Some mr
      | None => find_alt rest s
      end
  end.

(** The number [v] written with [w] digits is read back by the group as
    [v], by an alternative that takes all of the digits. *)
Definition field_ok (alts : list (list (ascii -> bool))) (w : nat) (v : Z) : bool :=
  let s := chars (zfill w v) in
  match find_alt alts s with
  | Some (m, []) =>
      (int_of m =? v) && forallb (fun cls => (length cls <=? length s)%nat) alts
      && forallb (fun c => negb (isspace c)) s
  | _ => false
  end.

(** The matches of a pattern start with [x]. *)
Definition starts (ds : list directive) (s : list ascii) (fs : list Z)
           (x : list Z * list ascii) : Prop :=
  exists tail, matches ds s fs = x :: tail.

(** The cells of a [datetime64] column are timestamps, and so is what the
    free-form reader of dates returns. *)
Definition timestamps (vals : list (option datetime)) : Prop :=
  Forall (fun v : option datetime =>
            match v with Some t => is_timestamp t | None => True end) vals.

Definition timestamps_col (c : column) : Prop :=
  match c with
  | DatetimeCol vals => timestamps vals
  | _ => True
  end.

Definition reads_timestamps (infer : date_reader) : Prop :=
  forall vals s t, infer vals s = Some t -> is_timestamp t.

(** ** Missing values *)

(** The cell in row [i] of a column is missing: [None], [NaN] or [NaT]. *)
Definition is_missing (c : column) (i : nat) : Prop :=
  match c with
  | ObjectCol vals => vals !! i = Some None
  | Float64Col vals => exists x, vals !! i = Some x /\ PrimFloat.is_nan x = true
  | DatetimeCol vals => vals !! i = Some None
  | Int64Col _ => False
  end.

(** A table with one column. *)
Definition one_column (c : column) : DataFrame := Frame (col_length c) [("v", c)].

(** ** Loading a file: [load_data] and [try_loading_with_guesses]

    The readers of pandas and of the [csv] module are given as functions of
    the path; [None] stands for an exception. *)

Record readers := Readers {
  (** [open(path, encoding='utf-8').read(2048)] *)
  read_sample : string -> option string;
  (** [csv.Sniffer().sniff(sample, delimiters=[',', ';', '\t', '|']).delimiter];
      [None] is [csv.Error] *)
  sniff : string -> option string;
  (** the records [csv.reader] yields for the file with a delimiter *)
  csv_records : string -> string -> option (list (list string));
  (** [pd.read_csv(path, delimiter=d, decimal=c)], and [pd.read_csv(path)]
      for [None] *)
  read_csv : string -> option (string * string) -> option DataFrame;
  (** [pd.read_excel(path, decimal=',')] *)
  read_excel : string -> option DataFrame;
  (** [pd.read_json(path, convert_dates=b)] *)
  read_json : string -> bool -> option DataFrame;
  read_xml : string -> option DataFrame;
  read_parquet : string -> option DataFrame;
  read_feather : string -> option DataFrame;
  read_hdf : string -> option DataFrame;
  read_pickle : string -> option DataFrame;
  read_stata : string -> option DataFrame;
  read_sas : string -> option DataFrame;
  read_spss : string -> option DataFrame;
  (** [pd.read_html(path)], a list of tables *)
  read_html : string -> option (list DataFrame)
}.

(** [s.lower()], on ASCII text *)
Definition lower_char (c : ascii) : ascii :=
  if in_range "A" "Z" c then chr (Z.to_nat (ord c + 32)) else c.

Definition lower (s : string) : string := of_chars (lower_char <$> chars s).

(** [p.rfind(c)]: the last position of [c], or [-1]. *)
Fixpoint rfind_from (c : ascii) (l : list ascii) (i : Z) (found : Z) : Z :=
  match l with
  | [] => found
  | x :: l' => rfind_from c l' (i + 1) (if Ascii.eqb x c then i else found)
  end.

Definition rfind (c : ascii) (l : list ascii) : Z := rfind_from c l 0 (-1).

(** [os.path.splitext(p)]: the extension starts at the last dot of the last
    component of the path, unless that component has only dots before it. *)
Definition splitext (p : string) : string * string :=
  let l := chars p in
  let sepIndex := rfind "/" l in
  let dotIndex := rfind "." l in
  if (sepIndex <? dotIndex)
     && existsb (fun c => negb (Ascii.eqb c "."))
                (take (Z.to_nat (dotIndex - (sepIndex + 1))) (drop (Z.to_nat (sepIndex + 1)) l))
  then (of_chars (take (Z.to_nat dotIndex) l), of_chars (drop (Z.to_nat dotIndex) l))
  else (p, EmptyString).

(** The loaders of [try_loading_with_guesses] in their order, each with its
    name; a loader raises ([None]) or returns a table or [None]. *)
Definition guess_loaders (env : readers)
  : list (string * (string -> option (option DataFrame))) :=
  [ ("CSV", fun f => Some <$> read_csv env f None);
    ("Excel", fun f => Some <$> read_excel env f);
    ("JSON", fun f => Some <$> read_json env f true);
    ("XML", fun f => Some <$> read_xml env f);
    ("Parquet", fun f => Some <$> read_parquet env f);
    ("Feather", fun f => Some <$> read_feather env f);
    ("HDF5", fun f => Some <$> read_hdf env f);
    ("Pickle", fun f => Some <$> read_pickle env f);
    ("Stata", fun f => Some <$> read_stata env f);
    ("SAS", fun f => Some <$> read_sas env f);
    ("SPSS", fun f => Some <$> read_spss env f);
    ("HTML", fun f => tables ← read_html env f;
                      match tables with
                      | [] => Some None
                      | _ => head <$> read_html env f
                      end) ].

(** The loop over the loaders: the first table a loader returns. *)
Fixpoint try_loaders (loaders : list (string * (string -> option (option DataFrame))))
         (file_path : string) : option DataFrame :=
  match loaders with
  | [] => None
  | (format_name, loader) :: rest =>
      match loader file_path with
      | Some (Some df) => Some df
      | _ => try_loaders rest file_path
      end
  end.

Definition try_loading_with_guesses (env : readers) (file_path : string)
  : option DataFrame :=
  try_loaders (guess_loaders env) file_path.

(** The branch of [load_data] for a [.csv] file. *)
Definition load_csv (env : readers) (file_path : string) : option DataFrame :=
  sample ← read_sample env file_path;
  let delimiter := default "," (sniff env sample) in
  decimal_sep ← detect_decimal_separator <$> csv_records env file_path delimiter;
  read_csv env file_path (Some (delimiter, decimal_sep)).

(** The [try] block of [load_data]: [None] when it raises, else the value of
    [df]. *)
Definition load_by_extension (env : readers) (ext file_path : string)
  : option (option DataFrame) :=
  if String.eqb ext ".csv" then Some <$> load_csv env file_path
  else if String.eqb ext ".xlsx" || String.eqb ext ".xls" then
    Some <$> read_excel env file_path
  else if String.eqb ext ".json" then Some <$> read_json env file_path false
  else if String.eqb ext ".parquet" then Some <$> read_parquet env file_path
  else if String.eqb ext ".feather" then Some <$> read_feather env file_path
  else if String.eqb ext ".h5" || String.eqb ext ".hdf" || String.eqb ext ".hdf5" then
    Some <$> read_hdf env file_path
  else if String.eqb ext ".pkl" || String.eqb ext ".pickle" then
    Some <$> read_pickle env file_path
  else if String.eqb ext ".dta" then Some <$> read_stata env file_path
  else if String.eqb ext ".sas7bdat" then Some <$> read_sas env file_path
  else if String.eqb ext ".sav" then Some <$> read_spss env file_path
  else if String.eqb ext ".xml" then Some <$> read_xml env file_path
  else if String.eqb ext ".html" then
    df_list ← read_html env file_path;
    match df_list with
    | df :: _ => Some (Some df)
    | [] => None
    end
  else Some (try_loading_with_guesses env file_path).

(** [load_data]: [None] is the [ValueError] it raises when no table was
    read. *)
Definition load_data (env : readers) (file_path : string) : option DataFrame :=
  let ext := lower (splitext file_path).2 in
  match load_by_extension env ext file_path with
  | Some df => df
  | None => try_loading_with_guesses env file_path
  end.

(** The extensions [load_data] knows, each with its reader. *)
Definition known_extensions (env : readers) : list (string * (string -> option DataFrame)) :=
  [ (".csv", load_csv env);
    (".xlsx", read_excel env); (".xls", read_excel env);
    (".json", fun f => read_json env f false);
    (".parquet", read_parquet env); (".feather", read_feather env);
    (".h5", read_hdf env); (".hdf", read_hdf env); (".hdf5", read_hdf env);
    (".pkl", read_pickle env); (".pickle", read_pickle env);
    (".dta", read_stata env); (".sas7bdat", read_sas env); (".sav", read_spss env);
    (".xml", read_xml env);
    (".html", fun f => read_html env f ≫= head) ].

(** [process_file_with_order_dependent_fingerprint] and
    [process_file_with_order_independent_fingerprint] *)
Definition process_file_with_order_dependent_fingerprint
           (env : readers) (infer : date_reader) (file_path : string)
  : option string :=
  df ← load_data env file_path;
  fingerprint_of (call (generate_order_dependent_fingerprint infer) df).

Definition process_file_with_order_independent_fingerprint
           (env : readers) (infer : date_reader) (file_path : string)
  : option string :=
  df ← load_data env file_path;
  fingerprint_of (call (generate_order_independent_fingerprint infer) df).

(** The reader of an extension in a table of readers. *)
Fixpoint reader_of (ext : string) (table : list (string * (string -> option DataFrame)))
  : option (string -> option DataFrame) :=
  match table with
  | [] => None
  | (e, reader) :: rest => if String.eqb ext e then Some reader else reader_of ext rest
  end.

(** A loader does not return a table for the file. *)
Definition no_table (file_path : string) (nl : string * (string -> option (option DataFrame)))
  : Prop :=
  forall df, nl.2 file_path <> Some (Some df).

(** A directory part of a path: nothing, or text that ends with a slash. *)
Definition is_dir_part (dir : list ascii) : Prop :=
  dir = [] \/ exists d, dir = d ++ ["/"%char].

(** What [load_data] does with the reader of an extension. *)
Definition load_with (env : readers) (reader : option (string -> option DataFrame))
           (file_path : string) : option DataFrame :=
  match reader with
  | Some reader =>
      match reader file_path with
      | Some df => Some df
      | None => try_loading_with_guesses env file_path
      end
  | None => try_loading_with_guesses env file_path
  end.

(** Readers for the examples: [pd.read_csv] reads every file as the table
    of numbers, and every other reader raises. *)
Definition csv_only : readers :=
  Readers (fun _ => None) (fun _ => None) (fun _ _ => None)
          (fun _ _ => Some numbers_table)
          (fun _ => None) (fun _ _ => None) (fun _ => None) (fun _ => None)
          (fun _ => None) (fun _ => None) (fun _ => None) (fun _ => None)
          (fun _ => None) (fun _ => None) (fun _ => None).

(** ** The texts a format reads *)



Definition is_colon (d : directive) : bool :=
  match d with
  | Lit x => Ascii.eqb ":" x
  | _ => false
  end.

Definition lit_colons (ds : list directive) : nat := length (List.filter is_colon ds).



(** What tells the six formats apart: whether the day comes first, and the
    number of colons. *)
Definition format_key (fmt : string) : bool * nat :=
  let ds := compile_format (chars fmt) in
  (match ds with Num 2 _ :: _ => true | _ => false end, lit_colons ds).


(** ** Reading a field of the CSV text back *)

(** The text of a quoted field after its opening quote: up to the quote
    that is not doubled. *)
Fixpoint read_quoted (l : list ascii) : option (list ascii * list ascii) :=
  match l with
  | [] => None
  | c :: l' =>
      if Ascii.eqb c DQUOTE then
        match l' with
        | d :: l'' =>
            if Ascii.eqb d DQUOTE then
              match read_quoted l'' with
              | Some (f, r) => Some (DQUOTE :: f, r)
              | None => None
              end
            else Some ([], l')
        | [] => Some ([], [])
        end
      else
        match read_quoted l' with
        | Some (f, r) => Some (c :: f, r)
        | None => None
        end
  end.

(** The text of a field written as it is: up to the next comma or line
    feed. *)
Fixpoint read_plain (l : list ascii) : list ascii * list ascii :=
  match l with
  | [] => ([], [])
  | c :: l' =>
      if Ascii.eqb c COMMA || Ascii.eqb c LF then ([], l)
      else let '(f, r) := read_plain l' in (c :: f, r)
  end.

Definition read_field (l : list ascii) : option (list ascii * list ascii) :=
  match l with
  | c :: l' => if Ascii.eqb c DQUOTE then read_quoted l' else Some (read_plain l)
  | [] => Some ([], [])
  end.

(** The text after a field starts with a comma or a line feed. *)
Definition after_field (rest : list ascii) : Prop :=
  exists d rest', rest = d :: rest' /\ (d = COMMA \/ d = LF).

(** [e] is a way of writing the field [s]: it is read back as [s] before
    whatever follows the field. *)
Definition encodes (e : list ascii) (s : string) : Prop :=
  forall rest, after_field rest -> read_field (e ++ rest) = Some (chars s, rest).

(** The text of a record of at least one field. *)
Inductive record_text : list string -> list ascii -> Prop :=
| record_last s e : encodes e s -> record_text [s] (e ++ [LF])
| record_more s e fields l :
    encodes e s -> record_text fields l -> record_text (s :: fields) (e ++ COMMA :: l).

(** Scenario A with its columns in the other order, and the left table of
    the comma example under other labels. *)
Definition scenario_A_swapped : DataFrame :=
  Frame 2 [("a", ObjectCol [Some "x"; Some "y"]); ("b", Int64Col [1; 2])].

Definition comma_left_renamed : DataFrame :=
  Frame 1 [("x", ObjectCol [Some "a,b"]); ("y", ObjectCol [Some "c"])].

(** ** Trimmed text *)

(** A text without a blank at either end. *)
Definition is_trimmed (s : string) : Prop :=
  (forall c, head (chars s) = Some c -> isspace c = false)
  /\ (forall c, last (chars s) = Some c -> isspace c = false).

(** * Properties *)

(** ** The embedded functions on sample inputs *)

Example sha256_abc :
  sha256_hex "abc" = "ba7816bf8f01cfea414140de5dae2223b00361a396177a9cb410ff61f20015ad"
  /\ sha256_hex EmptyString
     = "e3b0c44298fc1c149afbf4c8996fb92427ae41e4649b934ca495991b7852b855"
  /\ length SHA256.K = 64%nat
  /\ SHA256.K !! 0%nat = Some 0x428a2f98
  /\ SHA256.K !! 63%nat = Some 0xc67178f2
  /\ SHA256.ra SHA256.init = 0x6a09e667
  /\ SHA256.rh SHA256.init = 0x5be0cd19.
Proof. vm_compute. repeat split. Qed.

Example str_int_ex : str_int 2023 = "2023" /\ str_int (-40) = "-40" /\ str_int 0 = "0"
  /\ zfill 2 5 = "05" /\ strip "  2023-01-05  " = "2023-01-05".
Proof. vm_compute. repeat split. Qed.

Example strptime_ex :
  strptime "%Y-%m-%d" "2023-01-05" = Some (DT 2023 1 5 0 0 0)
  /\ strptime "%Y-%m-%d" "  2023-01-05  " = None
  /\ strptime "%Y-%m-%d" "2023-01-05 10:00" = None
  /\ strptime "%d-%m-%Y %H:%M" "5-1-2023  7:30" = Some (DT 2023 1 5 7 30 0)
  /\ strptime "%Y-%m-%d %H:%M:%S" "2023-02-29 00:00:00" = None
  /\ strptime "%Y-%m-%d" "x" = None
  /\ strftime "%Y-%m-%d %H:%M:%S" (DT 2023 1 5 7 30 0) = "2023-01-05 07:30:00".
Proof. vm_compute. repeat split. Qed.

Example detect_ex :
  detect_decimal_separator [["h1"; "h2"]; ["1,5"; "x"]; ["2,25"; "3.5"]] = ","
  /\ detect_decimal_separator [["h1"]; ["1,234.56"]; ["abc"]] = "."
  /\ detect_decimal_separator [["h"]; ["1,5"]; ["1.5"]] = ".".
Proof. vm_compute. repeat split. Qed.

(** ** Columns of a frame and the heap *)

(** * Properties *)

(** ** Columns of a frame *)

Lemma string_eqb_eq (a b : string) : String.eqb a b = true <-> a = b.
Proof. apply String.eqb_eq. Qed.

Lemma lookup_col_elem col cols c :
  lookup_col col cols = Some c -> (col, c) ∈ cols.
Proof.
  induction cols as [|[n c0] rest IH]; simpl; [discriminate|].
  destruct (String.eqb n col) eqn:E.
  - intros [= ->]. apply string_eqb_eq in E as ->. left.
  - intros H. right. auto.
Qed.

Lemma lookup_col_NoDup col cols c :
  NoDup (fst <$> cols) -> (col, c) ∈ cols -> lookup_col col cols = Some c.
Proof.
  induction cols as [|[n c0] rest IH]; simpl; intros Hnd Hin.
  - inversion Hin.
  - apply NoDup_cons in Hnd as [Hn Hnd].
    apply elem_of_cons in Hin as [[= <- <-]|Hin].
    + rewrite String.eqb_refl. reflexivity.
    + destruct (String.eqb n col) eqn:E; [|auto].
      apply string_eqb_eq in E as ->. exfalso. apply Hn.
      apply list_elem_of_fmap. exists (col, c). auto.
Qed.

Lemma lookup_col_is_Some col cols :
  col ∈ fst <$> cols -> is_Some (lookup_col col cols).
Proof.
  induction cols as [|[n c0] rest IH]; simpl; intros Hin.
  - inversion Hin.
  - destruct (String.eqb n col) eqn:E; [eauto|].
    apply elem_of_cons in Hin as [->|Hin]; [|auto].
    rewrite String.eqb_refl in E. discriminate.
Qed.

Lemma fmap_id_on {A} (f : A -> A) (l : list A) :
  (forall x, x ∈ l -> f x = x) -> f <$> l = l.
Proof.
  induction l as [|a l IH]; simpl; intros H; [done|].
  rewrite H by left. f_equal. apply IH. intros x Hx. apply H. by right.
Qed.

(** Under unique labels an assignment to an existing label rewrites that
    column in place. *)
Lemma assign_col_map col c cols :
  col ∈ fst <$> cols -> NoDup (fst <$> cols) ->
  assign_col col c cols =
  (fun nc => if bool_decide (nc.1 = col) then (nc.1, c) else nc) <$> cols.
Proof.
  induction cols as [|[n c0] rest IH]; simpl; intros Hin Hnd.
  - inversion Hin.
  - apply NoDup_cons in Hnd as [Hn Hnd].
    destruct (String.eqb n col) eqn:E.
    + apply string_eqb_eq in E as ->. rewrite bool_decide_eq_true_2 by done.
      f_equal. symmetry. apply fmap_id_on. intros [m d] Hi. simpl.
      rewrite bool_decide_eq_false_2; [done|].
      intros ->. apply Hn. apply list_elem_of_fmap. by exists (col, d).
    + assert (n <> col) by (intros ->; rewrite String.eqb_refl in E; discriminate).
      rewrite bool_decide_eq_false_2 by done. f_equal.
      apply IH; [|done]. apply elem_of_cons in Hin as [->|]; done.
Qed.

Lemma labels_fmap_snd (g : string -> column -> column) (cols : list (string * column)) :
  fst <$> ((fun nc : string * column => (nc.1, g nc.1 nc.2)) <$> cols) = fst <$> cols.
Proof. rewrite <- list_fmap_compose. apply list_fmap_ext. by intros i [] _. Qed.

Lemma fmap_ext_in {A B} (f g : A -> B) (l : list A) :
  (forall x, x ∈ l -> f x = g x) -> f <$> l = g <$> l.
Proof.
  induction l as [|a l IH]; simpl; intros H; [done|].
  rewrite H by left. f_equal. apply IH. intros x Hx. apply H. by right.
Qed.

Lemma frame_eta (f : DataFrame) : Frame (nrows f) (columns f) = f.
Proof. by destruct f. Qed.

Lemma labels_assign_col col c (cols : list (string * column)) :
  col ∈ fst <$> cols -> NoDup (fst <$> cols) ->
  fst <$> assign_col col c cols = fst <$> cols.
Proof.
  intros Hin Hnd. rewrite assign_col_map by done.
  rewrite <- list_fmap_compose. apply fmap_ext_in. intros [n d] _. simpl.
  by case_bool_decide.
Qed.

Lemma lookup_assign_col_ne col col' c (cols : list (string * column)) :
  col <> col' -> lookup_col col' (assign_col col c cols) = lookup_col col' cols.
Proof.
  intros Hne. induction cols as [|[n c0] rest IH]; simpl.
  - destruct (String.eqb col col') eqn:E; [|done].
    by apply string_eqb_eq in E.
  - destruct (String.eqb n col) eqn:E; simpl.
    + apply string_eqb_eq in E as ->.
      destruct (String.eqb col col') eqn:E'; [|done].
      by apply string_eqb_eq in E'.
    + destruct (String.eqb n col'); [done|apply IH].
Qed.

Lemma apply_cols_nil g f : apply_cols [] g f = f.
Proof.
  unfold apply_cols. rewrite fmap_id_on; [apply frame_eta|].
  by intros [n c] _.
Qed.

Lemma apply_cols_cons col cols g f c :
  NoDup (labels f) -> col ∉ cols -> lookup_col col (columns f) = Some c ->
  apply_cols cols g (Frame (nrows f) (assign_col col (g c) (columns f)))
  = apply_cols (col :: cols) g f.
Proof.
  intros Hnd Hnot Hc. unfold apply_cols. simpl. f_equal.
  assert (Hin : col ∈ fst <$> columns f).
  { apply list_elem_of_fmap. exists (col, c). split; [done|]. by apply lookup_col_elem. }
  rewrite assign_col_map by done. rewrite <- list_fmap_compose.
  apply fmap_ext_in. intros [n d] Hnd'. simpl.
  destruct (decide (n = col)) as [->|E].
  - rewrite (bool_decide_eq_true_2 (col = col)) by done. simpl.
    rewrite (bool_decide_eq_false_2 (col ∈ cols)) by done.
    rewrite (bool_decide_eq_true_2 (col ∈ col :: cols)) by left.
    apply (lookup_col_NoDup _ _ _ Hnd) in Hnd'. congruence.
  - rewrite (bool_decide_eq_false_2 (n = col)) by done. simpl.
    destruct (decide (n ∈ cols)) as [E1|E1].
    + rewrite (bool_decide_eq_true_2 (n ∈ cols)) by done.
      rewrite (bool_decide_eq_true_2 (n ∈ col :: cols)); [done|]. by right.
    + rewrite (bool_decide_eq_false_2 (n ∈ cols)) by done.
      rewrite (bool_decide_eq_false_2 (n ∈ col :: cols)); [done|].
      intros [?|?]%elem_of_cons; done.
Qed.

(** ** The heap *)

Lemma load_eq r h f : h !! r = Some f -> load r h = Some (f, h).
Proof. unfold load. by intros ->. Qed.

Lemma store_eq r f h f0 : h !! r = Some f0 -> store r f h = Some (tt, <[r := f]> h).
Proof.
  intros H. unfold store. apply lookup_lt_Some in H.
  by rewrite decide_True.
Qed.

Lemma lookup_store r f (h : heap) f0 : h !! r = Some f0 -> <[r := f]> h !! r = Some f.
Proof. intros H. apply list_lookup_insert_eq. by apply lookup_lt_Some in H. Qed.

Lemma getitem_eq r col h f c :
  h !! r = Some f -> lookup_col col (columns f) = Some c -> getitem r col h = Some (c, h).
Proof. intros Hf Hc. unfold getitem, bind. rewrite (load_eq _ _ _ Hf), Hc. done. Qed.

Lemma setitem_eq r col c h f :
  h !! r = Some f ->
  setitem r col c h = Some (tt, <[r := Frame (nrows f) (assign_col col c (columns f))]> h).
Proof.
  intros Hf. unfold setitem, bind. rewrite (load_eq _ _ _ Hf).
  by apply store_eq with f.
Qed.

(** A loop over distinct labels whose turns each rewrite their own column
    amounts to one simultaneous rewriting of these columns. *)
Section Loop.
Context {S : Type} (r : ref) (body : S -> string -> M S).
Context (P : column -> Prop) (g : column -> column) (upd : S -> string -> column -> S).

Hypothesis step : forall acc col h f c,
  h !! r = Some f -> lookup_col col (columns f) = Some c -> P c ->
  body acc col h
  = Some (upd acc col c, <[r := Frame (nrows f) (assign_col col (g c) (columns f))]> h).

Lemma for_each_columns cols : forall acc h f,
  h !! r = Some f -> NoDup (labels f) -> NoDup cols ->
  (forall col, col ∈ cols -> exists c, lookup_col col (columns f) = Some c /\ P c) ->
  for_each cols acc body h
  = Some (loop_result upd f cols acc, <[r := apply_cols cols g f]> h).
Proof.
  induction cols as [|col cols IH]; intros acc h f Hf Hnd Hcols Hall; cbn [for_each].
  - rewrite apply_cols_nil. unfold ret. by rewrite list_insert_id.
  - apply NoDup_cons in Hcols as [Hnot Hcols].
    destruct (Hall col) as (c & Hc & HP); [left|].
    unfold bind. rewrite (step _ _ _ _ _ Hf Hc HP).
    set (f1 := Frame (nrows f) (assign_col col (g c) (columns f))).
    assert (Hin : col ∈ fst <$> columns f).
    { apply list_elem_of_fmap. exists (col, c). split; [done|]. by apply lookup_col_elem. }
    assert (Hlook : forall col', col' ∈ cols ->
              lookup_col col' (columns f1) = lookup_col col' (columns f)).
    { intros col' Hin'. simpl. apply lookup_assign_col_ne. by intros ->. }
    rewrite (IH _ _ f1).
    + f_equal. f_equal.
      * unfold loop_result. simpl. rewrite Hc.
        generalize (upd acc col c). clear -Hlook.
        induction cols as [|x xs IHx]; intros a; simpl; [done|].
        rewrite Hlook by left. apply IHx. intros. apply Hlook. by right.
      * rewrite list_insert_insert_eq. f_equal. by apply apply_cols_cons.
    + by apply lookup_store with f.
    + unfold labels. simpl. by rewrite labels_assign_col.
    + done.
    + intros col' Hin'. rewrite Hlook by done. apply Hall. by right.
Qed.
End Loop.

(** ** [standardize_datetime_columns] rewrites the caller's frame *)

Lemma assign_col_same col c (cols : list (string * column)) :
  lookup_col col cols = Some c -> assign_col col c cols = cols.
Proof.
  induction cols as [|[n c0] rest IH]; simpl; [discriminate|].
  destruct (String.eqb n col) eqn:E.
  - by intros [= ->].
  - intros H. by rewrite IH.
Qed.

Lemma select_dtypes_NoDup kinds f : NoDup (labels f) -> NoDup (select_dtypes kinds f).
Proof.
  intros H. unfold select_dtypes, labels in *.
  induction (columns f) as [|[n c] rest IH]; simpl; [done|].
  apply NoDup_cons in H as [Hn H]. rewrite filter_cons. simpl.
  destruct (decide _); simpl; [|by apply IH].
  apply NoDup_cons. split; [|by apply IH].
  intros Hin. apply Hn. apply list_elem_of_fmap in Hin as (x & -> & Hx).
  apply list_elem_of_filter in Hx as [_ Hx]. apply list_elem_of_fmap. by exists x.
Qed.

Lemma select_dtypes_elem kinds f col :
  NoDup (labels f) -> col ∈ select_dtypes kinds f ->
  exists c, lookup_col col (columns f) = Some c
            /\ existsb (dtype_eqb (dtype_of c)) kinds = true.
Proof.
  intros Hnd Hin. unfold select_dtypes in Hin.
  apply list_elem_of_fmap in Hin as ([n c] & -> & Hin).
  apply list_elem_of_filter in Hin as [Hk Hin]. simpl in *.
  exists c. split; [|done]. by apply lookup_col_NoDup.
Qed.

Lemma select_dtypes_intro kinds f col c :
  (col, c) ∈ columns f -> existsb (dtype_eqb (dtype_of c)) kinds = true ->
  col ∈ select_dtypes kinds f.
Proof.
  intros Hin Hk. unfold select_dtypes. apply list_elem_of_fmap.
  exists (col, c). split; [done|]. by apply list_elem_of_filter.
Qed.

Lemma apply_cols_all cols g f :
  (forall n c, (n, c) ∈ columns f -> n ∈ cols \/ g c = c) ->
  apply_cols cols g f = Frame (nrows f) ((fun nc => (nc.1, g nc.2)) <$> columns f).
Proof.
  intros H. unfold apply_cols. f_equal. apply fmap_ext_in.
  intros [n c] Hin. simpl. case_bool_decide as E; [done|].
  destruct (H n c Hin) as [?|Hg]; [done|by rewrite Hg].
Qed.

Section Standardize.
Variable infer : date_reader.

Lemma parse_object_column_step r acc col h f c :
  h !! r = Some f -> lookup_col col (columns f) = Some c -> dtype_of c = dt_object ->
  parse_object_column infer r acc col h
  = Some (potential_of infer acc col c,
          <[r := Frame (nrows f) (assign_col col (parsed_column infer c) (columns f))]> h).
Proof.
  intros Hf Hc Hobj. destruct c as [vals| | |]; try discriminate.
  unfold parse_object_column, bind. rewrite (getitem_eq _ _ _ _ _ Hf Hc).
  unfold potential_of, parsed_column, detect.
  destruct (first_format datetime_formats vals) as [[fmt parsed]|].
  - by rewrite (setitem_eq _ _ _ _ _ Hf).
  - destruct (PrimFloat.leb _ _).
    + by rewrite (setitem_eq _ _ _ _ _ Hf).
    + unfold ret. rewrite app_nil_r, (assign_col_same _ _ _ Hc), frame_eta.
      by rewrite list_insert_id.
Qed.

Lemma format_datetime_column_step fmt r acc col h f c :
  h !! r = Some f -> lookup_col col (columns f) = Some c -> dtype_of c = dt_datetime64 ->
  format_datetime_column fmt r acc col h
  = Some (tt, <[r := Frame (nrows f) (assign_col col (formatted_column fmt c) (columns f))]> h).
Proof.
  intros Hf Hc Hdt. destruct c as [| | |vals]; try discriminate.
  unfold format_datetime_column, bind. rewrite (getitem_eq _ _ _ _ _ Hf Hc).
  by rewrite (setitem_eq _ _ _ _ _ Hf).
Qed.

Lemma potential_elem f cols acc col :
  col ∈ loop_result (potential_of infer) f cols acc ->
  col ∈ acc \/ exists vals, lookup_col col (columns f) = Some (ObjectCol vals)
                            /\ is_Some (detect infer vals).
Proof.
  revert acc. induction cols as [|x cols IH]; intros acc; simpl; [auto|].
  intros H. apply IH in H as [H|H]; [|auto].
  destruct (lookup_col x (columns f)) as [c|] eqn:E; [|auto].
  unfold potential_of in H. apply elem_of_app in H as [H|H]; [auto|].
  destruct c as [vals| | |]; try by inversion H.
  destruct (detect infer vals) eqn:D; [|by inversion H].
  apply list_elem_of_singleton in H as ->. right. exists vals. rewrite D. eauto.
Qed.

Lemma potential_intro f cols acc col vals :
  col ∈ cols -> lookup_col col (columns f) = Some (ObjectCol vals) ->
  is_Some (detect infer vals) ->
  col ∈ loop_result (potential_of infer) f cols acc.
Proof.
  intros Hin Hc [p Hp].
  assert (Hmono : forall cols acc, col ∈ acc -> col ∈ loop_result (potential_of infer) f cols acc).
  { clear. induction cols as [|x cols IH]; intros acc H; simpl; [done|].
    apply IH. destruct (lookup_col x (columns f)); [|done].
    unfold potential_of. apply elem_of_app. auto. }
  revert acc. induction cols as [|x cols IH]; intros acc; [by inversion Hin|].
  apply elem_of_cons in Hin as [->|Hin]; simpl.
  - apply Hmono. rewrite Hc. unfold potential_of. rewrite Hp.
    apply elem_of_app. right. left.
  - by apply IH.
Qed.

Lemma parsed_column_dtype c :
  dtype_of (parsed_column infer c) = dt_datetime64 ->
  dtype_of c = dt_datetime64
  \/ exists vals, c = ObjectCol vals /\ is_Some (detect infer vals).
Proof.
  destruct c as [vals| | |]; simpl; try discriminate; [|auto].
  destruct (detect infer vals) eqn:D; [|discriminate]. right. exists vals. eauto.
Qed.

Theorem standardize_datetime_columns_run r date_only h f :
  h !! r = Some f -> NoDup (labels f) ->
  standardize_datetime_columns infer r date_only h
  = Some (r, <[r := standardized infer date_only f]> h).
Proof.
  intros Hf Hnd. unfold standardize_datetime_columns, bind at 1.
  rewrite (load_eq _ _ _ Hf). unfold bind at 1.
  rewrite (for_each_columns r (parse_object_column infer r)
             (fun c => dtype_of c = dt_object) (parsed_column infer) (potential_of infer)
             (parse_object_column_step r) _ _ _ f Hf Hnd).
  2: by apply select_dtypes_NoDup.
  2: { intros col Hin. apply select_dtypes_elem in Hin as (c & Hc & Hk); [|done].
       exists c. split; [done|]. by destruct c. }
  set (ocols := select_dtypes [dt_object] f).
  set (potential := loop_result (potential_of infer) f ocols []).
  assert (Hf1 : apply_cols ocols (parsed_column infer) f
                = Frame (nrows f) ((fun nc => (nc.1, parsed_column infer nc.2)) <$> columns f)).
  { apply apply_cols_all. intros n c Hin. destruct c as [vals| | |]; auto.
    left. by apply select_dtypes_intro with (ObjectCol vals). }
  rewrite Hf1. set (f1 := Frame _ _).
  assert (Hnd1 : NoDup (labels f1)).
  { unfold labels, f1. simpl.
    by rewrite (labels_fmap_snd (fun _ c => parsed_column infer c)). }
  assert (Hlook1 : forall n c1, lookup_col n (columns f1) = Some c1 ->
            exists c, lookup_col n (columns f) = Some c /\ c1 = parsed_column infer c).
  { intros n c1 H1. apply lookup_col_elem in H1. unfold f1 in H1. simpl in H1.
    apply list_elem_of_fmap in H1 as ([m c] & [= -> ->] & Hin). simpl.
    exists c. split; [|done]. by apply lookup_col_NoDup. }
  unfold bind.
  set (fmt := if date_only then _ else _).
  rewrite (for_each_columns r (format_datetime_column fmt r)
             (fun c => dtype_of c = dt_datetime64) (formatted_column fmt)
             (fun _ _ _ => tt)
             (fun acc col h f c Hf Hc HP =>
                format_datetime_column_step fmt r acc col h f c Hf Hc HP)
             _ _ _ f1).
  - unfold ret. f_equal. f_equal. rewrite list_insert_insert_eq. f_equal.
    rewrite apply_cols_all.
    + unfold standardized, map_columns, standardized_column, f1. simpl.
      f_equal. rewrite <- list_fmap_compose. by apply fmap_ext_in.
    + intros n c1 Hin. destruct (dtype_of c1) eqn:D; try (right; by destruct c1).
      left. apply elem_of_remove_dups, elem_of_app.
      apply (lookup_col_NoDup _ _ _ Hnd1) in Hin.
      destruct (Hlook1 _ _ Hin) as (c & Hc & ->).
      apply parsed_column_dtype in D as [D|(vals & -> & Hd)].
      * left. apply select_dtypes_intro with c; [by apply lookup_col_elem|].
        by destruct c.
      * right. apply potential_intro with vals; [|done|done].
        apply select_dtypes_intro with (ObjectCol vals); [by apply lookup_col_elem|done].
  - by apply lookup_store with f.
  - done.
  - apply NoDup_remove_dups.
  - intros col Hin. apply elem_of_remove_dups, elem_of_app in Hin as [Hin|Hin].
    + apply select_dtypes_elem in Hin as (c & Hc & Hk); [|done].
      exists (parsed_column infer c). split.
      * apply lookup_col_NoDup; [done|]. unfold f1. simpl.
        apply list_elem_of_fmap. exists (col, c). split; [done|]. by apply lookup_col_elem.
      * by destruct c.
    + apply potential_elem in Hin as [Hin|(vals & Hc & [p Hp])]; [by inversion Hin|].
      exists (parsed_column infer (ObjectCol vals)). split.
      * apply lookup_col_NoDup; [done|]. unfold f1. simpl.
        apply list_elem_of_fmap. exists (col, ObjectCol vals). split; [done|].
        by apply lookup_col_elem.
      * simpl. by rewrite Hp.
Qed.

End Standardize.

(** ** The frames a fingerprint function leaves on the heap *)

Lemma lookup_snoc (h : list DataFrame) x : (h ++ [x]) !! length h = Some x.
Proof. by rewrite list_lookup_middle. Qed.

Lemma insert_snoc (h : list DataFrame) x y : <[length h := y]> (h ++ [x]) = h ++ [y].
Proof.
  rewrite insert_app_r_alt by lia. by rewrite Nat.sub_diag.
Qed.

Lemma strip_all_columns f :
  apply_cols (select_dtypes [dt_object] f) str_strip f
  = Frame (nrows f) ((fun nc => (nc.1, str_strip nc.2)) <$> columns f).
Proof.
  apply apply_cols_all. intros n c Hin. destruct c as [vals| | |]; auto.
  left. by apply select_dtypes_intro with (ObjectCol vals).
Qed.

Lemma round_all_columns f :
  apply_cols (select_dtypes [dt_float64; dt_int64] f) round6 f
  = Frame (nrows f) ((fun nc => (nc.1, round6 nc.2)) <$> columns f).
Proof.
  apply apply_cols_all. intros n c Hin. destruct c as [|vals|vals|]; auto.
  left. by apply select_dtypes_intro with (Float64Col vals).
Qed.

Section Run.
Variable infer : date_reader.

Theorem canonical_frame_run r h f :
  h !! r = Some f -> NoDup (labels f) ->
  canonical_frame infer r h = Some ((length h + 2)%nat, heap_after infer r h f).
Proof.
  intros Hf Hnd. unfold canonical_frame, bind at 1.
  rewrite (standardize_datetime_columns_run infer r false h f Hf Hnd).
  set (h1 := <[r := standardized infer false f]> h).
  assert (Hlen : length h1 = length h) by apply length_insert.
  assert (H1 : h1 !! r = Some (standardized infer false f)) by by apply lookup_store with f.
  unfold bind at 1. rewrite (load_eq _ _ _ H1).
  unfold bind at 1, alloc at 1. fold (reindexed infer f).
  unfold bind at 1. rewrite Hlen, <- Hlen, (load_eq _ _ _ (lookup_snoc h1 _)).
  unfold bind at 1, alloc at 1.
  set (h2 := h1 ++ [reindexed infer f]).
  assert (H2 : (h2 ++ [reindexed infer f]) !! length h2 = Some (reindexed infer f))
    by apply lookup_snoc.
  unfold bind at 1. rewrite (load_eq _ _ _ H2).
  unfold bind at 1. rewrite (store_eq _ _ _ _ H2), insert_snoc, strip_all_columns.
  set (f3 := Frame _ _).
  unfold bind at 1. rewrite (load_eq _ _ _ (lookup_snoc h2 f3)).
  unfold bind at 1. rewrite (store_eq _ _ _ _ (lookup_snoc h2 f3)), insert_snoc.
  rewrite round_all_columns.
  set (f4 := Frame _ _).
  unfold bind at 1. rewrite (load_eq _ _ _ (lookup_snoc h2 f4)).
  unfold alloc.
  assert (Hf4 : f4 = trimmed_rounded infer f).
  { unfold f4, f3, trimmed_rounded, map_columns. simpl. f_equal.
    rewrite <- list_fmap_compose. by apply fmap_ext_in. }
  rewrite Hf4. f_equal. f_equal.
  - rewrite length_app. unfold h2. rewrite length_app. simpl. lia.
  - unfold heap_after, h2, canonical. fold h1. by rewrite <- !app_assoc.
Qed.

Lemma heap_after_last r h f :
  h !! r = Some f ->
  heap_after infer r h f !! (length h + 2)%nat = Some (canonical infer f).
Proof.
  intros Hf. unfold heap_after.
  rewrite lookup_app_r; rewrite length_insert; [|lia].
  by replace (length h + 2 - length h)%nat with 2%nat by lia.
Qed.

Lemma heap_after_caller r h f :
  h !! r = Some f ->
  heap_after infer r h f !! r = Some (standardized infer false f).
Proof.
  intros Hf. unfold heap_after.
  rewrite lookup_app_l; [by apply lookup_store with f|].
  rewrite length_insert. by apply lookup_lt_Some in Hf.
Qed.

Theorem generate_order_dependent_fingerprint_run r h f :
  h !! r = Some f -> NoDup (labels f) ->
  generate_order_dependent_fingerprint infer r h
  = Some (sha256_hex (to_csv (canonical infer f)), heap_after infer r h f).
Proof.
  intros Hf Hnd. unfold generate_order_dependent_fingerprint, bind at 1.
  rewrite (canonical_frame_run r h f Hf Hnd).
  unfold bind. by rewrite (load_eq _ _ _ (heap_after_last r h f Hf)).
Qed.

Theorem generate_order_independent_fingerprint_run r h f rows :
  h !! r = Some f -> NoDup (labels f) ->
  rows_of (canonical infer f) = Some rows ->
  generate_order_independent_fingerprint infer r h
  = Some (sha256_hex (concat_str (sorted (items_of (canonical infer f) rows))),
          heap_after infer r h f).
Proof.
  intros Hf Hnd Hrows. unfold generate_order_independent_fingerprint, bind at 1.
  rewrite (canonical_frame_run r h f Hf Hnd).
  unfold bind at 1. rewrite (load_eq _ _ _ (heap_after_last r h f Hf)).
  unfold bind, row_strings_of, items_of, row_digest.
  destruct (nrows (canonical infer f)), (columns (canonical infer f));
    rewrite ?Hrows; simpl; by rewrite <- ?list_fmap_compose.
Qed.

End Run.

(** ** The order of [sorted] *)

Lemma ascii_compare_trans_le a b c :
  Ascii.compare a b <> Gt -> Ascii.compare b c <> Gt -> Ascii.compare a c <> Gt.
Proof.
  unfold Ascii.compare. rewrite !N.compare_gt_iff. lia.
Qed.

Lemma ascii_compare_lt_le a b c :
  Ascii.compare a b = Lt -> Ascii.compare b c <> Gt -> Ascii.compare a c = Lt.
Proof.
  unfold Ascii.compare. rewrite !N.compare_lt_iff, N.compare_gt_iff. lia.
Qed.

Lemma ascii_compare_le_lt a b c :
  Ascii.compare a b <> Gt -> Ascii.compare b c = Lt -> Ascii.compare a c = Lt.
Proof.
  unfold Ascii.compare. rewrite !N.compare_lt_iff, N.compare_gt_iff. lia.
Qed.

Lemma string_compare_trans_le a : forall b c,
  String.compare a b <> Gt -> String.compare b c <> Gt -> String.compare a c <> Gt.
Proof.
  induction a as [|x a IH]; intros [|y b] [|z c]; simpl; try congruence.
  destruct (Ascii.compare x y) eqn:Exy; [|clear IH|congruence];
    (destruct (Ascii.compare y z) eqn:Eyz; [| |congruence]); intros H1 H2.
  - apply Ascii.compare_eq_iff in Exy, Eyz. subst.
    assert (E : Ascii.compare z z = Eq) by (unfold Ascii.compare; apply N.compare_refl).
    rewrite E. by apply IH with b.
  - apply Ascii.compare_eq_iff in Exy. subst. by rewrite Eyz.
  - apply Ascii.compare_eq_iff in Eyz. subst. by rewrite Exy.
  - by rewrite (ascii_compare_lt_le x y z Exy) by congruence.
Qed.

Lemma str_le_compare a b : str_le a b <-> String.compare a b <> Gt.
Proof.
  unfold str_le, String.leb. destruct (String.compare a b); split; congruence.
Qed.

Global Instance str_le_trans : Transitive str_le.
Proof.
  intros a b c. rewrite !str_le_compare. apply string_compare_trans_le.
Qed.

Global Instance str_le_total : Total str_le.
Proof. intros a b. apply String.leb_total. Qed.

Global Instance str_le_antisym : AntiSymm eq str_le.
Proof. intros a b. apply String.leb_antisym. Qed.

(** [sorted] gives the one sorted arrangement of its argument. *)
Lemma sorted_Sorted l : Sorted str_le (sorted l).
Proof. apply Sorted_merge_sort, _. Qed.

Lemma sorted_Permutation l : sorted l ≡ₚ l.
Proof. apply merge_sort_Permutation. Qed.

Lemma Sorted_is_sorted l l' : l' ≡ₚ l -> Sorted str_le l' -> l' = sorted l.
Proof.
  intros Hp Hs. apply (Sorted_unique str_le); [done|apply sorted_Sorted|].
  by rewrite sorted_Permutation.
Qed.

Lemma sorted_perm l1 l2 : l1 ≡ₚ l2 -> sorted l1 = sorted l2.
Proof.
  intros Hp. apply Sorted_is_sorted; [|apply sorted_Sorted].
  by rewrite sorted_Permutation.
Qed.

Lemma standardized_column_ext infer infer' b c :
  agree_col infer infer' c -> standardized_column infer b c = standardized_column infer' b c.
Proof.
  destruct c as [vals| | |]; try done. simpl. intros H.
  unfold standardized_column, parsed_column, detect.
  replace (to_datetime_coerce infer' vals) with (to_datetime_coerce infer vals); [done|].
  unfold to_datetime_coerce. apply fmap_ext_in. intros [s|] Hin; [|done].
  simpl. by apply (proj1 (Forall_forall _ _) H (Some s)).
Qed.

Lemma standardized_ext infer infer' b df :
  agree_on infer infer' df -> standardized infer b df = standardized infer' b df.
Proof.
  intros H. unfold standardized, map_columns. f_equal. apply fmap_ext_in.
  intros [n c] Hin. simpl. f_equal. apply standardized_column_ext.
  by apply (proj1 (Forall_forall _ _) H (n, c)).
Qed.

Lemma canonical_ext infer infer' df :
  agree_on infer infer' df -> canonical infer df = canonical infer' df.
Proof.
  intros H. unfold canonical, trimmed_rounded, reindexed.
  by rewrite (standardized_ext infer infer' false df H).
Qed.

Lemma heap_after_ext infer infer' r h df :
  agree_on infer infer' df -> heap_after infer r h df = heap_after infer' r h df.
Proof.
  intros H. unfold heap_after, canonical, trimmed_rounded, reindexed.
  by rewrite (standardized_ext infer infer' false df H).
Qed.

(** A call on a table with unique labels. *)
Lemma call_order_dependent infer df :
  NoDup (labels df) ->
  call (generate_order_dependent_fingerprint infer) df
  = Some (sha256_hex (to_csv (canonical infer df)), heap_after infer 0 [df] df).
Proof. intros H. by apply generate_order_dependent_fingerprint_run. Qed.

Lemma call_order_independent infer df rows :
  NoDup (labels df) -> rows_of (canonical infer df) = Some rows ->
  call (generate_order_independent_fingerprint infer) df
  = Some (sha256_hex (concat_str (sorted (items_of (canonical infer df) rows))),
          heap_after infer 0 [df] df).
Proof.
  intros H Hr. unfold call.
  by rewrite (generate_order_independent_fingerprint_run infer 0 [df] df rows).
Qed.

Lemma items_of_rows f rows : (0 < nrows f)%nat -> items_of f rows = row_digest <$> rows.
Proof. unfold items_of. destruct (nrows f); [lia|done]. Qed.

Lemma items_of_no_columns f rows : columns f = [] -> items_of f rows = row_digest <$> rows.
Proof. unfold items_of. intros ->. by destruct (nrows f). Qed.

Lemma items_of_labels f rows :
  nrows f = 0%nat -> columns f <> [] -> items_of f rows = labels f.
Proof. unfold items_of. intros ->. by destruct (columns f). Qed.

(** ** The columns and the rows of the canonical frame *)

Lemma lookup_col_fmap (g : column -> column) l (cols : list (string * column)) :
  lookup_col l ((fun nc => (nc.1, g nc.2)) <$> cols) = g <$> lookup_col l cols.
Proof.
  induction cols as [|[n c] rest IH]; simpl; [done|].
  by destruct (String.eqb n l).
Qed.

Lemma lookup_col_labels l (cols : list (string * column)) :
  l ∈ (fst <$> cols) -> is_Some (lookup_col l cols).
Proof.
  induction cols as [|[n c] rest IH]; simpl.
  - by intros ?%elem_of_nil.
  - intros [->|H]%elem_of_cons.
    + by rewrite String.eqb_refl.
    + destruct (String.eqb n l); [done|by apply IH].
Qed.

Lemma lookup_col_Forall (P : string * column -> Prop) l c (cols : list (string * column)) :
  Forall P cols -> lookup_col l cols = Some c -> P (l, c).
Proof.
  induction 1 as [|[n c0] rest HP _ IH]; simpl; [done|].
  destruct (String.eqb n l) eqn:E.
  - apply String.eqb_eq in E. by intros [= <-]; subst.
  - done.
Qed.

Section CanonicalColumns.
Variable infer : date_reader.

Lemma canonical_columns df :
  canonical infer df
  = Frame (nrows df)
      ((fun l => (l, ObjectCol (Some <$> texts_of infer df l))) <$> sorted (labels df)).
Proof.
  unfold canonical, fillna_astype_str, trimmed_rounded, map_columns, reindexed, reindex,
    standardized, map_columns, labels. simpl. f_equal.
  rewrite <- !list_fmap_compose.
  assert (E : fst ∘ (fun nc : string * column => (nc.1, standardized_column infer false nc.2))
              <$> columns df = fst <$> columns df)
    by by apply fmap_ext_in; intros [? ?] _.
  rewrite E. apply fmap_ext_in. intros l _. simpl.
  unfold texts_of, column_of. by rewrite lookup_col_fmap.
Qed.

Lemma texts_of_lookup df l c :
  lookup_col l (columns df) = Some c -> texts_of infer df l = canonical_texts infer c.
Proof. intros H. unfold texts_of, column_of, canonical_texts. by rewrite H. Qed.

(** Every step keeps one value per row. *)
Lemma length_to_datetime_format fmt vals parsed :
  to_datetime_format fmt vals = Some parsed -> length parsed = length vals.
Proof. intros H. symmetry. by apply length_mapM in H. Qed.

Lemma length_first_format fmts vals fmt parsed :
  first_format fmts vals = Some (fmt, parsed) -> length parsed = length vals.
Proof.
  induction fmts as [|f rest IH]; simpl; [done|].
  destruct (to_datetime_format f vals) as [p|] eqn:E; [|done].
  intros [= <- <-]. by apply length_to_datetime_format with f.
Qed.

Lemma length_detect vals parsed :
  detect infer vals = Some parsed -> length parsed = length vals.
Proof.
  unfold detect. destruct (first_format _ _) as [[fmt p]|] eqn:E.
  - intros [= <-]. by apply length_first_format in E.
  - destruct (PrimFloat.leb _ _); [|done]. intros [= <-].
    unfold to_datetime_coerce. by rewrite length_fmap.
Qed.

Lemma length_canonical_texts c : length (canonical_texts infer c) = col_length c.
Proof.
  unfold canonical_texts, standardized_column, parsed_column.
  destruct c as [vals|vals|vals|vals]; simpl; rewrite ?length_fmap; try done.
  destruct (detect infer vals) as [parsed|] eqn:E; simpl; rewrite ?length_fmap; [|done].
  by apply length_detect.
Qed.

Lemma length_texts_of df l :
  wf df -> l ∈ labels df -> length (texts_of infer df l) = nrows df.
Proof.
  intros [_ Hlen] Hl. destruct (lookup_col_labels l (columns df) Hl) as [c Hc].
  rewrite (texts_of_lookup df l c Hc), length_canonical_texts.
  apply (lookup_col_Forall _ l c _ Hlen Hc).
Qed.

End CanonicalColumns.

Lemma canonical_text_frame infer df : wf df -> text_frame (canonical infer df).
Proof.
  intros Hwf. rewrite canonical_columns. unfold text_frame. simpl.
  apply Forall_fmap, Forall_forall. intros l Hl. simpl.
  exists (texts_of infer df l). split; [done|].
  apply length_texts_of; [done|]. by rewrite <- (sorted_Permutation (labels df)).
Qed.

Lemma texts_text (ts : list string) : texts (ObjectCol (Some <$> ts)) = ts.
Proof. simpl. rewrite <- list_fmap_compose. apply list_fmap_id. Qed.

Lemma row_values_text_frame f i :
  text_frame f -> (i < nrows f)%nat -> row_values f i = Some (csv_row f i).
Proof.
  unfold text_frame, row_values, csv_row. intros H Hi.
  induction H as [|[n c] rest Hc _ IH]; [done|].
  destruct Hc as (ts & Hc & Hlen). simpl in Hc. subst c.
  destruct (lookup_lt_is_Some_2 ts i) as [t Ht]; [lia|].
  rewrite fmap_cons. cbn [snd]. rewrite texts_text, Ht.
  change (mapM ?g ((n, ObjectCol (Some <$> ts)) :: rest))
    with (x ← g (n, ObjectCol (Some <$> ts)) ; k ← mapM g rest ; mret (x :: k)).
  rewrite IH. cbn [snd text_at]. by rewrite list_lookup_fmap, Ht.
Qed.

Lemma rows_of_text_frame f :
  text_frame f -> rows_of f = Some (csv_row f <$> seq 0 (nrows f)).
Proof.
  intros H. unfold rows_of. apply mapM_Some_2.
  apply Forall2_fmap_r, Forall_Forall2_diag, Forall_forall.
  intros i Hi%elem_of_seq. apply row_values_text_frame; [done|lia].
Qed.

(** The rows are the records of the CSV output, field by field. *)
Lemma rows_of_canonical infer df :
  wf df ->
  rows_of (canonical infer df)
  = Some (csv_row (canonical infer df) <$> seq 0 (nrows df)).
Proof.
  intros H. rewrite (rows_of_text_frame _ (canonical_text_frame infer df H)).
  by rewrite canonical_columns.
Qed.

(** ** Rows taken in another order *)

Lemma take_list_fmap {A B} (g : A -> B) idx (l : list A) :
  take_list idx (g <$> l) = g <$> take_list idx l.
Proof.
  unfold take_list. induction idx as [|i idx IH]; simpl; [done|].
  rewrite list_lookup_fmap. destruct (l !! i); simpl; [f_equal|]; exact IH.
Qed.

Lemma take_list_seq {A} (l : list A) : take_list (seq 0 (length l)) l = l.
Proof.
  unfold take_list. induction l as [|x l IH] using rev_ind; [done|].
  rewrite length_app. simpl. rewrite Nat.add_1_r, seq_S, omap_app. simpl.
  rewrite list_lookup_middle by done. simpl. f_equal.
  rewrite <- IH at 2. apply list_omap_ext.
  apply Forall2_same_length_lookup_2; [done|]. intros i a b Ha Hb.
  assert (a = b) by congruence. subst b. apply lookup_seq in Ha as [-> Hi].
  simpl. by rewrite lookup_app_l.
Qed.

Lemma take_list_Permutation {A} idx (l : list A) :
  idx ≡ₚ seq 0 (length l) -> take_list idx l ≡ₚ l.
Proof.
  intros H. rewrite <- (take_list_seq l) at 2. unfold take_list. by rewrite H.
Qed.

Lemma length_take_list {A} idx (l : list A) :
  idx ≡ₚ seq 0 (length l) -> length (take_list idx l) = length l.
Proof. intros H. by rewrite (take_list_Permutation idx l H). Qed.

Lemma take_list_Forall2 {A B} (P : A -> B -> Prop) idx l k :
  Forall2 P l k -> Forall2 P (take_list idx l) (take_list idx k).
Proof.
  intros H. unfold take_list. induction idx as [|i idx IH]; simpl; [constructor|].
  destruct (l !! i) as [x|] eqn:El.
  - destruct (Forall2_lookup_l _ _ _ _ _ H El) as (y & -> & Hxy). by constructor.
  - destruct (k !! i) as [y|] eqn:Ek; [|done].
    destruct (Forall2_lookup_r _ _ _ _ _ H Ek) as (x & Hx & _). congruence.
Qed.

Lemma mapM_take_list {A B} (g : A -> option B) idx (l : list A) :
  idx ≡ₚ seq 0 (length l) ->
  mapM g (take_list idx l) = take_list idx <$> mapM g l.
Proof.
  intros Hp. destruct (mapM g l) as [k|] eqn:E; simpl.
  - apply mapM_Some_2, take_list_Forall2. by apply mapM_Some_1.
  - apply mapM_None_2. apply mapM_None_1 in E.
    by rewrite (take_list_Permutation idx l Hp).
Qed.

Lemma to_datetime_format_take fmt idx vals :
  idx ≡ₚ seq 0 (length vals) ->
  to_datetime_format fmt (take_list idx vals)
  = take_list idx <$> to_datetime_format fmt vals.
Proof. apply mapM_take_list. Qed.

Lemma first_format_take fmts idx vals :
  idx ≡ₚ seq 0 (length vals) ->
  first_format fmts (take_list idx vals)
  = (fun fp => (fp.1, take_list idx fp.2)) <$> first_format fmts vals.
Proof.
  intros Hp. induction fmts as [|fmt rest IH]; simpl; [done|].
  rewrite (to_datetime_format_take fmt idx vals Hp).
  by destruct (to_datetime_format fmt vals).
Qed.

Lemma notnull_mean_Permutation p q : p ≡ₚ q -> notnull_mean p = notnull_mean q.
Proof. intros H. unfold notnull_mean. by rewrite H. Qed.

Section TakeRows.
Variable infer : date_reader.

Lemma detect_take idx vals :
  idx ≡ₚ seq 0 (length vals) -> order_blind_col infer (ObjectCol vals) ->
  detect infer (take_list idx vals) = take_list idx <$> detect infer vals.
Proof.
  intros Hp Hblind. unfold detect. rewrite (first_format_take _ idx vals Hp).
  destruct (first_format datetime_formats vals) as [[fmt parsed]|] eqn:Ef; simpl; [done|].
  assert (Hperm : take_list idx vals ≡ₚ vals) by by apply take_list_Permutation.
  assert (E : to_datetime_coerce infer (take_list idx vals)
              = take_list idx (to_datetime_coerce infer vals)).
  { unfold to_datetime_coerce. rewrite take_list_fmap. apply fmap_ext_in.
    intros [s|] Hin; simpl; [|done]. apply Hblind; [done|done|].
    by rewrite <- Hperm. }
  rewrite E.
  assert (Hq : idx ≡ₚ seq 0 (length (to_datetime_coerce infer vals)))
    by (unfold to_datetime_coerce; by rewrite length_fmap).
  rewrite (notnull_mean_Permutation _ _ (take_list_Permutation idx _ Hq)).
  by destruct (PrimFloat.leb _ _).
Qed.

(** The canonical text of a cell depends on its column through the
    decision to read it as dates, which the order of the rows does not
    change when the reader does not look at it. *)
Lemma canonical_texts_take idx c :
  idx ≡ₚ seq 0 (col_length c) -> order_blind_col infer c ->
  canonical_texts infer (take_col idx c) = take_list idx (canonical_texts infer c).
Proof.
  intros Hp Hblind. unfold canonical_texts, standardized_column, parsed_column.
  destruct c as [vals|vals|vals|vals]; simpl in Hp |- *;
    rewrite <- ?take_list_fmap; try done.
  rewrite (detect_take idx vals Hp Hblind).
  destruct (detect infer vals) as [parsed|]; simpl; by rewrite <- ?take_list_fmap.
Qed.

End TakeRows.

Lemma labels_take_rows idx df : labels (take_rows idx df) = labels df.
Proof.
  unfold labels, take_rows. simpl. rewrite <- list_fmap_compose.
  by apply fmap_ext_in; intros [? ?] _.
Qed.

Lemma length_take_col idx c :
  idx ≡ₚ seq 0 (col_length c) -> col_length (take_col idx c) = col_length c.
Proof. destruct c; simpl; apply length_take_list. Qed.

Lemma wf_take_rows idx df :
  wf df -> idx ≡ₚ seq 0 (nrows df) -> wf (take_rows idx df).
Proof.
  intros [Hnd Hlen] Hp. split; [by rewrite labels_take_rows|].
  unfold take_rows. simpl. apply Forall_fmap.
  eapply Forall_impl; [exact Hlen|]. intros [n c] Hc. simpl in *.
  rewrite length_take_col by by rewrite Hc.
  rewrite Hc. apply Permutation_length in Hp. by rewrite Hp, length_seq.
Qed.

Lemma take_list_lookup {A} idx (l : list A) j i :
  idx ≡ₚ seq 0 (length l) -> idx !! j = Some i ->
  take_list idx l !! j = l !! i.
Proof.
  intros Hp. assert (Hin : Forall (fun i => (i < length l)%nat) idx).
  { rewrite Hp. apply Forall_forall. intros k Hk%elem_of_seq. lia. }
  clear Hp. revert j. unfold take_list.
  induction Hin as [|i0 idx Hi0 _ IH]; intros j; [done|].
  destruct (lookup_lt_is_Some_2 l i0 Hi0) as [x Hx]. simpl. rewrite Hx.
  destruct j as [|j]; simpl.
  - intros [= <-]. done.
  - apply IH.
Qed.

Lemma fmap_seq_lookup {A} (g f : nat -> A) (idx : list nat) :
  (forall j i, idx !! j = Some i -> g j = f i) ->
  g <$> seq 0 (length idx) = f <$> idx.
Proof.
  intros H. apply list_eq. intros j. rewrite !list_lookup_fmap.
  destruct (idx !! j) as [i|] eqn:E; simpl.
  - rewrite lookup_seq_lt by by apply lookup_lt_Some in E. simpl. f_equal. by apply H.
  - rewrite lookup_seq_ge; [done|]. by apply lookup_ge_None.
Qed.

(** The canonical rows of the table with its rows in the order [idx] are the
    canonical rows of the table, in that order. *)
Theorem canonical_rows_take infer idx df :
  wf df -> idx ≡ₚ seq 0 (nrows df) -> order_blind infer df ->
  csv_row (canonical infer (take_rows idx df)) <$> seq 0 (length idx)
  = csv_row (canonical infer df) <$> idx.
Proof.
  intros Hwf Hp Hblind. apply fmap_seq_lookup. intros j i Hji.
  rewrite !canonical_columns, labels_take_rows. unfold csv_row. simpl.
  rewrite <- !list_fmap_compose. apply fmap_ext_in. intros l Hl. simpl.
  change (default EmptyString <$> (Some <$> ?ts)) with (texts (ObjectCol (Some <$> ts))).
  rewrite !texts_text. f_equal.
  assert (Hl' : l ∈ fst <$> columns df) by by rewrite <- (sorted_Permutation (labels df)).
  destruct (lookup_col_labels l _ Hl') as [c Hc].
  assert (Hlen : col_length c = nrows df)
    by apply (lookup_col_Forall _ l c _ (proj2 Hwf) Hc).
  rewrite (texts_of_lookup infer df l c Hc).
  assert (Hc' : lookup_col l (columns (take_rows idx df)) = Some (take_col idx c)).
  { unfold take_rows. simpl. by rewrite (lookup_col_fmap (take_col idx)), Hc. }
  rewrite (texts_of_lookup infer _ l _ Hc').
  rewrite canonical_texts_take;
    [|by rewrite Hlen
     |exact (proj1 (Forall_forall _ _) Hblind (l, c) (lookup_col_elem _ _ _ Hc))].
  apply take_list_lookup; [|done]. by rewrite length_canonical_texts, Hlen.
Qed.

(** ** The fingerprints *)

Ltac agree_tac :=
  unfold agree_on; simpl;
  repeat (apply Forall_cons; split); try apply Forall_nil; simpl; auto.

Ltac nodup_tac := by apply (bool_decide_unpack _); vm_compute.

(** C1 (as the code has it): for the table of Scenario A the order-dependent
    fingerprint is the SHA-256 digest of the CSV text of the canonical table,
    whose columns are in sorted order [a, b]: the text is [x,1] and [y,2],
    each followed by a line feed, whenever the free-form date reader reads
    neither [x] nor [y] as a date. *)
Theorem scenario_A_order_dependent_fingerprint (infer : date_reader) :
  infer [Some "x"; Some "y"] "x" = None -> infer [Some "x"; Some "y"] "y" = None ->
  to_csv (canonical infer scenario_A) = scenario_A_csv
  /\ fingerprint_of (call (generate_order_dependent_fingerprint infer) scenario_A)
     = Some (sha256_hex scenario_A_csv)
  /\ sha256_hex scenario_A_csv
     = "34d8d1f3f0ac10b451df684b5989b0ba3c56c815fccf1343d605ec2598baf57a".
Proof.
  intros Hx Hy.
  assert (E : canonical infer scenario_A = canonical no_dates scenario_A)
    by (apply canonical_ext; agree_tac).
  rewrite call_order_dependent by nodup_tac. rewrite E.
  repeat split; vm_compute; reflexivity.
Qed.

Lemma scenario_A_order_dependent_fingerprint_witness :
  to_csv (canonical no_dates scenario_A) = scenario_A_csv
  /\ fingerprint_of (call (generate_order_dependent_fingerprint no_dates) scenario_A)
     = Some (sha256_hex scenario_A_csv)
  /\ sha256_hex scenario_A_csv
     = "34d8d1f3f0ac10b451df684b5989b0ba3c56c815fccf1343d605ec2598baf57a".
Proof. apply (scenario_A_order_dependent_fingerprint no_dates); reflexivity. Defined.

(** C1 (as stated): the fingerprint of Scenario A is not the digest of the
    text with the fields in the order [1,x] and [2,y]. *)
Lemma scenario_A_described_digest_differs :
  fingerprint_of (call (generate_order_dependent_fingerprint no_dates) scenario_A)
  = Some "34d8d1f3f0ac10b451df684b5989b0ba3c56c815fccf1343d605ec2598baf57a"
  /\ sha256_hex scenario_A_described
     = "ddaab98e9f07945228d3126a825b824d403b14ae4af52f3bb731a5c680923a6b"
  /\ fingerprint_of (call (generate_order_dependent_fingerprint no_dates) scenario_A)
     <> Some (sha256_hex scenario_A_described).
Proof. vm_compute. repeat split. discriminate. Qed.

(** The fingerprint the order-independent function returns on a table with
    one value per row in every column. *)
Lemma order_independent_fingerprint_value infer df :
  wf df ->
  call (generate_order_independent_fingerprint infer) df
  = Some (sha256_hex (concat_str (sorted
            (items_of (canonical infer df)
                      (csv_row (canonical infer df) <$> seq 0 (nrows df))))),
          heap_after infer 0 [df] df).
Proof.
  intros Hwf.
  exact (call_order_independent infer df _ (proj1 Hwf) (rows_of_canonical infer df Hwf)).
Qed.

(** The same on a table with a row, or without columns: the items are the
    digests of the rows. *)
Lemma order_independent_fingerprint_rows infer df :
  wf df -> (0 < nrows df)%nat \/ columns df = [] ->
  call (generate_order_independent_fingerprint infer) df
  = Some (sha256_hex (concat_str (sorted
            (row_digest <$> (csv_row (canonical infer df) <$> seq 0 (nrows df))))),
          heap_after infer 0 [df] df).
Proof.
  intros Hwf Hrows. rewrite (order_independent_fingerprint_value infer df Hwf).
  assert (E : forall rows, items_of (canonical infer df) rows = row_digest <$> rows);
    [|by rewrite E].
  intros rows. destruct Hrows as [Hn|Hc].
  - apply items_of_rows. by rewrite canonical_columns.
  - apply items_of_no_columns. rewrite canonical_columns. cbn [columns].
    assert (El : labels df = []) by (unfold labels; by rewrite Hc).
    rewrite El. reflexivity.
Qed.

Lemma sorted_nil_inv l : sorted l = [] -> l = [].
Proof.
  intros H. apply Permutation_nil_r. rewrite <- H. symmetry. apply sorted_Permutation.
Qed.

(** The items of the canonical frame of a table. *)
Lemma items_of_canonical infer df rows :
  items_of (canonical infer df) rows
  = match nrows df, labels df with
    | O, _ :: _ => sorted (labels df)
    | _, _ => row_digest <$> rows
    end.
Proof.
  rewrite canonical_columns. unfold items_of. cbn [nrows columns].
  destruct (nrows df); [|by destruct (_ <$> _)].
  destruct (labels df) as [|l ls] eqn:El.
  - assert (E : sorted (@nil string) = []) by reflexivity. by rewrite E.
  - destruct (sorted (l :: ls)) as [|x xs] eqn:Es.
    + by apply sorted_nil_inv in Es.
    + unfold labels. cbn [columns]. rewrite <- list_fmap_compose.
      rewrite <- (list_fmap_id (x :: xs)) at 2. by apply fmap_ext_in.
Qed.

(** For every table and every arrangement [idx] of its rows, the
    order-independent fingerprint of the rearranged table is the one of the
    table, and the function returns on both, when the free-form reading of
    a column that no explicit format parses does not depend on the order of
    its values. *)
Theorem order_independent_fingerprint_row_permutation
        (infer : date_reader) (df : DataFrame) (idx : list nat) :
  wf df -> idx ≡ₚ seq 0 (nrows df) -> order_blind infer df ->
  is_Some (call (generate_order_independent_fingerprint infer) df)
  /\ fingerprint_of (call (generate_order_independent_fingerprint infer) (take_rows idx df))
     = fingerprint_of (call (generate_order_independent_fingerprint infer) df).
Proof.
  intros Hwf Hp Hblind.
  rewrite (order_independent_fingerprint_value infer df Hwf).
  rewrite (order_independent_fingerprint_value infer _ (wf_take_rows idx df Hwf Hp)).
  split; [done|]. simpl. do 3 f_equal.
  rewrite !items_of_canonical, labels_take_rows.
  change (nrows (take_rows idx df)) with (length idx).
  assert (Hlen : length idx = nrows df).
  { apply Permutation_length in Hp. by rewrite length_seq in Hp. }
  rewrite (canonical_rows_take infer idx df Hwf Hp Hblind). rewrite Hlen.
  destruct (nrows df), (labels df); try done; apply sorted_perm; by rewrite Hp.
Qed.

Lemma order_independent_fingerprint_row_permutation_witness :
  is_Some (call (generate_order_independent_fingerprint no_dates) three_rows)
  /\ fingerprint_of (call (generate_order_independent_fingerprint no_dates)
                          (take_rows [2; 0; 1]%nat three_rows))
     = fingerprint_of (call (generate_order_independent_fingerprint no_dates) three_rows).
Proof.
  apply (order_independent_fingerprint_row_permutation no_dates three_rows [2; 0; 1]%nat).
  - split; [nodup_tac|]. repeat constructor.
  - simpl. etrans; [|apply perm_skip, perm_swap]. etrans; [|apply perm_swap].
    reflexivity.
  - repeat constructor.
Defined.

(** C2: the function does not keep the fingerprint under every
    rearrangement of the rows.  With a reader that takes the format from the
    first value of the column, as pandas does from 2.0 on, moving the last
    row of the table of mixed dates to the front changes the fingerprint,
    against the order-independence the function is documented to have.  In
    the table the first value is
    written year-month-day, five of the six values are read and the column
    becomes a column of timestamps; in the rearranged table the first value
    is written month/day/year, it alone is read and the column stays
    text. *)
Lemma rearranged_rows_other_fingerprint :
  last_row_first ≡ₚ seq 0 (nrows mixed_dates)
  /\ rows_of (canonical first_value_dates mixed_dates)
     = Some [["2023-01-05 00:00:00"]; ["2023-01-06 00:00:00"]; ["2023-01-07 00:00:00"];
             ["2023-01-08 00:00:00"]; ["2023-01-09 00:00:00"]; [""]]
  /\ rows_of (canonical first_value_dates (take_rows last_row_first mixed_dates))
     = Some [["01/10/2023"]; ["2023-01-05"]; ["2023-01-06"]; ["2023-01-07"];
             ["2023-01-08"]; ["2023-01-09"]]
  /\ fingerprint_of (call (generate_order_independent_fingerprint first_value_dates)
                          mixed_dates)
     = Some "95cba3f4257fec2dbfb21c593acc16e3a48a61f529bd5765596ad92a0b4f8e32"
  /\ fingerprint_of (call (generate_order_independent_fingerprint first_value_dates)
                          (take_rows last_row_first mixed_dates))
     = Some "78bc86f972c2ff36996e677153fa45e318dc3a27698c3f38587ab42925a372e7"
  /\ fingerprint_of (call (generate_order_independent_fingerprint first_value_dates)
                          (take_rows last_row_first mixed_dates))
     <> fingerprint_of (call (generate_order_independent_fingerprint first_value_dates)
                             mixed_dates).
Proof.
  split.
  - unfold last_row_first. simpl.
    change [5; 0; 1; 2; 3; 4]%nat with ([5%nat] ++ [0; 1; 2; 3; 4]%nat).
    change [0; 1; 2; 3; 4; 5]%nat with ([0; 1; 2; 3; 4]%nat ++ [5%nat]).
    apply Permutation_app_comm.
  - vm_compute. repeat split. discriminate.
Qed.

(** On a table with one value per row in every column the
    order-independent function returns.  When the table has a row, or no
    column,
    what it returns is the fingerprint of the description for the rows of
    the canonical table: the SHA-256 digest of the sorted per-row digests,
    repetitions kept, concatenated; the description fixes the fingerprint.
    When the table has columns and no rows, it returns the digest of the
    sorted column labels, concatenated.  For the table of three rows the
    row texts are [7,u], [8,] and [7,u]. *)
Theorem order_independent_fingerprint_described
        (infer : date_reader) (df : DataFrame) :
  wf df ->
  (exists (fp : string) (h : list DataFrame) (rows : list (list string)),
     call (generate_order_independent_fingerprint infer) df = Some (fp, h)
     /\ rows_of (canonical infer df) = Some rows
     /\ length rows = nrows df
     /\ ((0 < nrows df)%nat \/ columns df = [] ->
         is_order_independent_fingerprint rows fp
         /\ forall fp', is_order_independent_fingerprint rows fp' -> fp' = fp)
     /\ (nrows df = 0%nat -> columns df <> [] ->
         fp = sha256_hex (concat_str (sorted (labels df)))))
  /\ row_digest ["7"; "u"]
     = "a3c799d2d2af4d764bc578cfd54f533254560782e83d56280a8f11d0ef126ac4"
  /\ row_digest ["8"; ""]
     = "1a1ce3313f428c5e70913fe5ff783fa0470d3f3c71cd75e69758f1a77b992c4f"
  /\ fingerprint_of (call (generate_order_independent_fingerprint no_dates) three_rows)
     = Some "ebca48d53df721937e8fab2042bc230179d59dcb01b157fa224657fcea88dbbf"
  /\ fingerprint_of (call (generate_order_independent_fingerprint no_dates) header_only)
     = Some "fb8e20fc2e4c3f248c60c39bd652f3c1347298bb977b8b4d5903b85055620603".
Proof.
  intros Hwf. split; [|vm_compute; repeat split].
  eexists _, _, _.
  split; [by apply order_independent_fingerprint_value|].
  split; [by apply rows_of_canonical|].
  split; [by rewrite length_fmap, length_seq|].
  rewrite items_of_canonical. split.
  - intros Hrows.
    assert (E : match nrows df, labels df with
                | O, _ :: _ => sorted (labels df)
                | _, _ => row_digest <$> (csv_row (canonical infer df) <$> seq 0 (nrows df))
                end
                = row_digest <$> (csv_row (canonical infer df) <$> seq 0 (nrows df))).
    { destruct Hrows as [Hn|Hc].
      - destruct (nrows df); [lia|done].
      - unfold labels. rewrite Hc. by destruct (nrows df). }
    rewrite E. split.
    + exists (sorted (row_digest <$> (csv_row (canonical infer df) <$> seq 0 (nrows df)))).
      split; [apply sorted_Permutation|]. split; [apply sorted_Sorted|done].
    + intros fp' (digests & Hp & Hs & ->). by rewrite (Sorted_is_sorted _ _ Hp Hs).
  - intros Hn Hc. rewrite Hn.
    assert (E : match labels df with
                | [] => row_digest <$> (csv_row (canonical infer df) <$> seq 0 0)
                | _ :: _ => sorted (labels df)
                end = sorted (labels df)).
    { unfold labels. by destruct (columns df). }
    rewrite E. do 2 f_equal. apply sorted_perm, sorted_Permutation.
Qed.

Lemma order_independent_fingerprint_described_witness :
  (exists (fp : string) (h : list DataFrame) (rows : list (list string)),
     call (generate_order_independent_fingerprint no_dates) three_rows = Some (fp, h)
     /\ rows_of (canonical no_dates three_rows) = Some rows
     /\ length rows = nrows three_rows
     /\ ((0 < nrows three_rows)%nat \/ columns three_rows = [] ->
         is_order_independent_fingerprint rows fp
         /\ forall fp', is_order_independent_fingerprint rows fp' -> fp' = fp)
     /\ (nrows three_rows = 0%nat -> columns three_rows <> [] ->
         fp = sha256_hex (concat_str (sorted (labels three_rows)))))
  /\ row_digest ["7"; "u"]
     = "a3c799d2d2af4d764bc578cfd54f533254560782e83d56280a8f11d0ef126ac4"
  /\ row_digest ["8"; ""]
     = "1a1ce3313f428c5e70913fe5ff783fa0470d3f3c71cd75e69758f1a77b992c4f"
  /\ fingerprint_of (call (generate_order_independent_fingerprint no_dates) three_rows)
     = Some "ebca48d53df721937e8fab2042bc230179d59dcb01b157fa224657fcea88dbbf"
  /\ fingerprint_of (call (generate_order_independent_fingerprint no_dates) header_only)
     = Some "fb8e20fc2e4c3f248c60c39bd652f3c1347298bb977b8b4d5903b85055620603".
Proof.
  apply (order_independent_fingerprint_described no_dates three_rows).
  split; [nodup_tac|]. repeat constructor.
Defined.

(** C3: the function misses the table without rows.  For the table with
    the columns [b] and [a] and no rows, the canonical table has no rows,
    the fingerprint of the description, as of the comments in the function,
    is the digest of the empty text, and the function returns the digest of
    the text [ab] of the sorted column labels. *)
Lemma header_only_fingerprint_of_labels :
  rows_of (canonical no_dates header_only) = Some []
  /\ is_order_independent_fingerprint []
       "e3b0c44298fc1c149afbf4c8996fb92427ae41e4649b934ca495991b7852b855"
  /\ fingerprint_of (call (generate_order_independent_fingerprint no_dates) header_only)
     = Some (sha256_hex "ab")
  /\ sha256_hex "ab" = "fb8e20fc2e4c3f248c60c39bd652f3c1347298bb977b8b4d5903b85055620603"
  /\ ~ is_order_independent_fingerprint []
         "fb8e20fc2e4c3f248c60c39bd652f3c1347298bb977b8b4d5903b85055620603".
Proof.
  split; [vm_compute; reflexivity|]. split.
  { exists []. split; [reflexivity|]. split; [constructor|vm_compute; reflexivity]. }
  split; [vm_compute; reflexivity|]. split; [vm_compute; reflexivity|].
  intros (digests & Hp & _ & E). apply Permutation_nil_r in Hp. subst digests.
  vm_compute in E. discriminate.
Qed.

(** ** The caller's table *)

Lemma kept_column_standardized infer b c :
  kept_column infer c -> standardized_column infer b c = c.
Proof.
  destruct c as [vals| | |]; simpl; try done.
  intros H. unfold standardized_column, parsed_column. by rewrite H.
Qed.

Lemma standardized_kept infer b df :
  Forall (fun nc => kept_column infer nc.2) (columns df) -> standardized infer b df = df.
Proof.
  intros H. unfold standardized, map_columns. destruct df as [n cols]. simpl in *.
  f_equal. rewrite <- (list_fmap_id cols) at 2. apply fmap_ext_in.
  intros [l c] Hin. simpl. f_equal. apply kept_column_standardized.
  by apply (proj1 (Forall_forall _ _) H (l, c)).
Qed.

(** C9 (as the code has it): both functions return on a table with one value
    per row in every column, and leave in the caller's table the table with
    its date columns rewritten as text by [standardize_datetime_columns];
    the caller's table is unchanged when every column is a column of numbers
    or a column of text not taken for dates. *)
Theorem fingerprints_standardize_caller_table
        (infer : date_reader) (df : DataFrame) :
  wf df ->
  (exists fp, fingerprint_of (call (generate_order_dependent_fingerprint infer) df) = Some fp)
  /\ (exists fp, fingerprint_of (call (generate_order_independent_fingerprint infer) df)
                 = Some fp)
  /\ table_after (call (generate_order_dependent_fingerprint infer) df)
     = Some (standardized infer false df)
  /\ table_after (call (generate_order_independent_fingerprint infer) df)
     = Some (standardized infer false df)
  /\ (Forall (fun nc => kept_column infer nc.2) (columns df) ->
      standardized infer false df = df).
Proof.
  intros Hwf.
  rewrite (order_independent_fingerprint_value infer df Hwf).
  rewrite (call_order_dependent infer df (proj1 Hwf)).
  unfold table_after, fingerprint_of. simpl.
  repeat split; eauto using standardized_kept.
Qed.

Lemma fingerprints_standardize_caller_table_witness :
  (exists fp, fingerprint_of (call (generate_order_dependent_fingerprint no_dates)
                                   numbers_table) = Some fp)
  /\ (exists fp, fingerprint_of (call (generate_order_independent_fingerprint no_dates)
                                      numbers_table) = Some fp)
  /\ table_after (call (generate_order_dependent_fingerprint no_dates) numbers_table)
     = Some (standardized no_dates false numbers_table)
  /\ table_after (call (generate_order_independent_fingerprint no_dates) numbers_table)
     = Some (standardized no_dates false numbers_table)
  /\ (Forall (fun nc => kept_column no_dates nc.2) (columns numbers_table) ->
      standardized no_dates false numbers_table = numbers_table).
Proof.
  apply (fingerprints_standardize_caller_table no_dates numbers_table).
  split; [nodup_tac|]. repeat constructor.
Defined.

(** C9 (as stated): a table with a column of date texts is not left
    unchanged; after either call the caller's column holds the timestamps
    as text. *)
Lemma dated_table_is_rewritten :
  table_after (call (generate_order_dependent_fingerprint no_dates) dated_table)
  = Some dated_table_after
  /\ table_after (call (generate_order_independent_fingerprint no_dates) dated_table)
     = Some dated_table_after
  /\ dated_table_after <> dated_table.
Proof. vm_compute. repeat split. discriminate. Qed.

(** C10: the two one-row tables are canonical and differ in both cells, and
    their order-independent fingerprints are equal: both rows join to the
    text [a,b,c].  The date reader is taken to read none of the four cells
    as a date. *)
Theorem comma_join_collision (infer : date_reader) :
  infer [Some "a,b"] "a,b" = None -> infer [Some "c"] "c" = None ->
  infer [Some "a"] "a" = None -> infer [Some "b,c"] "b,c" = None ->
  canonical infer comma_left = comma_left
  /\ canonical infer comma_right = comma_right
  /\ lookup_col "p" (columns comma_left) <> lookup_col "p" (columns comma_right)
  /\ lookup_col "q" (columns comma_left) <> lookup_col "q" (columns comma_right)
  /\ rows_of comma_left = Some [["a,b"; "c"]]
  /\ rows_of comma_right = Some [["a"; "b,c"]]
  /\ exists fp,
       fingerprint_of (call (generate_order_independent_fingerprint infer) comma_left)
       = Some fp
       /\ fingerprint_of (call (generate_order_independent_fingerprint infer) comma_right)
          = Some fp.
Proof.
  intros H1 H2 H3 H4.
  assert (El : canonical infer comma_left = canonical no_dates comma_left)
    by (apply canonical_ext; agree_tac).
  assert (Er : canonical infer comma_right = canonical no_dates comma_right)
    by (apply canonical_ext; agree_tac).
  split; [rewrite El; vm_compute; reflexivity|].
  split; [rewrite Er; vm_compute; reflexivity|].
  split; [vm_compute; discriminate|].
  split; [vm_compute; discriminate|].
  split; [vm_compute; reflexivity|].
  split; [vm_compute; reflexivity|].
  rewrite (call_order_independent infer comma_left [["a,b"; "c"]]);
    [|nodup_tac|rewrite El; vm_compute; reflexivity].
  rewrite (call_order_independent infer comma_right [["a"; "b,c"]]);
    [|nodup_tac|rewrite Er; vm_compute; reflexivity].
  eexists. split; [reflexivity|]. vm_compute. reflexivity.
Qed.

Lemma comma_join_collision_witness :
  canonical no_dates comma_left = comma_left
  /\ canonical no_dates comma_right = comma_right
  /\ lookup_col "p" (columns comma_left) <> lookup_col "p" (columns comma_right)
  /\ lookup_col "q" (columns comma_left) <> lookup_col "q" (columns comma_right)
  /\ rows_of comma_left = Some [["a,b"; "c"]]
  /\ rows_of comma_right = Some [["a"; "b,c"]]
  /\ exists fp,
       fingerprint_of (call (generate_order_independent_fingerprint no_dates) comma_left)
       = Some fp
       /\ fingerprint_of (call (generate_order_independent_fingerprint no_dates) comma_right)
          = Some fp.
Proof. apply (comma_join_collision no_dates); reflexivity. Defined.

(** ** The decimal separator *)

Lemma split_on_nonempty sep l : split_on sep l <> [].
Proof.
  induction l as [|c l IH]; simpl; [done|].
  destruct (Ascii.eqb c sep); [done|]. by destruct (split_on sep l).
Qed.

Lemma split_on_absent sep l :
  existsb (Ascii.eqb sep) l = false -> exists p, split_on sep l = [p].
Proof.
  induction l as [|c l IH]; simpl; [eauto|].
  intros [Hc Hl]%orb_false_iff. rewrite Ascii.eqb_sym, Hc.
  destruct (IH Hl) as [p ->]. eauto.
Qed.

Lemma str_isdigit_of_chars l : str_isdigit (of_chars l) = pure_digits l.
Proof.
  unfold str_isdigit. assert (E : chars (of_chars l) = l).
  { induction l as [|c l IH]; simpl; [done|by rewrite IH]. }
  rewrite E. by destruct l.
Qed.

Lemma clean_cleaned value : clean value = cleaned (chars value).
Proof.
  unfold clean. induction (chars value) as [|c l IH]; [done|].
  cbn [List.filter cleaned]. rewrite IH. unfold decimal_separators. cbn [existsb].
  by destruct (isdigit c), (Ascii.eqb c ","), (Ascii.eqb c ".").
Qed.

Lemma split_on_break sep l :
  split_on sep l
  = match break_at sep l with
    | Some (a, b) => a :: split_on sep b
    | None => [l]
    end.
Proof.
  induction l as [|c l IH]; [done|]. cbn [split_on break_at].
  destruct (Ascii.eqb c sep); [done|]. rewrite IH.
  by destruct (break_at sep l) as [[a b]|].
Qed.

Lemma break_at_absent sep l : existsb (Ascii.eqb sep) l = false -> break_at sep l = None.
Proof.
  induction l as [|c l IH]; [done|]. cbn [existsb break_at].
  intros [Hc Hl]%orb_false_iff. rewrite Ascii.eqb_sym, Hc. by rewrite (IH Hl).
Qed.

Lemma break_at_present sep l :
  existsb (Ascii.eqb sep) l = true -> exists a b, break_at sep l = Some (a, b).
Proof.
  induction l as [|c l IH]; [done|]. cbn [existsb break_at].
  rewrite (Ascii.eqb_sym sep c). destruct (Ascii.eqb c sep); [by eauto|].
  intros H. destruct (IH H) as (a & b & ->). eauto.
Qed.

(** The evidence of the description is the test on the parts of the split. *)
Lemma is_evidence_split sep value :
  is_evidence sep value
  = match split_on sep (clean value) with
    | [a; b] => pure_digits a && pure_digits b
    | _ => false
    end.
Proof.
  unfold is_evidence. rewrite clean_cleaned, split_on_break.
  destruct (break_at sep (cleaned (chars value))) as [[a b]|]; [|done].
  rewrite (split_on_break sep b).
  destruct (existsb (Ascii.eqb sep) b) eqn:E.
  - destruct (break_at_present sep b E) as (x & y & ->).
    rewrite andb_false_r. pose proof (split_on_nonempty sep y).
    by destruct (split_on sep y).
  - by rewrite (break_at_absent sep b E), andb_true_r.
Qed.

(** The test of the loop body is the evidence of the description. *)
Lemma count_sep_evidence value m sep :
  count_sep (clean value) m sep
  = if is_evidence sep value then <[str1 sep := S (m !!! str1 sep)]> m else m.
Proof.
  rewrite is_evidence_split. unfold count_sep.
  destruct (existsb (Ascii.eqb sep) (clean value)) eqn:E.
  - rewrite length_fmap.
    destruct (split_on sep (clean value)) as [|a [|b [|c rest]]]; simpl; try done.
    + by rewrite !str_isdigit_of_chars, andb_true_r.
  - by destruct (split_on_absent _ _ E) as [p ->].
Qed.

Lemma count_value_lookup m value :
  count_value m value !!! "," = (m !!! "," + bump (is_evidence "," value))%nat
  /\ count_value m value !!! "." = (m !!! "." + bump (is_evidence "." value))%nat.
Proof.
  unfold count_value, decimal_separators. simpl.
  rewrite !count_sep_evidence.
  destruct (is_evidence "," value), (is_evidence "." value); simpl;
    rewrite ?lookup_total_insert_eq, ?lookup_total_insert_ne by done;
    rewrite ?lookup_total_insert_eq, ?lookup_total_insert_ne by done.
  all: unfold str1; lia.
Qed.

Lemma filter_length_cons (p : string -> bool) v l :
  length (List.filter p (v :: l)) = (bump (p v) + length (List.filter p l))%nat.
Proof. simpl. by destruct (p v). Qed.

Lemma fold_count_value_lookup row : forall m,
  fold_left count_value row m !!! ","
  = (m !!! "," + length (List.filter (is_evidence ",") row))%nat
  /\ fold_left count_value row m !!! "."
     = (m !!! "." + length (List.filter (is_evidence ".") row))%nat.
Proof.
  induction row as [|v row IH]; intros m; [simpl; lia|].
  rewrite !filter_length_cons. cbn [fold_left].
  destruct (IH (count_value m v)) as [-> ->].
  destruct (count_value_lookup m v) as [-> ->]. lia.
Qed.

Lemma count_row_lookup m row :
  count_row m row !!! "," = (m !!! "," + length (List.filter (is_evidence ",") row))%nat
  /\ count_row m row !!! "."
     = (m !!! "." + length (List.filter (is_evidence ".") row))%nat.
Proof.
  destruct row as [|v row]; [simpl; lia|]. apply fold_count_value_lookup.
Qed.

Lemma fold_count_row_lookup rows : forall m,
  fold_left count_row rows m !!! "," = (m !!! "," + evidence_count "," rows)%nat
  /\ fold_left count_row rows m !!! "." = (m !!! "." + evidence_count "." rows)%nat.
Proof.
  unfold evidence_count.
  induction rows as [|row rows IH]; intros m; [simpl; lia|].
  cbn [fold_left concat]. rewrite !List.filter_app, !length_app.
  destruct (IH (count_row m row)) as [-> ->].
  destruct (count_row_lookup m row) as [-> ->]. lia.
Qed.

(** C7: on a file whose sampled cells are ASCII text the detector returns
    the separator of the description: evidence is counted cell by cell over
    the first ten records after the header, the comma is returned exactly
    when its count is strictly the larger one, and the point in every other
    case, two counts of zero included.  Letters and blanks around the number
    are struck out before the split ([EUR 1,5] counts for the comma), a
    grouped number counts for neither separator, and the header and the
    records after the tenth are not counted. *)
Theorem detect_decimal_separator_described (reader : list (list string)) :
  Forall (Forall ascii_text) (sample reader) ->
  detect_decimal_separator reader = described_separator reader
  /\ (length (sample reader) <= 10)%nat
  /\ (detect_decimal_separator reader = ","
      <-> (evidence_count "." (sample reader) < evidence_count "," (sample reader))%nat)
  /\ (detect_decimal_separator reader = "."
      <-> (evidence_count "," (sample reader) <= evidence_count "." (sample reader))%nat)
  /\ ((evidence_count "," (sample reader) = 0)%nat ->
      (evidence_count "." (sample reader) = 0)%nat ->
      detect_decimal_separator reader = ".")
  /\ detect_decimal_separator [["price"]; ["EUR 1,5"]; ["2,25 kg"]; ["3.5"]] = ","
  /\ detect_decimal_separator [["price"]; ["1,5"]; ["2.5"]] = "."
  /\ detect_decimal_separator [["price"]; ["1,234.56"]; ["1,234,567"]; ["12"]] = "."
  /\ detect_decimal_separator [["1,5"]] = "."
  /\ detect_decimal_separator (["price"] :: replicate 10 ["1.5"] ++ replicate 11 ["1,5"])
     = "."
  /\ detect_decimal_separator [] = ".".
Proof.
  intros _.
  assert (E : detect_decimal_separator reader = described_separator reader).
  { unfold detect_decimal_separator, described_separator, sample.
    destruct (fold_count_row_lookup (take 10 (drop 1 reader))
                (<["," := 0%nat]> (<["." := 0%nat]> ∅))) as [-> ->].
    by rewrite lookup_total_insert_eq, lookup_total_insert_ne, lookup_total_insert_eq. }
  split; [done|]. split; [unfold sample; rewrite length_take; lia|].
  rewrite E. unfold described_separator.
  destruct (Nat.ltb_spec (evidence_count "." (sample reader))
                         (evidence_count "," (sample reader))) as [H|H].
  - repeat split; try done; try (intros; lia); vm_compute; reflexivity.
  - repeat split; try done; try (intros; lia); vm_compute; reflexivity.
Qed.

Lemma detect_decimal_separator_described_witness :
  detect_decimal_separator [["price"]; ["EUR 1,5"]; ["2,25 kg"]; ["3.5"]]
  = described_separator [["price"]; ["EUR 1,5"]; ["2,25 kg"]; ["3.5"]]
  /\ (length (sample [["price"]; ["EUR 1,5"]; ["2,25 kg"]; ["3.5"]]) <= 10)%nat
  /\ (detect_decimal_separator [["price"]; ["EUR 1,5"]; ["2,25 kg"]; ["3.5"]] = ","
      <-> (evidence_count "." (sample [["price"]; ["EUR 1,5"]; ["2,25 kg"]; ["3.5"]])
           < evidence_count "," (sample [["price"]; ["EUR 1,5"]; ["2,25 kg"]; ["3.5"]]))%nat)
  /\ (detect_decimal_separator [["price"]; ["EUR 1,5"]; ["2,25 kg"]; ["3.5"]] = "."
      <-> (evidence_count "," (sample [["price"]; ["EUR 1,5"]; ["2,25 kg"]; ["3.5"]])
           <= evidence_count "." (sample [["price"]; ["EUR 1,5"]; ["2,25 kg"]; ["3.5"]]))%nat)
  /\ ((evidence_count "," (sample [["price"]; ["EUR 1,5"]; ["2,25 kg"]; ["3.5"]]) = 0)%nat ->
      (evidence_count "." (sample [["price"]; ["EUR 1,5"]; ["2,25 kg"]; ["3.5"]]) = 0)%nat ->
      detect_decimal_separator [["price"]; ["EUR 1,5"]; ["2,25 kg"]; ["3.5"]] = ".")
  /\ detect_decimal_separator [["price"]; ["EUR 1,5"]; ["2,25 kg"]; ["3.5"]] = ","
  /\ detect_decimal_separator [["price"]; ["1,5"]; ["2.5"]] = "."
  /\ detect_decimal_separator [["price"]; ["1,234.56"]; ["1,234,567"]; ["12"]] = "."
  /\ detect_decimal_separator [["1,5"]] = "."
  /\ detect_decimal_separator (["price"] :: replicate 10 ["1.5"] ++ replicate 11 ["1,5"])
     = "."
  /\ detect_decimal_separator [] = ".".
Proof.
  apply (detect_decimal_separator_described
           [["price"]; ["EUR 1,5"]; ["2,25 kg"]; ["3.5"]]).
  unfold sample, ascii_text. cbn [drop take chars]. repeat constructor.
Defined.

(** ** The explicit formats *)

(** A column parses under a format when every value that is not missing
    does, and then value by value. *)
Lemma to_datetime_format_Some fmt vals parsed :
  to_datetime_format fmt vals = Some parsed
  <-> all_parse fmt vals /\ parsed = parse_each fmt vals.
Proof.
  unfold to_datetime_format, all_parse, parse_each. rewrite mapM_Some. split.
  - induction 1 as [|v y vals parsed Hv _ [IH1 IH2]]; [by split|].
    rewrite Forall_cons, fmap_cons, <- IH2.
    destruct v as [s|]; simpl in *.
    + destruct (is_nat_text s); [injection Hv as <-; eauto|].
      destruct (strptime fmt s) as [t|]; [|done]. injection Hv as <-. eauto.
    + by injection Hv as <-.
  - intros [Hall ->]. apply Forall2_fmap_r, Forall_Forall2_diag.
    eapply Forall_impl; [exact Hall|]. intros [s|]; simpl; [|done].
    destruct (is_nat_text s); [done|]. intros [H|[t ->]]; done.
Qed.

(** The six formats read no text that stands for a missing value. *)
Lemma nat_text_not_read fmt s :
  fmt ∈ datetime_formats -> is_nat_text s = true -> strptime fmt s = None.
Proof.
  intros Hf Hs. unfold is_nat_text, nat_strings in Hs. cbn [existsb] in Hs.
  repeat (apply orb_true_iff in Hs as [Hs|Hs]); try discriminate Hs;
    apply String.eqb_eq in Hs; subst s; unfold datetime_formats in Hf;
    repeat (apply elem_of_cons in Hf as [->|Hf]); try (by apply elem_of_nil in Hf);
    vm_compute; reflexivity.
Qed.

(** The formats before the first one that parses the column are the ones
    that fail, and the ones after it play no part. *)
Lemma first_format_Some fmts vals fmt parsed :
  first_format fmts vals = Some (fmt, parsed)
  <-> exists before after,
        fmts = before ++ fmt :: after
        /\ Forall (fun f => to_datetime_format f vals = None) before
        /\ to_datetime_format fmt vals = Some parsed.
Proof.
  induction fmts as [|f fmts IH]; simpl.
  - split; [done|]. intros (before & after & H & _). by destruct before.
  - destruct (to_datetime_format f vals) as [p|] eqn:E.
    + split.
      * intros [= <- <-]. exists [], fmts. by repeat split.
      * intros ([|f' before] & after & H & Hb & Hs).
        -- injection H as -> ->. congruence.
        -- injection H as -> ->. apply Forall_cons in Hb as [Hb _]. congruence.
    + rewrite IH. split.
      * intros (before & after & -> & Hb & Hs). exists (f :: before), after.
        repeat split; [|done]. by constructor.
      * intros ([|f' before] & after & H & Hb & Hs).
        -- injection H as -> ->. congruence.
        -- injection H as -> ->. apply Forall_cons in Hb as [_ Hb].
           by exists before, after.
Qed.



(** ** The cells of the canonical table *)

Lemma canonical_table_eq infer df :
  NoDup (labels df) -> canonical_table infer df = Some (canonical infer df).
Proof.
  intros Hnd. unfold canonical_table, call.
  rewrite (canonical_frame_run infer 0 [df] df eq_refl Hnd).
  exact (heap_after_last infer 0 [df] df eq_refl).
Qed.

Lemma lookup_col_fmap_labels (F : string -> column) l (ls : list string) :
  l ∈ ls -> lookup_col l ((fun l => (l, F l)) <$> ls) = Some (F l).
Proof.
  induction ls as [|x ls IH]; [by intros ?%elem_of_nil|].
  intros Hin. rewrite fmap_cons. simpl. destruct (String.eqb x l) eqn:E.
  - apply String.eqb_eq in E. by subst.
  - apply IH. apply elem_of_cons in Hin as [->|Hin]; [|done].
    by rewrite String.eqb_refl in E.
Qed.

Lemma text_at_text ts i : text_at i (ObjectCol (Some <$> ts)) = ts !! i.
Proof. simpl. rewrite list_lookup_fmap. by destruct (ts !! i). Qed.

(** The canonical text of a cell is the one of its column. *)
Theorem canonical_cell_eq infer df col c i :
  NoDup (labels df) -> lookup_col col (columns df) = Some c ->
  canonical_cell infer df col i = canonical_texts infer c !! i.
Proof.
  intros Hnd Hc. unfold canonical_cell. rewrite (canonical_table_eq infer df Hnd).
  rewrite canonical_columns. cbn [mbind option_bind columns].
  rewrite (lookup_col_fmap_labels (fun l => ObjectCol (Some <$> texts_of infer df l))).
  - simpl. change (mjoin ((Some <$> ?ts) !! i)) with (text_at i (ObjectCol (Some <$> ts))).
    by rewrite text_at_text, (texts_of_lookup infer df col c Hc).
  - rewrite (sorted_Permutation (labels df)). apply list_elem_of_fmap.
    exists (col, c). split; [done|]. by apply lookup_col_elem.
Qed.

(** The fingerprints are digests of that table. *)
Lemma fingerprints_of_canonical_table infer df :
  wf df -> (0 < nrows df)%nat ->
  fingerprint_of (call (generate_order_dependent_fingerprint infer) df)
  = (fun f => sha256_hex (to_csv f)) <$> canonical_table infer df
  /\ fingerprint_of (call (generate_order_independent_fingerprint infer) df)
     = (fun f => sha256_hex (concat_str (sorted
                   (row_digest <$> (csv_row f <$> seq 0 (nrows f))))))
       <$> canonical_table infer df.
Proof.
  intros Hwf Hn. rewrite (canonical_table_eq infer df (proj1 Hwf)).
  rewrite (call_order_dependent infer df (proj1 Hwf)).
  rewrite (order_independent_fingerprint_rows infer df Hwf (or_introl Hn)).
  split; [done|]. simpl. by rewrite canonical_columns.
Qed.

(** ** Characters of the texts of numbers and timestamps *)

Lemma chars_app a b : chars (a +:+ b) = chars a ++ chars b.
Proof. induction a as [|c a IH]; simpl; [done|by rewrite IH]. Qed.

Lemma chars_of_chars l : chars (of_chars l) = l.
Proof. induction l as [|c l IH]; simpl; [done|by rewrite IH]. Qed.

Lemma of_chars_chars s : of_chars (chars s) = s.
Proof. induction s as [|c s IH]; simpl; [done|by rewrite IH]. Qed.

Lemma ord_chr k : (k < 256)%nat -> ord (chr k) = Z.of_nat k.
Proof. intros H. unfold ord, chr. by rewrite nat_ascii_embedding. Qed.

Lemma isdigit_digit_char k :
  0 <= k < 10 -> isdigit (chr (Z.to_nat (48 + k))) = true.
Proof.
  intros H. unfold isdigit, in_range. rewrite ord_chr by lia.
  change (ord "0") with 48. change (ord "9") with 57.
  apply andb_true_iff. split; apply Z.leb_le; lia.
Qed.

Lemma isdigit_not_space c : isdigit c = true -> isspace c = false.
Proof.
  unfold isdigit, in_range, isspace. change (ord "0") with 48. change (ord "9") with 57.
  intros [H1 H2]%andb_true_iff. apply Z.leb_le in H1, H2.
  repeat (apply orb_false_iff; split); try apply andb_false_iff;
    rewrite ?Z.leb_gt, ?Z.eqb_neq; lia.
Qed.

Lemma pos_digits_digits fuel : forall n acc,
  Forall (fun c => isdigit c = true) acc ->
  Forall (fun c => isdigit c = true) (pos_digits fuel n acc).
Proof.
  induction fuel as [|fuel IH]; intros n acc Hacc; simpl; [done|].
  assert (Hd : Forall (fun c => isdigit c = true) (chr (Z.to_nat (48 + n mod 10)) :: acc)).
  { constructor; [|done]. apply isdigit_digit_char. apply Z.mod_pos_bound. lia. }
  destruct (n <? 10); [done|by apply IH].
Qed.

Lemma pos_digits_nonempty fuel : forall n acc,
  acc <> [] \/ fuel <> O -> pos_digits fuel n acc <> [].
Proof.
  induction fuel as [|fuel IH]; intros n acc H; simpl; [by destruct H|].
  destruct (n <? 10); [done|]. apply IH. by left.
Qed.

Lemma nat_digits_digits n : Forall (fun c => isdigit c = true) (nat_digits n).
Proof. apply pos_digits_digits. constructor. Qed.

Lemma nat_digits_nonempty n : nat_digits n <> [].
Proof. apply pos_digits_nonempty. by right. Qed.

Lemma zfill_digits w n : Forall (fun c => isdigit c = true) (chars (zfill w n)).
Proof.
  unfold zfill. rewrite chars_of_chars. apply Forall_app. split.
  - apply Forall_forall. intros c Hc%list_elem_of_In.
    by rewrite (repeat_spec _ _ _ Hc).
  - apply nat_digits_digits.
Qed.

Lemma zfill_nonempty w n : chars (zfill w n) <> [].
Proof.
  unfold zfill. rewrite chars_of_chars. intros [_ H]%app_eq_nil.
  by apply nat_digits_nonempty in H.
Qed.

Lemma lstrip_head c l : isspace c = false -> lstrip (c :: l) = c :: l.
Proof. intros H. simpl. by rewrite H. Qed.

(** A text that starts and ends with a digit is left by [strip]. *)
Lemma strip_between_digits a m b s :
  a <> [] -> Forall (fun c => isdigit c = true) a ->
  b <> [] -> Forall (fun c => isdigit c = true) b ->
  chars s = a ++ m ++ b -> strip s = s.
Proof.
  intros Ha Hda Hb Hdb Hs. unfold strip.
  destruct a as [|x a]; [done|]. apply Forall_cons in Hda as [Hx _].
  destruct b as [|y b _] using rev_ind; [done|].
  apply Forall_app in Hdb as [_ [Hy _]%Forall_cons].
  assert (E : chars s = x :: (a ++ m ++ b) ++ [y]).
  { rewrite Hs. simpl. by rewrite <- !app_assoc. }
  rewrite E, (lstrip_head x) by by apply isdigit_not_space.
  rewrite app_comm_cons, rev_unit, (lstrip_head y) by by apply isdigit_not_space.
  rewrite <- rev_unit, rev_involutive, <- app_comm_cons, <- E.
  apply of_chars_chars.
Qed.

Lemma strip_strftime t :
  strip (strftime "%Y-%m-%d %H:%M:%S" t) = strftime "%Y-%m-%d %H:%M:%S" t.
Proof.
  apply (strip_between_digits
           (chars (zfill 4 (year t)))
           ("-"%char :: chars (zfill 2 (month t)) ++ "-"%char :: chars (zfill 2 (day t))
              ++ " "%char :: chars (zfill 2 (hour t)) ++ ":"%char
              :: chars (zfill 2 (minute t)) ++ [":"%char])
           (chars (zfill 2 (second t))));
    auto using zfill_digits, zfill_nonempty.
  unfold strftime. cbn [chars strftime_chars Ascii.eqb Bool.eqb].
  rewrite !chars_app. cbn [chars]. rewrite !chars_app. cbn [chars app].
  repeat (rewrite chars_app; cbn [chars]). rewrite app_nil_r.
  repeat (rewrite <- app_assoc || rewrite <- app_comm_cons). reflexivity.
Qed.

(** ** A date with blanks around it *)

Lemma to_datetime_format_fails fmt vals s :
  Some s ∈ vals -> is_nat_text s = false -> strptime fmt s = None ->
  to_datetime_format fmt vals = None.
Proof.
  intros Hin Hn Hs. apply mapM_None_2, Exists_exists. exists (Some s).
  split; [done|]. simpl. by rewrite Hn, Hs.
Qed.

(** No explicit format reads the padded date, so none parses its column. *)
Lemma first_format_padded vals :
  Some padded_date ∈ vals -> first_format datetime_formats vals = None.
Proof.
  intros Hin. unfold datetime_formats. cbn [first_format].
  by rewrite !(to_datetime_format_fails _ vals padded_date Hin eq_refl)
    by (vm_compute; reflexivity).
Qed.

(** C6 (as the code has it): the explicit formats do not read the padded
    date, and blanks are removed after the dates have been normalised.  When
    the free-form reading takes the column for dates, the cell is the full
    timestamp of the reading of the padded text, or empty when that text is
    not read; the cell is the trimmed text [2023-01-05] only when the
    column is not taken for dates.  Both fingerprints are digests of the
    table with that cell. *)
Theorem padded_date_cell
        (infer : date_reader) (df : DataFrame) (col : string)
        (vals : list (option string)) (i : nat) :
  wf df ->
  lookup_col col (columns df) = Some (ObjectCol vals) ->
  vals !! i = Some (Some padded_date) ->
  first_format datetime_formats vals = None
  /\ canonical_cell infer df col i
     = Some (match detect infer vals with
             | Some _ =>
                 match infer vals padded_date with
                 | Some t => strftime "%Y-%m-%d %H:%M:%S" t
                 | None => EmptyString
                 end
             | None => "2023-01-05"
             end)
  /\ fingerprint_of (call (generate_order_dependent_fingerprint infer) df)
     = (fun f => sha256_hex (to_csv f)) <$> canonical_table infer df
  /\ fingerprint_of (call (generate_order_independent_fingerprint infer) df)
     = (fun f => sha256_hex (concat_str (sorted
                   (row_digest <$> (csv_row f <$> seq 0 (nrows f))))))
       <$> canonical_table infer df.
Proof.
  intros Hwf Hc Hi.
  assert (Hin : Some padded_date ∈ vals) by by apply list_elem_of_lookup_2 with i.
  assert (Hff := first_format_padded vals Hin).
  assert (Hn : (0 < nrows df)%nat).
  { rewrite <- (lookup_col_Forall _ col _ _ (proj2 Hwf) Hc). simpl.
    apply lookup_lt_Some in Hi. lia. }
  split; [done|]. split; [|by apply fingerprints_of_canonical_table].
  rewrite (canonical_cell_eq infer df col _ i (proj1 Hwf) Hc).
  unfold canonical_texts, standardized_column, parsed_column.
  unfold detect. rewrite Hff.
  destruct (PrimFloat.leb _ _); simpl.
  - unfold to_datetime_coerce. rewrite !list_lookup_fmap, Hi. simpl.
    destruct (infer vals padded_date) as [t|]; simpl; [|done].
    by rewrite strip_strftime.
  - by rewrite !list_lookup_fmap, Hi.
Qed.

Lemma padded_date_cell_witness :
  first_format datetime_formats
    [Some "2023-01-04"; Some padded_date; Some "2023-01-06"; Some "2023-01-07";
     Some "2023-01-08"] = None
  /\ canonical_cell strict_dates scenario_C "d" 1
     = Some (match detect strict_dates
                     [Some "2023-01-04"; Some padded_date; Some "2023-01-06";
                      Some "2023-01-07"; Some "2023-01-08"] with
             | Some _ =>
                 match strict_dates
                         [Some "2023-01-04"; Some padded_date; Some "2023-01-06";
                          Some "2023-01-07"; Some "2023-01-08"] padded_date with
                 | Some t => strftime "%Y-%m-%d %H:%M:%S" t
                 | None => EmptyString
                 end
             | None => "2023-01-05"
             end)
  /\ fingerprint_of (call (generate_order_dependent_fingerprint strict_dates) scenario_C)
     = (fun f => sha256_hex (to_csv f)) <$> canonical_table strict_dates scenario_C
  /\ fingerprint_of (call (generate_order_independent_fingerprint strict_dates) scenario_C)
     = (fun f => sha256_hex (concat_str (sorted
                   (row_digest <$> (csv_row f <$> seq 0 (nrows f))))))
       <$> canonical_table strict_dates scenario_C.
Proof.
  apply (padded_date_cell strict_dates scenario_C "d" _ 1).
  - split; [nodup_tac|]. repeat constructor.
  - reflexivity.
  - reflexivity.
Defined.

(** C6 (as stated): in Scenario C the padded cell does not become
    [2023-01-05].  A reader of dates that does not skip blanks leaves it
    empty, one that skips them gives the full timestamp; the other cells of
    the column are full timestamps as well. *)
Lemma scenario_C_padded_cell :
  canonical_cell strict_dates scenario_C "d" 1 = Some EmptyString
  /\ canonical_cell lenient_dates scenario_C "d" 1 = Some "2023-01-05 00:00:00"
  /\ canonical_cell strict_dates scenario_C "d" 0 = Some "2023-01-04 00:00:00"
  /\ canonical_cell strict_dates scenario_C "d" 1 <> Some "2023-01-05"
  /\ canonical_cell lenient_dates scenario_C "d" 1 <> Some "2023-01-05".
Proof. vm_compute. repeat split; discriminate. Qed.

(** ** The texts of numbers *)

Lemma plain_digit l : Forall (fun c => isdigit c = true) l -> Forall plain_char l.
Proof. intros H. eapply Forall_impl; [exact H|]. by left. Qed.

Lemma plain_zeros n : Forall plain_char (repeat "0"%char n).
Proof. apply Forall_forall. intros c Hc%list_elem_of_In. rewrite (repeat_spec _ _ _ Hc). by left. Qed.

Lemma plain_no_exponent l : Forall plain_char l -> existsb (Ascii.eqb "e") l = false.
Proof.
  induction 1 as [|c l [Hc|Hc] _ IH]; cbn [existsb]; [done| |by subst].
  rewrite IH, orb_false_r. destruct (Ascii.eqb "e" c) eqn:E; [|done].
  apply Ascii.eqb_eq in E. subst c. by vm_compute in Hc.
Qed.

Lemma plain_number_char l : Forall plain_char l -> Forall (fun c => number_char c = true) l.
Proof.
  intros H. eapply Forall_impl; [exact H|].
  intros c [Hc|Hc]; [|by subst]. unfold number_char. by rewrite Hc.
Qed.

Lemma number_char_no_comma l :
  Forall (fun c => number_char c = true) l -> existsb (Ascii.eqb COMMA) l = false.
Proof.
  induction 1 as [|c l Hc _ IH]; cbn [existsb]; [done|].
  rewrite IH, orb_false_r. destruct (Ascii.eqb COMMA c) eqn:E; [|done].
  apply Ascii.eqb_eq in E. subst c. by vm_compute in Hc.
Qed.

(** The fixed forms of [format_short] and the form with an exponent. *)
Lemma format_short_fixed ds p :
  Forall (fun c => isdigit c = true) ds -> (p <=? -4) || (16 <? p) = false ->
  Forall plain_char (chars (Float64.format_short ds p)).
Proof.
  intros Hds Hp. unfold Float64.format_short. rewrite Hp.
  destruct (p <=? 0); [|destruct (_ <=? p)];
    rewrite ?chars_app, ?chars_of_chars; cbn [chars];
    repeat first [apply Forall_app; split | apply Forall_cons; split | apply Forall_nil_2];
    auto using plain_digit, plain_zeros, Forall_take, Forall_drop;
    try (by left); try (by right).
Qed.

Lemma mantissa_number_char (ds : list ascii) :
  Forall (fun c => isdigit c = true) ds ->
  Forall (fun c => number_char c = true)
         (match ds with
          | [c] => [c]
          | c :: rest => c :: "."%char :: rest
          | [] => []
          end).
Proof.
  intros Hds. apply plain_number_char.
  destruct Hds as [|c ds Hc Hds]; [constructor|].
  destruct ds as [|d ds]; [by constructor; [left|]|].
  constructor; [by left|]. constructor; [by right|]. by apply plain_digit.
Qed.

Lemma format_short_scientific ds p :
  Forall (fun c => isdigit c = true) ds -> (p <=? -4) || (16 <? p) = true ->
  Forall (fun c => number_char c = true) (chars (Float64.format_short ds p))
  /\ has_exponent (Float64.format_short ds p) = true.
Proof.
  intros Hds Hp. unfold Float64.format_short, has_exponent. rewrite Hp.
  rewrite !chars_app, chars_of_chars. split.
  - repeat (apply Forall_app; split).
    + by apply mantissa_number_char.
    + by repeat constructor.
    + destruct (_ <? 0); by repeat constructor.
    + apply plain_number_char, plain_digit, zfill_digits.
  - rewrite existsb_app. cbn [chars existsb app]. rewrite Ascii.eqb_refl.
    by rewrite orb_true_r.
Qed.

Lemma format_short_text ds p :
  Forall (fun c => isdigit c = true) ds ->
  Forall (fun c => number_char c = true) (chars (Float64.format_short ds p))
  /\ has_exponent (Float64.format_short ds p) = (p <=? -4) || (16 <? p).
Proof.
  intros Hds. destruct ((p <=? -4) || (16 <? p)) eqn:Hp.
  - by apply format_short_scientific.
  - split; [by apply plain_number_char, format_short_fixed|].
    by apply plain_no_exponent, format_short_fixed.
Qed.

Lemma digits_decpt_digits m e :
  Forall (fun c => isdigit c = true) (Float64.digits_decpt m e).1.
Proof.
  unfold Float64.digits_decpt. destruct (Float64.shortest _ _ _ _ _) as [d k].
  destruct (Float64.strip_zeros _ _ _) as [d' k']. apply nat_digits_digits.
Qed.

(** The text of a float has no comma, and has an exponent marker exactly in
    the scientific range. *)
Theorem float_str_text x :
  has_comma (Float64.str x) = false
  /\ has_exponent (Float64.str x) = scientific x.
Proof.
  unfold has_comma, has_exponent, Float64.str, scientific.
  destruct (Prim2SF x) as [s|s| |s m e]; try (by destruct s); try done.
  pose proof (digits_decpt_digits (Z.pos m) e) as Hds.
  destruct (Float64.digits_decpt (Z.pos m) e) as [ds p]. simpl in Hds.
  destruct (format_short_text ds p Hds) as [Hc He]. unfold has_exponent in He.
  rewrite !chars_app, !existsb_app, He. cbn [snd]. split.
  - rewrite (number_char_no_comma _ Hc). by destruct s.
  - by destruct s.
Qed.

(** The text of an integer is digits after an optional minus sign. *)
Theorem str_int_text z :
  has_comma (str_int z) = false /\ has_exponent (str_int z) = false.
Proof.
  unfold has_comma, has_exponent, str_int.
  destruct (z <? 0); cbn [chars existsb]; rewrite chars_of_chars;
    pose proof (nat_digits_digits (- z)); pose proof (nat_digits_digits z); split;
    rewrite ?number_char_no_comma, ?plain_no_exponent;
    auto using plain_number_char, plain_digit.
Qed.

(** ** Cells of numbers *)

Lemma float_cell infer df col vals i x :
  NoDup (labels df) -> lookup_col col (columns df) = Some (Float64Col vals) ->
  vals !! i = Some x ->
  canonical_cell infer df col i = Some (float_text x).
Proof.
  intros Hnd Hc Hi. rewrite (canonical_cell_eq infer df col _ i Hnd Hc).
  unfold canonical_texts, standardized_column. simpl.
  by rewrite !list_lookup_fmap, Hi.
Qed.

Lemma int_cell infer df col vals i z :
  NoDup (labels df) -> lookup_col col (columns df) = Some (Int64Col vals) ->
  vals !! i = Some z ->
  canonical_cell infer df col i = Some (str_int z).
Proof.
  intros Hnd Hc Hi. rewrite (canonical_cell_eq infer df col _ i Hnd Hc).
  unfold canonical_texts, standardized_column. simpl.
  by rewrite !list_lookup_fmap, Hi.
Qed.

(** C4 (as the code has it): a float cell is rounded as numpy rounds, the
    millionfold of the value to the nearest integer with ties to the even
    one, and then written as the shortest text that reads back, not with six
    decimals.  1.0000004999 becomes [1.0] and 1.0000005001 becomes
    [1.000001]; the tie 0.0078125 goes down to [0.007812], the tie 0.0234375
    up to [0.023438]. *)
Theorem float_cell_rounding
        (infer : date_reader) (df : DataFrame) (col : string)
        (vals : list float) (i : nat) (x : float) :
  wf df ->
  lookup_col col (columns df) = Some (Float64Col vals) ->
  vals !! i = Some x ->
  canonical_cell infer df col i
  = Some (if PrimFloat.is_nan (Float64.np_round 6 x) then EmptyString
          else Float64.str (Float64.np_round 6 x))
  /\ Float64.np_round 6 x = (Float64.rint (x * 1000000) / 1000000)%float
  /\ (Float64.rint 0.5 = 0 /\ Float64.rint 1.5 = 2 /\ Float64.rint 2.5 = 2
      /\ Float64.rint 3.5 = 4 /\ Float64.rint (-2.5) = (-2))%float
  /\ float_text below_half = "1.0"
  /\ float_text above_half = "1.000001"
  /\ float_text tie_down = "0.007812"
  /\ float_text tie_up = "0.023438".
Proof.
  intros Hwf Hc Hi. split; [by apply float_cell with vals; [apply Hwf| |]|].
  split; [reflexivity|]. vm_compute. repeat split.
Qed.

Lemma float_cell_rounding_witness :
  canonical_cell no_dates (one_float below_half) "v" 0
  = Some (if PrimFloat.is_nan (Float64.np_round 6 below_half) then EmptyString
          else Float64.str (Float64.np_round 6 below_half))
  /\ Float64.np_round 6 below_half
     = (Float64.rint (below_half * 1000000) / 1000000)%float
  /\ (Float64.rint 0.5 = 0 /\ Float64.rint 1.5 = 2 /\ Float64.rint 2.5 = 2
      /\ Float64.rint 3.5 = 4 /\ Float64.rint (-2.5) = (-2))%float
  /\ float_text below_half = "1.0"
  /\ float_text above_half = "1.000001"
  /\ float_text tie_down = "0.007812"
  /\ float_text tie_up = "0.023438".
Proof.
  apply (float_cell_rounding no_dates (one_float below_half) "v" [below_half] 0 below_half).
  - split; [nodup_tac|]. repeat constructor.
  - reflexivity.
  - reflexivity.
Defined.

(** C4 (as stated): the cell 1.0000004999 is written [1.0], not with six
    decimals, and the tie 0.0078125 is rounded to the even neighbour
    [0.007812], where rounding half away from zero gives [0.007813]. *)
Lemma float_cell_not_six_decimals_half_even :
  canonical_cell no_dates (one_float below_half) "v" 0 = Some "1.0"
  /\ canonical_cell no_dates (one_float below_half) "v" 0 <> Some "1.000000"
  /\ canonical_cell no_dates (one_float tie_down) "v" 0 = Some "0.007812"
  /\ canonical_cell no_dates (one_float tie_down) "v" 0 <> Some "0.007813".
Proof. vm_compute. repeat split; discriminate. Qed.

(** C5 (as the code has it): the text of a number cell never has a comma.
    An integer cell is written with digits after an optional minus sign.  A
    float cell is written by [str], which uses an exponent exactly when the
    rounded value is in the scientific range, and fixed notation
    otherwise. *)
Theorem number_cell_notation
        (infer : date_reader) (df : DataFrame) (col : string)
        (c : column) (i : nat) :
  wf df ->
  lookup_col col (columns df) = Some c ->
  (forall vals z, c = Int64Col vals -> vals !! i = Some z ->
     canonical_cell infer df col i = Some (str_int z)
     /\ has_comma (str_int z) = false
     /\ has_exponent (str_int z) = false)
  /\ (forall vals x, c = Float64Col vals -> vals !! i = Some x ->
        PrimFloat.is_nan (Float64.np_round 6 x) = false ->
        canonical_cell infer df col i = Some (Float64.str (Float64.np_round 6 x))
        /\ has_comma (Float64.str (Float64.np_round 6 x)) = false
        /\ has_exponent (Float64.str (Float64.np_round 6 x))
           = scientific (Float64.np_round 6 x)).
Proof.
  intros Hwf Hc. split.
  - intros vals z -> Hi. split; [by apply int_cell with vals; [apply Hwf| |]|].
    apply str_int_text.
  - intros vals x -> Hi Hnan.
    split; [|apply float_str_text].
    rewrite (float_cell infer df col vals i x (proj1 Hwf) Hc Hi).
    unfold float_text. by rewrite Hnan.
Qed.

Lemma number_cell_notation_witness :
  (canonical_cell no_dates numbers_table "n" 0 = Some (str_int 1)
   /\ has_comma (str_int 1) = false
   /\ has_exponent (str_int 1) = false)
  /\ (canonical_cell no_dates numbers_table "x" 0
      = Some (Float64.str (Float64.np_round 6 0.5))
      /\ has_comma (Float64.str (Float64.np_round 6 0.5)) = false
      /\ has_exponent (Float64.str (Float64.np_round 6 0.5))
         = scientific (Float64.np_round 6 0.5)).
Proof.
  assert (Hwf : wf numbers_table) by (split; [nodup_tac|repeat constructor]).
  split.
  - apply (proj1 (number_cell_notation no_dates numbers_table "n" (Int64Col [1; 2]) 0
                    Hwf eq_refl) [1; 2] 1 eq_refl eq_refl).
  - apply (proj2 (number_cell_notation no_dates numbers_table "x"
                    (Float64Col [0.5%float; 0.25%float]) 0 Hwf eq_refl)
                 [0.5%float; 0.25%float] 0.5%float eq_refl eq_refl eq_refl).
Defined.

(** C5 (as stated): ten to the sixteenth and 0.00001 are written with an
    exponent. *)
Lemma float_cell_with_exponent :
  canonical_cell no_dates (one_float ten_to_16) "v" 0 = Some "1e+16"
  /\ has_exponent "1e+16" = true
  /\ canonical_cell no_dates (one_float one_in_100000) "v" 0 = Some "1e-05"
  /\ has_exponent "1e-05" = true.
Proof. vm_compute. repeat split. Qed.

(** ** The shape of a fingerprint *)








(** ** The order of the columns *)

Lemma lookup_col_Permutation l (cols cols' : list (string * column)) :
  NoDup (fst <$> cols) -> cols' ≡ₚ cols -> lookup_col l cols' = lookup_col l cols.
Proof.
  intros Hnd Hp.
  assert (Hnd' : NoDup (fst <$> cols')) by by rewrite Hp.
  destruct (lookup_col l cols) as [c|] eqn:E.
  - apply lookup_col_NoDup; [done|]. rewrite Hp. by apply lookup_col_elem.
  - destruct (lookup_col l cols') as [c'|] eqn:E'; [|done].
    apply lookup_col_elem in E'. rewrite Hp in E'.
    apply (lookup_col_NoDup _ _ _ Hnd) in E'. congruence.
Qed.

Lemma canonical_Permutation infer df cols' :
  NoDup (labels df) -> cols' ≡ₚ columns df ->
  canonical infer (Frame (nrows df) cols') = canonical infer df.
Proof.
  intros Hnd Hp. rewrite !canonical_columns. cbn [nrows]. f_equal.
  assert (Hl : labels (Frame (nrows df) cols') ≡ₚ labels df).
  { unfold labels. cbn [columns]. by rewrite Hp. }
  rewrite (sorted_perm _ _ Hl). apply fmap_ext_in. intros l _.
  unfold texts_of, column_of. cbn [nrows columns].
  by rewrite (lookup_col_Permutation l (columns df) cols' Hnd Hp).
Qed.

Lemma wf_Permutation df cols' :
  wf df -> cols' ≡ₚ columns df -> wf (Frame (nrows df) cols').
Proof.
  intros [Hnd Hlen] Hp. split.
  - unfold labels. cbn [columns]. by rewrite Hp.
  - cbn [columns nrows]. by rewrite Hp.
Qed.

(** The fingerprints do not depend on the order of the columns of the
    table: the canonical table has them in the sorted order of their
    labels. *)
Theorem fingerprints_column_order
        (infer : date_reader) (df : DataFrame)
        (cols' : list (string * column)) :
  wf df -> cols' ≡ₚ columns df ->
  is_Some (fingerprint_of (call (generate_order_dependent_fingerprint infer) df))
  /\ fingerprint_of (call (generate_order_dependent_fingerprint infer)
                          (Frame (nrows df) cols'))
     = fingerprint_of (call (generate_order_dependent_fingerprint infer) df)
  /\ is_Some (fingerprint_of (call (generate_order_independent_fingerprint infer) df))
  /\ fingerprint_of (call (generate_order_independent_fingerprint infer)
                          (Frame (nrows df) cols'))
     = fingerprint_of (call (generate_order_independent_fingerprint infer) df).
Proof.
  intros Hwf Hp. pose proof (wf_Permutation df cols' Hwf Hp) as Hwf'.
  rewrite !(call_order_dependent infer _ (proj1 Hwf)).
  rewrite !(call_order_dependent infer _ (proj1 Hwf')).
  rewrite !(order_independent_fingerprint_value infer _ Hwf).
  rewrite !(order_independent_fingerprint_value infer _ Hwf').
  rewrite (canonical_Permutation infer df cols' (proj1 Hwf) Hp).
  by repeat split.
Qed.

Lemma fingerprints_column_order_witness :
  is_Some (fingerprint_of (call (generate_order_dependent_fingerprint no_dates) scenario_A))
  /\ fingerprint_of (call (generate_order_dependent_fingerprint no_dates)
                          (Frame (nrows scenario_A)
                                 [("a", ObjectCol [Some "x"; Some "y"]);
                                  ("b", Int64Col [1; 2])]))
     = fingerprint_of (call (generate_order_dependent_fingerprint no_dates) scenario_A)
  /\ is_Some (fingerprint_of (call (generate_order_independent_fingerprint no_dates)
                                   scenario_A))
  /\ fingerprint_of (call (generate_order_independent_fingerprint no_dates)
                          (Frame (nrows scenario_A)
                                 [("a", ObjectCol [Some "x"; Some "y"]);
                                  ("b", Int64Col [1; 2])]))
     = fingerprint_of (call (generate_order_independent_fingerprint no_dates) scenario_A).
Proof.
  apply (fingerprints_column_order no_dates scenario_A).
  - split; [nodup_tac|]. repeat constructor.
  - apply perm_swap.
Defined.

(** ** Timestamps as text and back *)

Lemma match_classes_app cls s m r rest :
  match_classes cls s = Some (m, r) -> match_classes cls (s ++ rest) = Some (m, r ++ rest).
Proof.
  revert s m r. induction cls as [|p cls IH]; intros s m r; simpl.
  - by intros [= <- <-].
  - destruct s as [|c s]; [done|]. simpl. destruct (p c); [|done].
    destruct (match_classes cls s) as [[m' r']|] eqn:E; [|done].
    intros [= <- <-]. by rewrite (IH _ _ _ E).
Qed.

Lemma match_classes_app_None cls s rest :
  match_classes cls s = None -> (length cls <= length s)%nat ->
  match_classes cls (s ++ rest) = None.
Proof.
  revert s. induction cls as [|p cls IH]; intros s; simpl; [done|].
  destruct s as [|c s]; simpl; [lia|]. destruct (p c); [|done].
  destruct (match_classes cls s) as [[m' r']|] eqn:E; [done|].
  intros _ Hlen. rewrite IH; [done|done|lia].
Qed.

Lemma find_alt_app alts s m rest :
  find_alt alts s = Some (m, []) ->
  forallb (fun cls => (length cls <=? length s)%nat) alts = true ->
  find_alt alts (s ++ rest) = Some (m, rest).
Proof.
  induction alts as [|cls alts IH]; simpl; [done|].
  intros H [Hc Ha]%andb_true_iff. apply Nat.leb_le in Hc.
  destruct (match_classes cls s) as [[m' r']|] eqn:E.
  - injection H as -> ->. by rewrite (match_classes_app _ _ _ _ rest E).
  - rewrite (match_classes_app_None _ _ rest E Hc). by apply IH.
Qed.

Lemma starts_nil s fs : starts [] s fs (fs, s).
Proof. by exists []. Qed.

Lemma starts_Lit c ds s fs x : starts ds s fs x -> starts (Lit c :: ds) (c :: s) fs x.
Proof. intros [tail H]. exists tail. simpl. by rewrite Ascii.eqb_refl. Qed.

Lemma starts_Num i alts ds s fs m r x :
  find_alt alts s = Some (m, r) ->
  starts ds r (set_field i (int_of m) fs) x ->
  starts (Num i alts :: ds) s fs x.
Proof.
  intros Hf [tail Ht]. unfold starts. cbn [matches].
  induction alts as [|cls alts IH]; [done|]. cbn [flat_map]. simpl in Hf.
  destruct (match_classes cls s) as [[m' r']|] eqn:E.
  - injection Hf as -> ->. rewrite Ht. eexists. simpl. reflexivity.
  - by apply IH.
Qed.

Lemma starts_Blank ds c d s fs x :
  isspace c = true -> isspace d = false ->
  starts ds (d :: s) fs x -> starts (Blank :: ds) (c :: d :: s) fs x.
Proof.
  intros Hc Hd [tail Ht]. exists tail. cbn [matches blank_splits].
  rewrite Hc, Hd. cbn [app flat_map]. by rewrite app_nil_r.
Qed.

(** The fields written with leading zeros are read back, over the ranges
    of a timestamp. *)
Lemma fields_ok :
  forallb (field_ok re_Y 4) (seqZ 1677 586)
  && forallb (field_ok re_m 2) (seqZ 1 12)
  && forallb (field_ok re_d 2) (seqZ 1 31)
  && forallb (field_ok re_H 2) (seqZ 0 24)
  && forallb (field_ok re_M 2) (seqZ 0 60)
  && forallb (field_ok re_S 2) (seqZ 0 60) = true.
Proof. vm_compute. reflexivity. Qed.

Lemma field_ok_range alts w lo n v :
  forallb (field_ok alts w) (seqZ lo n) = true -> lo <= v < lo + n ->
  field_ok alts w v = true.
Proof.
  intros H Hv. apply (proj1 (forallb_forall _ _) H). apply list_elem_of_In.
  apply elem_of_seqZ. lia.
Qed.

Lemma field_ok_elim alts w v rest :
  field_ok alts w v = true ->
  exists m, find_alt alts (chars (zfill w v) ++ rest) = Some (m, rest)
            /\ int_of m = v
            /\ exists c s, chars (zfill w v) = c :: s /\ isspace c = false.
Proof.
  unfold field_ok. destruct (find_alt alts (chars (zfill w v))) as [[m [|? ?]]|] eqn:E;
    [|done|done].
  intros [[Hv Hlen]%andb_true_iff Hsp]%andb_true_iff. exists m.
  split; [by apply find_alt_app|]. split; [by apply Z.eqb_eq|].
  pose proof (zfill_nonempty w v) as Hne.
  destruct (chars (zfill w v)) as [|c s]; [done|]. exists c, s. split; [done|].
  simpl in Hsp. apply andb_true_iff in Hsp as [Hc _]. by destruct (isspace c).
Qed.

Lemma chars_strftime t :
  chars (strftime "%Y-%m-%d %H:%M:%S" t)
  = chars (zfill 4 (year t)) ++ "-"%char :: chars (zfill 2 (month t)) ++ "-"%char
      :: chars (zfill 2 (day t)) ++ " "%char :: chars (zfill 2 (hour t)) ++ ":"%char
      :: chars (zfill 2 (minute t)) ++ ":"%char :: chars (zfill 2 (second t)) ++ [].
Proof.
  unfold strftime. cbn [chars strftime_chars Ascii.eqb Bool.eqb].
  repeat (rewrite chars_app; cbn [chars]). reflexivity.
Qed.

Lemma days_in_month_le y m : days_in_month y m <= 31.
Proof.
  unfold days_in_month. destruct (m =? 2); [destruct (is_leap y); lia|].
  destruct (_ || _); lia.
Qed.

(** The ranges of the fields of a timestamp. *)
Lemma is_timestamp_ranges t :
  is_timestamp t ->
  1677 <= year t < 1677 + 586 /\ 1 <= month t < 1 + 12 /\ 1 <= day t < 1 + 31
  /\ 0 <= hour t < 0 + 24 /\ 0 <= minute t < 0 + 60 /\ 0 <= second t < 0 + 60.
Proof.
  intros (Hv & HH & HM & HS). unfold valid_datetime in Hv.
  repeat (apply andb_true_iff in Hv as [Hv ?]).
  repeat match goal with H : (_ <=? _) = true |- _ => apply Z.leb_le in H end.
  pose proof (days_in_month_le (year t) (month t)).
  assert (1677 <= year t <= 2262); [|lia].
  match goal with H : in_bounds t = true |- _ => unfold in_bounds in H;
    apply andb_true_iff in H as [Hlo Hhi] end.
  unfold dt_key in Hlo, Hhi. cbn [lex_leb] in Hlo, Hhi.
  apply orb_true_iff in Hlo as [Hlo|[Hlo _]%andb_true_iff];
    apply orb_true_iff in Hhi as [Hhi|[Hhi _]%andb_true_iff];
    rewrite ?Z.ltb_lt, ?Z.eqb_eq in Hlo, Hhi; lia.
Qed.

Lemma strptime_reads_strftime (t : datetime) :
  is_timestamp t ->
  strptime "%Y-%m-%d %H:%M:%S" (strftime "%Y-%m-%d %H:%M:%S" t) = Some t.
Proof.
  intros Ht. pose proof (is_timestamp_ranges t Ht) as (HY & Hm & Hd & HH & HM & HS).
  pose proof fields_ok as Hok.
  apply andb_true_iff in Hok as [Hok OkS]. apply andb_true_iff in Hok as [Hok OkM].
  apply andb_true_iff in Hok as [Hok OkH]. apply andb_true_iff in Hok as [Hok Okd].
  apply andb_true_iff in Hok as [OkY Okm].
  unfold strptime. rewrite chars_strftime.
  change (compile_format (chars "%Y-%m-%d %H:%M:%S"))
    with [Num 0 re_Y; Lit "-"; Num 1 re_m; Lit "-"; Num 2 re_d; Blank;
          Num 3 re_H; Lit ":"; Num 4 re_M; Lit ":"; Num 5 re_S].
  destruct (field_ok_elim re_H 2 (hour t)
              (":"%char :: chars (zfill 2 (minute t)) ++ ":"%char
                 :: chars (zfill 2 (second t)) ++ [])
              (field_ok_range _ _ _ _ _ OkH HH))
    as (mH & HfH & HiH & cH & sH & HcH & HspH).
  assert (Hstarts : starts
            [Num 0 re_Y; Lit "-"; Num 1 re_m; Lit "-"; Num 2 re_d; Blank;
             Num 3 re_H; Lit ":"; Num 4 re_M; Lit ":"; Num 5 re_S]
            (chars (zfill 4 (year t)) ++ "-"%char :: chars (zfill 2 (month t)) ++ "-"%char
               :: chars (zfill 2 (day t)) ++ " "%char :: chars (zfill 2 (hour t)) ++ ":"%char
               :: chars (zfill 2 (minute t)) ++ ":"%char :: chars (zfill 2 (second t)) ++ [])
            [1900; 1; 1; 0; 0; 0]
            ([year t; month t; day t; hour t; minute t; second t], [])).
  { destruct (field_ok_elim re_Y 4 (year t)
                ("-"%char :: chars (zfill 2 (month t)) ++ "-"%char
                   :: chars (zfill 2 (day t)) ++ " "%char :: chars (zfill 2 (hour t))
                   ++ ":"%char :: chars (zfill 2 (minute t)) ++ ":"%char
                   :: chars (zfill 2 (second t)) ++ [])
                (field_ok_range _ _ _ _ _ OkY HY)) as (m0 & Hf0 & Hi0 & _).
    eapply starts_Num; [exact Hf0|]. rewrite Hi0. apply starts_Lit.
    destruct (field_ok_elim re_m 2 (month t)
                ("-"%char :: chars (zfill 2 (day t)) ++ " "%char :: chars (zfill 2 (hour t))
                   ++ ":"%char :: chars (zfill 2 (minute t)) ++ ":"%char
                   :: chars (zfill 2 (second t)) ++ [])
                (field_ok_range _ _ _ _ _ Okm Hm)) as (m1 & Hf1 & Hi1 & _).
    eapply starts_Num; [exact Hf1|]. rewrite Hi1. apply starts_Lit.
    destruct (field_ok_elim re_d 2 (day t)
                (" "%char :: chars (zfill 2 (hour t))
                   ++ ":"%char :: chars (zfill 2 (minute t)) ++ ":"%char
                   :: chars (zfill 2 (second t)) ++ [])
                (field_ok_range _ _ _ _ _ Okd Hd)) as (m2 & Hf2 & Hi2 & _).
    eapply starts_Num; [exact Hf2|]. rewrite Hi2.
    revert HfH. rewrite HcH. cbn [app]. intros HfH.
    apply starts_Blank; [done|done|].
    eapply starts_Num; [exact HfH|]. rewrite HiH. apply starts_Lit.
    destruct (field_ok_elim re_M 2 (minute t)
                (":"%char :: chars (zfill 2 (second t)) ++ [])
                (field_ok_range _ _ _ _ _ OkM HM)) as (m4 & Hf4 & Hi4 & _).
    eapply starts_Num; [exact Hf4|]. rewrite Hi4. apply starts_Lit.
    destruct (field_ok_elim re_S 2 (second t) []
                (field_ok_range _ _ _ _ _ OkS HS)) as (m5 & Hf5 & Hi5 & _).
    eapply starts_Num; [exact Hf5|]. rewrite Hi5. apply starts_nil. }
  destruct Hstarts as [tail ->]. destruct Ht as [Hv _]. clear -Hv. destruct t. simpl in *.
  by rewrite Hv.
Qed.

(** A timestamp written in the canonical format is read back by that
    format as the same timestamp, and its text has no blanks around it:
    trimming leaves it as it is. *)
Theorem strptime_strftime (t : datetime) :
  is_timestamp t ->
  strptime "%Y-%m-%d %H:%M:%S" (strftime "%Y-%m-%d %H:%M:%S" t) = Some t
  /\ strip (strftime "%Y-%m-%d %H:%M:%S" t) = strftime "%Y-%m-%d %H:%M:%S" t.
Proof.
  intros Ht. split; [by apply strptime_reads_strftime|apply strip_strftime].
Qed.

Lemma strptime_strftime_witness :
  strptime "%Y-%m-%d %H:%M:%S" (strftime "%Y-%m-%d %H:%M:%S" (DT 2023 1 5 7 30 0))
  = Some (DT 2023 1 5 7 30 0)
  /\ strip (strftime "%Y-%m-%d %H:%M:%S" (DT 2023 1 5 7 30 0))
     = strftime "%Y-%m-%d %H:%M:%S" (DT 2023 1 5 7 30 0).
Proof.
  apply (strptime_strftime (DT 2023 1 5 7 30 0)).
  unfold is_timestamp. simpl. repeat split; (reflexivity || lia).
Defined.

(** ** What the formats read is a timestamp *)

Lemma int_of_nonneg l : 0 <= int_of l.
Proof.
  unfold int_of. assert (H : forall acc, 0 <= acc ->
    0 <= fold_left (fun acc c => if isdigit c then acc * 10 + (ord c - 48) else acc) l acc);
    [|by apply H].
  induction l as [|c l IH]; intros acc Hacc; simpl; [done|].
  apply IH. destruct (isdigit c) eqn:E; [|done].
  unfold isdigit, in_range in E. apply andb_true_iff in E as [E _].
  apply Z.leb_le in E. change (ord "0") with 48 in E. lia.
Qed.

Lemma matches_nonneg ds : forall s fs x,
  Forall (fun v => 0 <= v) fs -> x ∈ matches ds s fs -> Forall (fun v => 0 <= v) x.1.
Proof.
  induction ds as [|d ds IH]; intros s fs x Hfs; cbn [matches].
  - by intros ->%list_elem_of_singleton.
  - destruct d as [i alts| |c].
    + intros (cls & _ & Hx%list_elem_of_In)%list_elem_of_In%in_flat_map.
      destruct (match_classes cls s) as [[m r]|]; [|by apply elem_of_nil in Hx].
      apply (IH _ _ _ (Forall_insert _ _ _ _ Hfs (int_of_nonneg m)) Hx).
    + intros (r & _ & Hx%list_elem_of_In)%list_elem_of_In%in_flat_map.
      by apply (IH _ _ _ Hfs Hx).
    + destruct s as [|c0 s]; [by intros ?%elem_of_nil|].
      destruct (Ascii.eqb c0 c); [|by intros ?%elem_of_nil]. by apply IH.
Qed.

Lemma strptime_is_timestamp fmt s t : strptime fmt s = Some t -> is_timestamp t.
Proof.
  unfold strptime.
  destruct (matches _ _ _) as [|[fs r] tail] eqn:E; [done|].
  assert (Hfs : Forall (fun v => 0 <= v) fs).
  { apply (matches_nonneg (compile_format (chars fmt)) (chars s) [1900; 1; 1; 0; 0; 0] (fs, r)).
    - repeat constructor; lia.
    - rewrite E. left. }
  destruct fs as [|fY [|fm [|fd [|fH [|fM [|fS [|? ?]]]]]]]; try done.
  destruct r; [|done].
  destruct (valid_datetime _) eqn:Hv; [|done]. intros [= <-].
  repeat (apply Forall_cons in Hfs as [? Hfs]). by repeat split.
Qed.

(** ** Fingerprinting a table a second time *)

(** A text that starts with a digit does not stand for a missing value. *)
Lemma digit_head_not_nat c s : isdigit c = true -> is_nat_text (String c s) = false.
Proof.
  intros Hc. unfold is_nat_text, nat_strings. simpl.
  destruct (Ascii.eqb c "N") eqn:E1;
    [apply Ascii.eqb_eq in E1; subst c; by vm_compute in Hc|].
  destruct (Ascii.eqb c "n") eqn:E2;
    [apply Ascii.eqb_eq in E2; subst c; by vm_compute in Hc|].
  reflexivity.
Qed.

Lemma strftime_not_nat t : is_nat_text (strftime "%Y-%m-%d %H:%M:%S" t) = false.
Proof.
  rewrite <- (of_chars_chars (strftime _ t)), chars_strftime.
  pose proof (zfill_digits 4 (year t)) as Hd. pose proof (zfill_nonempty 4 (year t)) as Hne.
  destruct (chars (zfill 4 (year t))) as [|c l]; [done|].
  apply Forall_cons in Hd as [Hc _]. simpl. by apply digit_head_not_nat.
Qed.

Lemma to_datetime_format_strftime vals :
  timestamps vals ->
  to_datetime_format "%Y-%m-%d %H:%M:%S"
    ((fun v : option datetime => strftime "%Y-%m-%d %H:%M:%S" <$> v) <$> vals)
  = Some vals.
Proof.
  intros H. apply mapM_Some_2, Forall2_fmap_l, Forall_Forall2_diag.
  eapply Forall_impl; [exact H|]. intros [t|] Ht; simpl; [|done].
  by rewrite strftime_not_nat, (strptime_reads_strftime t Ht).
Qed.

Lemma first_format_strftime vals :
  timestamps vals ->
  first_format datetime_formats
    ((fun v : option datetime => strftime "%Y-%m-%d %H:%M:%S" <$> v) <$> vals)
  = Some ("%Y-%m-%d %H:%M:%S", vals).
Proof.
  intros H. unfold datetime_formats. cbn [first_format].
  by rewrite (to_datetime_format_strftime vals H).
Qed.

Lemma to_datetime_format_timestamps fmt vals parsed :
  to_datetime_format fmt vals = Some parsed -> timestamps parsed.
Proof.
  intros H%mapM_Some_1. induction H as [|v p vals parsed Hv _ IH]; [constructor|].
  constructor; [|done]. destruct v as [s|]; simpl in Hv.
  - destruct (is_nat_text s); [by injection Hv as <-|].
    destruct (strptime fmt s) as [t|] eqn:E; [|done]. injection Hv as <-.
    by apply strptime_is_timestamp with fmt s.
  - by injection Hv as <-.
Qed.

Lemma first_format_timestamps fmts vals fmt parsed :
  first_format fmts vals = Some (fmt, parsed) -> timestamps parsed.
Proof.
  induction fmts as [|f fmts IH]; simpl; [done|].
  destruct (to_datetime_format f vals) as [p|] eqn:E; [|done].
  intros [= <- <-]. by apply to_datetime_format_timestamps with f vals.
Qed.

Lemma detect_timestamps infer vals parsed :
  reads_timestamps infer -> detect infer vals = Some parsed -> timestamps parsed.
Proof.
  intros Hinfer. unfold detect.
  destruct (first_format datetime_formats vals) as [[fmt p]|] eqn:E.
  - intros [= <-]. by apply first_format_timestamps in E.
  - destruct (PrimFloat.leb _ _); [|done]. intros [= <-].
    unfold to_datetime_coerce. apply Forall_fmap, Forall_forall.
    intros [s|] _; simpl; [|done]. destruct (infer vals s) as [t|] eqn:Et; [|done].
    by apply Hinfer with vals s.
Qed.

Lemma formatted_column_idem infer vals :
  timestamps vals ->
  standardized_column infer false (dt_strftime "%Y-%m-%d %H:%M:%S" vals)
  = dt_strftime "%Y-%m-%d %H:%M:%S" vals.
Proof.
  intros H. unfold standardized_column, dt_strftime, parsed_column, detect.
  by rewrite (first_format_strftime vals H).
Qed.

(** Standardising a standardised column changes nothing. *)
Lemma standardized_column_idem infer c :
  reads_timestamps infer -> timestamps_col c ->
  standardized_column infer false (standardized_column infer false c)
  = standardized_column infer false c.
Proof.
  intros Hinfer Hc. destruct c as [vals|vals|vals|vals]; try done.
  - destruct (detect infer vals) as [parsed|] eqn:E.
    + assert (E2 : standardized_column infer false (ObjectCol vals)
                   = dt_strftime "%Y-%m-%d %H:%M:%S" parsed)
        by (unfold standardized_column, parsed_column; by rewrite E).
      rewrite E2. apply formatted_column_idem. by apply detect_timestamps with infer vals.
    + assert (E2 : standardized_column infer false (ObjectCol vals) = ObjectCol vals)
        by (unfold standardized_column, parsed_column; by rewrite E).
      by rewrite !E2.
  - by apply formatted_column_idem.
Qed.

Lemma standardized_idem infer df :
  reads_timestamps infer -> Forall (fun nc => timestamps_col nc.2) (columns df) ->
  standardized infer false (standardized infer false df) = standardized infer false df.
Proof.
  intros Hinfer Hcols. unfold standardized, map_columns. cbn [nrows columns]. f_equal.
  rewrite <- list_fmap_compose. apply fmap_ext_in. intros [n c] Hin. simpl. f_equal.
  apply standardized_column_idem; [done|].
  by apply (proj1 (Forall_forall _ _) Hcols (n, c)).
Qed.

Lemma col_length_standardized_column infer b c :
  col_length (standardized_column infer b c) = col_length c.
Proof.
  unfold standardized_column, parsed_column.
  destruct c as [vals|vals|vals|vals]; simpl; rewrite ?length_fmap; try done.
  destruct (detect infer vals) as [parsed|] eqn:E; simpl; rewrite ?length_fmap; [|done].
  by apply length_detect with infer.
Qed.

Lemma wf_standardized infer b df : wf df -> wf (standardized infer b df).
Proof.
  intros [Hnd Hlen]. split.
  - unfold labels, standardized, map_columns. cbn [columns].
    by rewrite (labels_fmap_snd (fun _ c => standardized_column infer b c)).
  - unfold standardized, map_columns. cbn [columns nrows]. apply Forall_fmap.
    eapply Forall_impl; [exact Hlen|]. intros [n c] Hc. simpl in *.
    by rewrite col_length_standardized_column.
Qed.

Lemma canonical_standardized infer df :
  reads_timestamps infer -> Forall (fun nc => timestamps_col nc.2) (columns df) ->
  canonical infer (standardized infer false df) = canonical infer df.
Proof.
  intros Hinfer Hcols. unfold canonical, trimmed_rounded, reindexed.
  by rewrite (standardized_idem infer df Hinfer Hcols).
Qed.

(** The table a call leaves with the caller has the same fingerprints as
    the table before the call, and a second call leaves it as it is: the
    timestamps written as text are read back by the first explicit
    format. *)
Theorem fingerprints_of_the_table_left
        (infer : date_reader) (df : DataFrame) :
  wf df -> reads_timestamps infer ->
  Forall (fun nc => timestamps_col nc.2) (columns df) ->
  exists df',
    table_after (call (generate_order_dependent_fingerprint infer) df) = Some df'
    /\ table_after (call (generate_order_independent_fingerprint infer) df) = Some df'
    /\ is_Some (fingerprint_of (call (generate_order_dependent_fingerprint infer) df))
    /\ fingerprint_of (call (generate_order_dependent_fingerprint infer) df')
       = fingerprint_of (call (generate_order_dependent_fingerprint infer) df)
    /\ is_Some (fingerprint_of (call (generate_order_independent_fingerprint infer) df))
    /\ fingerprint_of (call (generate_order_independent_fingerprint infer) df')
       = fingerprint_of (call (generate_order_independent_fingerprint infer) df)
    /\ table_after (call (generate_order_dependent_fingerprint infer) df') = Some df'
    /\ table_after (call (generate_order_independent_fingerprint infer) df') = Some df'.
Proof.
  intros Hwf Hinfer Hcols. exists (standardized infer false df).
  pose proof (wf_standardized infer false df Hwf) as Hwf'.
  rewrite !(call_order_dependent infer _ (proj1 Hwf)).
  rewrite !(call_order_dependent infer _ (proj1 Hwf')).
  rewrite !(order_independent_fingerprint_value infer _ Hwf).
  rewrite !(order_independent_fingerprint_value infer _ Hwf').
  rewrite (canonical_standardized infer df Hinfer Hcols).
  unfold table_after, fingerprint_of. cbn [fmap option_fmap option_map mbind option_bind snd].
  unfold heap_after. cbn [lookup list_lookup insert list_insert app].
  rewrite (standardized_idem infer df Hinfer Hcols).
  by repeat split.
Qed.

Lemma fingerprints_of_the_table_left_witness :
  exists df',
    table_after (call (generate_order_dependent_fingerprint no_dates) dated_table) = Some df'
    /\ table_after (call (generate_order_independent_fingerprint no_dates) dated_table)
       = Some df'
    /\ is_Some (fingerprint_of (call (generate_order_dependent_fingerprint no_dates)
                                     dated_table))
    /\ fingerprint_of (call (generate_order_dependent_fingerprint no_dates) df')
       = fingerprint_of (call (generate_order_dependent_fingerprint no_dates) dated_table)
    /\ is_Some (fingerprint_of (call (generate_order_independent_fingerprint no_dates)
                                     dated_table))
    /\ fingerprint_of (call (generate_order_independent_fingerprint no_dates) df')
       = fingerprint_of (call (generate_order_independent_fingerprint no_dates) dated_table)
    /\ table_after (call (generate_order_dependent_fingerprint no_dates) df') = Some df'
    /\ table_after (call (generate_order_independent_fingerprint no_dates) df') = Some df'.
Proof.
  apply (fingerprints_of_the_table_left no_dates dated_table).
  - split; [nodup_tac|]. repeat constructor.
  - intros vals s t H. discriminate H.
  - repeat constructor.
Defined.

(** ** Missing values *)

Lemma is_nan_eq x : PrimFloat.is_nan x = true -> x = PrimFloat.nan.
Proof.
  unfold PrimFloat.is_nan. rewrite FloatAxioms.eqb_spec. intros H.
  apply Prim2SF_inj. change (Prim2SF PrimFloat.nan) with S754_nan.
  destruct (Prim2SF x) as [s|s| |s m e]; [by destruct s|by destruct s|done|].
  exfalso. revert H. unfold SFeqb, SFcompare.
  rewrite Z.compare_refl. change (PosDef.Pos.compare_cont Eq m m) with (Pos.compare m m).
  rewrite Pos.compare_refl. by destruct s.
Qed.

(** A missing cell, whatever the type of its column, becomes the empty
    text in the canonical table. *)
Theorem missing_cell_is_empty
        (infer : date_reader) (df : DataFrame) (col : string)
        (c : column) (i : nat) :
  wf df -> lookup_col col (columns df) = Some c -> is_missing c i ->
  canonical_cell infer df col i = Some EmptyString.
Proof.
  intros Hwf Hc Hi. rewrite (canonical_cell_eq infer df col c i (proj1 Hwf) Hc).
  unfold canonical_texts, standardized_column, parsed_column.
  destruct c as [vals|vals|vals|vals]; simpl in Hi.
  - destruct (detect infer vals) as [parsed|] eqn:E.
    + assert (Hp : parsed !! i = Some None).
      { revert E. unfold detect.
        destruct (first_format datetime_formats vals) as [[fmt p]|] eqn:Ef.
        - intros [= <-]. apply first_format_Some in Ef as (b & a & _ & _ & Ef).
          apply to_datetime_format_Some in Ef as [_ ->]. unfold parse_each.
          by rewrite list_lookup_fmap, Hi.
        - destruct (PrimFloat.leb _ _); [|done]. intros [= <-].
          unfold to_datetime_coerce. by rewrite list_lookup_fmap, Hi. }
      simpl. by rewrite !list_lookup_fmap, Hp.
    + simpl. by rewrite !list_lookup_fmap, Hi.
  - done.
  - destruct Hi as (x & Hi & Hnan). simpl. rewrite !list_lookup_fmap, Hi.
    by rewrite (is_nan_eq x Hnan).
  - simpl. by rewrite !list_lookup_fmap, Hi.
Qed.

Lemma missing_cell_is_empty_witness :
  canonical_cell no_dates (one_column (Float64Col [0.5%float; PrimFloat.nan])) "v" 1
  = Some EmptyString.
Proof.
  apply (missing_cell_is_empty no_dates (one_column (Float64Col [0.5%float; PrimFloat.nan]))
           "v" (Float64Col [0.5%float; PrimFloat.nan]) 1).
  - split; [nodup_tac|]. repeat constructor.
  - reflexivity.
  - exists PrimFloat.nan. split; reflexivity.
Defined.

(** ** The sample of the decimal separator detector *)

Lemma is_evidence_has_sep sep value :
  is_evidence sep value = true -> sep ∈ chars value.
Proof.
  rewrite is_evidence_split. intros H.
  destruct (existsb (Ascii.eqb sep) (clean value)) eqn:E.
  - apply existsb_exists in E as (c & Hc & Heq). apply Ascii.eqb_eq in Heq. subst c.
    unfold clean in Hc. apply filter_In in Hc as [Hc _]. by apply list_elem_of_In.
  - destruct (split_on_absent _ _ E) as [p Hp]. by rewrite Hp in H.
Qed.

Lemma evidence_count_zero sep rows :
  (forall row value, row ∈ rows -> value ∈ row -> sep ∉ chars value) ->
  evidence_count sep rows = 0%nat.
Proof.
  intros H. unfold evidence_count.
  assert (E : List.filter (is_evidence sep) (concat rows) = []); [|by rewrite E].
  induction rows as [|row rows IH]; [done|]. cbn [concat].
  rewrite List.filter_app, IH by (intros r v Hr; apply H; by right).
  rewrite app_nil_r. assert (Hrow : forall value, value ∈ row -> sep ∉ chars value)
    by (intros v; apply H; left).
  clear -Hrow. induction row as [|v row IH]; [done|]. simpl.
  destruct (is_evidence sep v) eqn:E.
  - exfalso. apply (Hrow v); [left|]. by apply is_evidence_has_sep.
  - apply IH. intros v' Hv'. apply Hrow. by right.
Qed.

Lemma detect_decimal_separator_counts (reader : list (list string)) :
  detect_decimal_separator reader = described_separator reader.
Proof.
  unfold detect_decimal_separator, described_separator, sample.
  destruct (fold_count_row_lookup (take 10 (drop 1 reader))
              (<["," := 0%nat]> (<["." := 0%nat]> ∅))) as [-> ->].
  by rewrite lookup_total_insert_eq, lookup_total_insert_ne, lookup_total_insert_eq.
Qed.

(** The detector looks at no more than the ten records after the header:
    the header and the records after the tenth do not change what it
    returns.  It returns the comma only when a sampled cell has one. *)
Theorem detect_decimal_separator_sample
        (header header' : list string) (rows more : list (list string)) :
  (length rows = 10%nat ->
   detect_decimal_separator (header :: rows ++ more)
   = detect_decimal_separator (header' :: rows))
  /\ detect_decimal_separator (header :: rows) = detect_decimal_separator (header' :: rows)
  /\ ((forall row value, row ∈ take 10 rows -> value ∈ row -> ","%char ∉ chars value) ->
      detect_decimal_separator (header :: rows) = ".")
  /\ detect_decimal_separator [] = "."
  /\ detect_decimal_separator [header] = ".".
Proof.
  split; [|split; [|split; [|split]]].
  - intros Hlen.
    rewrite (detect_decimal_separator_counts (header :: rows ++ more)).
    rewrite (detect_decimal_separator_counts (header' :: rows)).
    unfold described_separator, sample. cbn [drop]. rewrite !drop_0.
    rewrite take_app_length' by done. rewrite take_ge by lia. done.
  - rewrite (detect_decimal_separator_counts (header :: rows)).
    by rewrite (detect_decimal_separator_counts (header' :: rows)).
  - intros H. rewrite (detect_decimal_separator_counts (header :: rows)).
    unfold described_separator, sample. cbn [drop]. rewrite !drop_0.
    by rewrite (evidence_count_zero ","%char (take 10 rows) H).
  - reflexivity.
  - reflexivity.
Qed.

(** ** Loading a file *)

Lemma try_loaders_Some loaders path df :
  try_loaders loaders path = Some df
  <-> exists before name loader after,
        loaders = before ++ (name, loader) :: after
        /\ Forall (no_table path) before
        /\ loader path = Some (Some df).
Proof.
  induction loaders as [|[n l] loaders IH]; simpl.
  - split; [done|]. intros (b & ? & ? & ? & H & _). by destruct b.
  - destruct (l path) as [[d|]|] eqn:E.
    + split.
      * intros [= <-]. exists [], n, l, loaders. by repeat split.
      * intros ([|[n' l'] b] & n0 & l0 & a & H & Hb & Hs).
        -- injection H as <- <- <-. congruence.
        -- injection H as <- <- ->. apply Forall_cons in Hb as [Hb _].
           by destruct (Hb d).
    + rewrite IH. split.
      * intros (b & n0 & l0 & a & -> & Hb & Hs). exists ((n, l) :: b), n0, l0, a.
        repeat split; [|done]. constructor; [|done]. intros df'. simpl. by rewrite E.
      * intros ([|[n' l'] b] & n0 & l0 & a & H & Hb & Hs).
        -- injection H as <- <- <-. congruence.
        -- injection H as <- <- ->. apply Forall_cons in Hb as [_ Hb].
           by exists b, n0, l0, a.
    + rewrite IH. split.
      * intros (b & n0 & l0 & a & -> & Hb & Hs). exists ((n, l) :: b), n0, l0, a.
        repeat split; [|done]. constructor; [|done]. intros df'. simpl. by rewrite E.
      * intros ([|[n' l'] b] & n0 & l0 & a & H & Hb & Hs).
        -- injection H as <- <- <-. congruence.
        -- injection H as <- <- ->. apply Forall_cons in Hb as [_ Hb].
           by exists b, n0, l0, a.
Qed.

Lemma try_loaders_None loaders path :
  try_loaders loaders path = None <-> Forall (no_table path) loaders.
Proof.
  induction loaders as [|[n l] loaders IH]; simpl; [by split; [constructor|]|].
  rewrite Forall_cons. unfold no_table at 1. simpl.
  destruct (l path) as [[d|]|] eqn:E.
  - split; [done|]. intros [H _]. by destruct (H d).
  - rewrite IH. split; [|by intros [_ ?]]. intros H. split; [|done]. by intros df.
  - rewrite IH. split; [|by intros [_ ?]]. intros H. split; [|done]. by intros df.
Qed.

(** [try_loading_with_guesses] returns the table of the first loader, in
    the order CSV, Excel, JSON, XML, Parquet, Feather, HDF5, Pickle, Stata,
    SAS, SPSS, HTML, that returns one for the file: a loader that raises or
    returns nothing is passed over, and the loaders after the first success
    play no part.  It returns nothing exactly when no loader returns a
    table. *)
Theorem try_loading_with_guesses_first_success (env : readers) (file_path : string) :
  (fst <$> guess_loaders env
   = ["CSV"; "Excel"; "JSON"; "XML"; "Parquet"; "Feather"; "HDF5"; "Pickle"; "Stata";
      "SAS"; "SPSS"; "HTML"])
  /\ (forall df,
        try_loading_with_guesses env file_path = Some df
        <-> exists before name loader after,
              guess_loaders env = before ++ (name, loader) :: after
              /\ Forall (no_table file_path) before
              /\ loader file_path = Some (Some df))
  /\ (try_loading_with_guesses env file_path = None
      <-> Forall (no_table file_path) (guess_loaders env)).
Proof.
  split; [done|]. split.
  - intros df. apply try_loaders_Some.
  - apply try_loaders_None.
Qed.

(** [load_data] by the extension of the path, compared without regard to
    letter case: for an extension it knows, the table is the one its reader
    returns, and [try_loading_with_guesses] is used when that reader raises;
    for any other path the table is the one [try_loading_with_guesses]
    returns.  [load_data] raises only when [try_loading_with_guesses]
    returns nothing. *)
Theorem load_data_by_extension (env : readers) (file_path : string) :
  load_data env file_path
  = match reader_of (lower (splitext file_path).2) (known_extensions env) with
    | Some reader =>
        match reader file_path with
        | Some df => Some df
        | None => try_loading_with_guesses env file_path
        end
    | None => try_loading_with_guesses env file_path
    end
  /\ (load_data env file_path = None -> try_loading_with_guesses env file_path = None).
Proof.
  assert (E : load_data env file_path
    = match reader_of (lower (splitext file_path).2) (known_extensions env) with
      | Some reader =>
          match reader file_path with
          | Some df => Some df
          | None => try_loading_with_guesses env file_path
          end
      | None => try_loading_with_guesses env file_path
      end).
  { unfold load_data, load_by_extension, known_extensions.
    generalize (lower (splitext file_path).2). intros ext. cbn [reader_of].
    repeat (destruct (String.eqb ext _); cbn [orb];
            [match goal with
             | |- context [load_csv env file_path] => by destruct (load_csv env file_path)
             | |- context [read_excel env file_path] => by destruct (read_excel env file_path)
             | |- context [read_json env file_path false] =>
                 by destruct (read_json env file_path false)
             | |- context [read_parquet env file_path] =>
                 by destruct (read_parquet env file_path)
             | |- context [read_feather env file_path] =>
                 by destruct (read_feather env file_path)
             | |- context [read_hdf env file_path] => by destruct (read_hdf env file_path)
             | |- context [read_pickle env file_path] =>
                 by destruct (read_pickle env file_path)
             | |- context [read_stata env file_path] => by destruct (read_stata env file_path)
             | |- context [read_sas env file_path] => by destruct (read_sas env file_path)
             | |- context [read_spss env file_path] => by destruct (read_spss env file_path)
             | |- context [read_xml env file_path] => by destruct (read_xml env file_path)
             | |- context [read_html env file_path] =>
                 by destruct (read_html env file_path) as [[|? ?]|]
             end|]).
    done. }
  split; [done|]. rewrite E.
  destruct (reader_of _ _) as [reader|]; [|done]. by destruct (reader file_path).
Qed.

(** ** The extension of a path *)

Lemma rfind_from_notin c l : forall i found, c ∉ l -> rfind_from c l i found = found.
Proof.
  induction l as [|x l IH]; intros i found Hc; simpl; [done|].
  apply not_elem_of_cons in Hc as [Hx Hl]. rewrite IH by done.
  destruct (Ascii.eqb x c) eqn:E; [|done]. apply Ascii.eqb_eq in E. by subst.
Qed.

Lemma rfind_from_last c a b : forall i found,
  c ∉ b -> rfind_from c (a ++ c :: b) i found = i + Z.of_nat (length a).
Proof.
  induction a as [|x a IH]; intros i found Hc; simpl.
  - rewrite Ascii.eqb_refl, rfind_from_notin by done. lia.
  - rewrite IH by done. lia.
Qed.

Lemma rfind_notin c l : c ∉ l -> rfind c l = (-1).
Proof. apply rfind_from_notin. Qed.

Lemma rfind_last c a b : c ∉ b -> rfind c (a ++ c :: b) = Z.of_nat (length a).
Proof. intros H. unfold rfind. by rewrite rfind_from_last. Qed.

Lemma of_chars_app a b : of_chars (a ++ b) = of_chars a +:+ of_chars b.
Proof. induction a as [|c a IH]; simpl; [done|by rewrite IH]. Qed.

Lemma append_empty s : s +:+ EmptyString = s.
Proof.
  induction s as [|c s IH]; [done|].
  change (String c (s +:+ EmptyString) = String c s). by rewrite IH.
Qed.

(** What [rfind] returns: [-1] when the character is absent, else a
    position that holds it and has none after it. *)
Lemma rfind_spec c l :
  (rfind c l = (-1) /\ c ∉ l)
  \/ exists a b, l = a ++ c :: b /\ (c ∉ b) /\ rfind c l = Z.of_nat (length a).
Proof.
  induction l as [|x l IH] using rev_ind; [left; split; [done|apply not_elem_of_nil]|].
  destruct (decide (x = c)) as [->|Hx].
  - right. exists l, []. split; [done|]. split; [apply not_elem_of_nil|].
    apply rfind_last, not_elem_of_nil.
  - destruct IH as [[Hr Hc]|(a & b & -> & Hb & Hr)].
    + left. assert (Hc' : c ∉ l ++ [x]).
      { intros [H|H]%elem_of_app; [done|]. apply list_elem_of_singleton in H. by subst. }
      split; [by apply rfind_notin|done].
    + right. exists a, (b ++ [x]). rewrite <- app_assoc. split; [done|].
      assert (Hb' : c ∉ b ++ [x]).
      { intros [H|H]%elem_of_app; [done|]. apply list_elem_of_singleton in H. by subst. }
      split; [done|]. by apply rfind_last.
Qed.

(** The two parts [os.path.splitext] returns make up the path; the
    extension is empty, or a dot followed by characters other than the dot
    and the slash. *)
Theorem splitext_parts (p : string) :
  (splitext p).1 +:+ (splitext p).2 = p
  /\ ((splitext p).2 = EmptyString
      \/ exists e, chars (splitext p).2 = "."%char :: e
                   /\ ("."%char ∉ e) /\ ("/"%char ∉ e)).
Proof.
  unfold splitext.
  destruct ((rfind "/" (chars p) <? rfind "." (chars p)) && _) eqn:E; cbn [fst snd].
  2: { split; [apply append_empty|by left]. }
  apply andb_true_iff in E as [Hlt _]. apply Z.ltb_lt in Hlt.
  split.
  - by rewrite <- of_chars_app, take_drop, of_chars_chars.
  - right. destruct (rfind_spec "." (chars p)) as [[Hr _]|(a & b & Hl & Hb & Hr)].
    + rewrite Hr in Hlt. destruct (rfind_spec "/" (chars p)) as [[Hs _]|(? & ? & _ & _ & Hs)];
        lia.
    + exists b. rewrite chars_of_chars, Hr, Nat2Z.id, Hl.
      rewrite drop_app_length. split; [done|]. split; [done|].
      destruct (rfind_spec "/" (chars p)) as [[_ Hs]|(a' & b' & Hl' & Hb' & Hs)].
      * intros Hin. apply Hs. rewrite Hl. apply elem_of_app. right. by right.
      * rewrite Hs, Hr in Hlt. intros Hin.
        assert (Hlen : (length a' < length a)%nat) by lia.
        assert (Hd : drop (S (length a')) (chars p) = b').
        { rewrite Hl'. change ("/"%char :: b') with (["/"%char] ++ b').
          rewrite app_assoc. apply drop_app_length'. rewrite length_app. simpl. lia. }
        assert (Hd' : drop (S (length a')) (chars p)
                      = drop (S (length a')) a ++ "."%char :: b).
        { rewrite Hl. apply drop_app_le. lia. }
        apply Hb'. rewrite <- Hd, Hd'. apply elem_of_app. right. by right.
Qed.

Lemma not_elem_of_app_cons {A} (c x : A) (a b : list A) :
  c ∉ a -> c <> x -> c ∉ b -> c ∉ a ++ x :: b.
Proof.
  intros Ha Hx Hb [H|H]%elem_of_app; [done|].
  apply elem_of_cons in H as [H|H]; done.
Qed.

(** The position of the last slash of a path made of a directory part and
    a name without slash. *)
Lemma rfind_slash dir name :
  is_dir_part dir -> "/"%char ∉ name ->
  rfind "/" (dir ++ name) = Z.of_nat (length dir) - 1.
Proof.
  intros [->|[d ->]] Hn.
  - simpl. by rewrite rfind_notin.
  - rewrite <- app_assoc. cbn [app]. rewrite rfind_last by done.
    rewrite length_app. simpl. lia.
Qed.

Lemma existsb_non_dot stem :
  (exists c, c ∈ stem /\ c <> "."%char) ->
  existsb (fun c => negb (Ascii.eqb c ".")) stem = true.
Proof.
  intros (c & Hc & Hne). apply existsb_exists. exists c.
  split; [by apply list_elem_of_In|].
  destruct (Ascii.eqb c ".") eqn:E; [|done]. by apply Ascii.eqb_eq in E.
Qed.

Lemma existsb_dots dots :
  Forall (fun c => c = "."%char) dots ->
  existsb (fun c => negb (Ascii.eqb c ".")) dots = false.
Proof. induction 1 as [|c dots -> _ IH]; [done|]. simpl. exact IH. Qed.

(** The extension of [dir/stem.e] is [.e], when the stem has a character
    other than the dot and [e] has neither dot nor slash. *)
Lemma splitext_of_name dir stem e :
  is_dir_part dir -> "/"%char ∉ stem -> (exists c, c ∈ stem /\ c <> "."%char) ->
  "."%char ∉ e -> "/"%char ∉ e ->
  splitext (of_chars (dir ++ stem ++ "."%char :: e))
  = (of_chars (dir ++ stem), of_chars ("."%char :: e)).
Proof.
  intros Hdir Hstem Hc He Hs. unfold splitext. rewrite chars_of_chars.
  rewrite (rfind_slash dir (stem ++ "."%char :: e) Hdir)
    by by apply not_elem_of_app_cons.
  rewrite (app_assoc dir stem), rfind_last by done.
  rewrite length_app.
  replace (Z.to_nat (Z.of_nat (length dir) - 1 + 1)) with (length dir) by lia.
  replace (Z.to_nat (Z.of_nat (length dir + length stem) - (Z.of_nat (length dir) - 1 + 1)))
    with (length stem) by lia.
  rewrite <- (app_assoc dir stem), drop_app_length, take_app_length.
  rewrite (existsb_non_dot stem Hc), andb_true_r.
  assert (Hlt : (Z.of_nat (length dir) - 1 <? Z.of_nat (length dir + length stem)) = true).
  { apply Z.ltb_lt. destruct Hc as (c & Hin & _). destruct stem; [by inversion Hin|].
    simpl. lia. }
  rewrite Hlt. rewrite Nat2Z.id.
  rewrite (app_assoc dir stem), <- length_app, take_app_length, drop_app_length. done.
Qed.

(** A name of dots followed by text without dot has no extension. *)
Lemma splitext_no_extension dir dots rest :
  is_dir_part dir -> Forall (fun c => c = "."%char) dots ->
  "."%char ∉ rest -> "/"%char ∉ rest ->
  splitext (of_chars (dir ++ dots ++ rest)) = (of_chars (dir ++ dots ++ rest), EmptyString).
Proof.
  intros Hdir Hdots Hrest Hs. unfold splitext. rewrite chars_of_chars.
  assert (Hsl : "/"%char ∉ dots ++ rest).
  { intros [H|H]%elem_of_app; [|done].
    by apply (proj1 (Forall_forall _ _) Hdots) in H. }
  rewrite (rfind_slash dir (dots ++ rest) Hdir Hsl).
  destruct dots as [|x dots _] using rev_ind.
  - cbn [app]. destruct (rfind_spec "." (dir ++ rest)) as [[-> _]|(a & b & Hl & Hb & Hr)].
    + assert (E : (Z.of_nat (length dir) - 1 <? -1) = false) by (apply Z.ltb_ge; lia).
      by rewrite E.
    + assert (Hlen : (length a < length dir)%nat).
      { destruct (decide (length a < length dir)%nat) as [|Hge]; [done|]. exfalso.
        apply Hrest. assert (Hd : drop (length a) (dir ++ rest) = "."%char :: b)
          by (rewrite Hl; apply drop_app_length).
        rewrite drop_app_ge in Hd by lia.
        apply (subseteq_drop (length a - length dir)%nat rest). rewrite Hd. left. }
      destruct Hdir as [->|[d ->]]; [simpl in Hlen; lia|].
      assert (Hne : length a <> length d).
      { assert (H1 : ((d ++ ["/"%char]) ++ rest) !! length d = Some "/"%char)
          by (rewrite <- app_assoc; by apply list_lookup_middle).
        assert (H2 : ((d ++ ["/"%char]) ++ rest) !! length a = Some "."%char)
          by (rewrite Hl; by apply list_lookup_middle).
        intros Heq. rewrite Heq in H2. congruence. }
      rewrite length_app in *. simpl in *.
      assert (E : (Z.of_nat (length d + 1) - 1 <? rfind "." ((d ++ ["/"%char]) ++ rest))
                  = false)
        by (apply Z.ltb_ge; rewrite Hr; lia).
      by rewrite E.
  - apply Forall_app in Hdots as [Hdots [-> _]%Forall_cons].
    replace (dir ++ (dots ++ ["."%char]) ++ rest)
      with ((dir ++ dots) ++ "."%char :: rest) by by rewrite <- !app_assoc.
    rewrite rfind_last by done. rewrite !length_app.
    replace (Z.to_nat (Z.of_nat (length dir) - 1 + 1)) with (length dir) by lia.
    replace (Z.to_nat (Z.of_nat (length dir + length dots)
                       - (Z.of_nat (length dir) - 1 + 1)))
      with (length dots) by lia.
    rewrite <- (app_assoc dir dots), drop_app_length, take_app_length.
    by rewrite (existsb_dots dots Hdots), andb_false_r.
Qed.

(** [load_data] chooses the reader by the text after the last dot of the
    file name, in any letter case; a name without a dot, or with dots only
    at its start, is given to [try_loading_with_guesses].  The extension is
    ASCII text, on which [lower] is the lowering of Python. *)
Theorem load_data_of_name (env : readers) (dir stem e : list ascii) :
  is_dir_part dir -> "/"%char ∉ stem -> "."%char ∉ e -> "/"%char ∉ e ->
  Forall (fun c => ord c < 128) e ->
  ((exists c, c ∈ stem /\ c <> "."%char) ->
   load_data env (of_chars (dir ++ stem ++ "."%char :: e))
   = load_with env (reader_of (lower (of_chars ("."%char :: e))) (known_extensions env))
               (of_chars (dir ++ stem ++ "."%char :: e)))
  /\ (Forall (fun c => c = "."%char) stem ->
      load_data env (of_chars (dir ++ stem ++ e))
      = try_loading_with_guesses env (of_chars (dir ++ stem ++ e))).
Proof.
  intros Hdir Hstem He Hs _. split.
  - intros Hc. destruct (load_data_by_extension env (of_chars (dir ++ stem ++ "."%char :: e)))
      as [-> _].
    by rewrite (splitext_of_name dir stem e Hdir Hstem Hc He Hs).
  - intros Hdots. destruct (load_data_by_extension env (of_chars (dir ++ stem ++ e)))
      as [-> _].
    by rewrite (splitext_no_extension dir stem e Hdir Hdots He Hs).
Qed.

Lemma load_data_of_name_witness :
  load_data csv_only "data/table.CSV"
  = load_with csv_only (reader_of (lower ".CSV") (known_extensions csv_only))
              "data/table.CSV".
Proof.
  apply (proj1 (load_data_of_name csv_only (chars "data/") (chars "table") (chars "CSV")
                  (or_intror (ex_intro _ (chars "data") eq_refl))
                  ltac:(apply (bool_decide_unpack _); vm_compute; reflexivity)
                  ltac:(apply (bool_decide_unpack _); vm_compute; reflexivity)
                  ltac:(apply (bool_decide_unpack _); vm_compute; reflexivity)
                  ltac:(repeat constructor))).
  exists "t"%char. split; [|discriminate]. apply (bool_decide_unpack _). vm_compute. reflexivity.
Defined.

(** ** The canonical table *)

(** The table both functions hash has the columns of the caller's table in
    the sorted order of their labels and as many rows; every column holds
    one text per row and no missing value. *)
Theorem canonical_table_invariants (infer : date_reader) (df : DataFrame) :
  wf df ->
  exists f,
    canonical_table infer df = Some f
    /\ labels f = sorted (labels df)
    /\ Sorted str_le (labels f)
    /\ labels f ≡ₚ labels df
    /\ nrows f = nrows df
    /\ text_frame f
    /\ wf f.
Proof.
  intros Hwf. exists (canonical infer df).
  split; [by apply canonical_table_eq; apply Hwf|].
  assert (Hl : labels (canonical infer df) = sorted (labels df)).
  { rewrite canonical_columns. unfold labels at 1. cbn [columns].
    rewrite <- list_fmap_compose. apply list_fmap_id. }
  assert (Hn : nrows (canonical infer df) = nrows df) by by rewrite canonical_columns.
  pose proof (canonical_text_frame infer df Hwf) as Ht.
  split; [done|]. rewrite Hl. split; [apply sorted_Sorted|].
  split; [apply sorted_Permutation|]. split; [done|]. split; [done|].
  split.
  - rewrite Hl, (sorted_Permutation (labels df)). apply Hwf.
  - eapply Forall_impl; [exact Ht|]. intros [n c] (ts & Hc & Hlen). simpl in *.
    subst c. simpl. by rewrite length_fmap.
Qed.

Lemma canonical_table_invariants_witness :
  exists f,
    canonical_table no_dates scenario_A = Some f
    /\ labels f = sorted (labels scenario_A)
    /\ Sorted str_le (labels f)
    /\ labels f ≡ₚ labels scenario_A
    /\ nrows f = nrows scenario_A
    /\ text_frame f
    /\ wf f.
Proof.
  apply (canonical_table_invariants no_dates scenario_A).
  split; [nodup_tac|]. repeat constructor.
Defined.

(** ** The six formats read different texts *)












(** The key of each format, and the keys are all different. *)
Lemma format_keys :
  format_key <$> datetime_formats
  = [(false, 2%nat); (true, 2%nat); (false, 1%nat); (true, 1%nat);
     (false, 0%nat); (true, 0%nat)].
Proof. reflexivity. Qed.







(** ** The order of the formats *)







(** ** The CSV text determines the rows *)

Lemma chars_inj s1 s2 : chars s1 = chars s2 -> s1 = s2.
Proof. intros H. by rewrite <- (of_chars_chars s1), <- (of_chars_chars s2), H. Qed.

Lemma after_field_not_quote rest :
  after_field rest -> exists d rest', rest = d :: rest' /\ Ascii.eqb d DQUOTE = false.
Proof. intros (d & r & -> & [->| ->]); by eexists _, _. Qed.

Lemma read_plain_app l rest :
  existsb csv_special l = false -> after_field rest ->
  read_plain (l ++ rest) = (l, rest).
Proof.
  intros Hl (d & r & -> & Hd). induction l as [|c l IH]; simpl.
  - by destruct Hd as [-> | ->].
  - simpl in Hl. apply orb_false_iff in Hl as [Hc Hl]. unfold csv_special in Hc.
    apply orb_false_iff in Hc as [Hc H3]. apply orb_false_iff in Hc as [H1 H2].
    rewrite H1, H3. simpl. by rewrite (IH Hl).
Qed.

Lemma read_quoted_app l rest :
  after_field rest ->
  read_quoted (flat_map (fun c => if Ascii.eqb c DQUOTE then [c; c] else [c]) l
               ++ DQUOTE :: rest)
  = Some (l, rest).
Proof.
  intros (d & r & -> & Hq)%after_field_not_quote. induction l as [|c l IH].
  - simpl. by rewrite Hq.
  - cbn [flat_map]. destruct (Ascii.eqb c DQUOTE) eqn:E.
    + apply Ascii.eqb_eq in E as ->. cbn [app read_quoted].
      change (Ascii.eqb DQUOTE DQUOTE) with true. cbn iota. by rewrite IH.
    + cbn [app read_quoted]. by rewrite E, IH.
Qed.

(** A field is read back from what the writer makes of it. *)
Lemma csv_field_encodes s : encodes (chars (csv_field s)) s.
Proof.
  intros rest Hrest. unfold csv_field.
  destruct (existsb csv_special (chars s)) eqn:E.
  - rewrite chars_of_chars. cbn [app read_field].
    change (Ascii.eqb DQUOTE DQUOTE) with true. cbn iota.
    rewrite <- app_assoc. cbn [app]. by apply read_quoted_app.
  - unfold read_field. destruct (chars s) as [|c l] eqn:El.
    + cbn [app]. destruct (after_field_not_quote rest Hrest) as (d & r & -> & Hq).
      rewrite Hq. destruct Hrest as (d' & r' & [= <- <-] & Hd).
      simpl. by destruct Hd as [-> | ->].
    + cbn [app]. assert (Hc : Ascii.eqb c DQUOTE = false).
      { simpl in E. apply orb_false_iff in E as [E _]. unfold csv_special in E.
        apply orb_false_iff in E as [E _]. by apply orb_false_iff in E as [_ E]. }
      rewrite Hc. by rewrite (app_comm_cons l rest c), (read_plain_app _ _ E Hrest).
Qed.

Lemma empty_field_encodes : encodes [DQUOTE; DQUOTE] EmptyString.
Proof.
  intros rest (d & r & -> & Hq)%after_field_not_quote. cbn [app read_field read_quoted].
  change (Ascii.eqb DQUOTE DQUOTE) with true. cbn iota. by rewrite Hq.
Qed.

Lemma encodes_inj e1 e2 s1 s2 r1 r2 :
  encodes e1 s1 -> encodes e2 s2 -> after_field r1 -> after_field r2 ->
  e1 ++ r1 = e2 ++ r2 -> s1 = s2 /\ r1 = r2.
Proof.
  intros H1 H2 Hr1 Hr2 E. pose proof (H1 r1 Hr1) as E1. rewrite E, (H2 r2 Hr2) in E1.
  injection E1 as Hs ->. split; [by apply chars_inj|done].
Qed.

Lemma record_text_nonempty fields l : record_text fields l -> l <> [] /\ fields <> [].
Proof.
  destruct 1 as [s e He|s e fields l He Hl]; (split; [|done]).
  - by destruct e.
  - by destruct e.
Qed.

Lemma join_csv_record_text fields :
  fields <> [] ->
  record_text fields (chars (join (str1 COMMA) (csv_field <$> fields) +:+ str1 LF)).
Proof.
  induction fields as [|s fields IH]; [done|]. intros _.
  destruct fields as [|s2 fields].
  - cbn [fmap list_fmap join]. rewrite chars_app. apply record_last, csv_field_encodes.
  - change (join (str1 COMMA) (csv_field <$> s :: s2 :: fields))
      with (csv_field s +:+ str1 COMMA +:+ join (str1 COMMA) (csv_field <$> s2 :: fields)).
    replace (chars ((csv_field s +:+ str1 COMMA
                      +:+ join (str1 COMMA) (csv_field <$> s2 :: fields)) +:+ str1 LF))
      with (chars (csv_field s)
            ++ COMMA :: chars (join (str1 COMMA) (csv_field <$> s2 :: fields) +:+ str1 LF))
      by (rewrite !chars_app; cbn [chars str1]; by rewrite <- !app_assoc).
    apply record_more; [apply csv_field_encodes|]. by apply IH.
Qed.

Lemma csv_record_text fields :
  fields <> [] -> record_text fields (chars (csv_record fields)).
Proof.
  intros Hne. destruct fields as [|s [|s2 fields]]; [done| |].
  - unfold csv_record. destruct (String.eqb s EmptyString) eqn:E.
    + apply String.eqb_eq in E as ->. rewrite chars_of_chars.
      apply (record_last EmptyString [DQUOTE; DQUOTE]), empty_field_encodes.
    + rewrite chars_app. apply record_last, csv_field_encodes.
  - by apply (join_csv_record_text (s :: s2 :: fields)).
Qed.

Lemma record_text_inj fields l : record_text fields l -> forall fields' l' t u,
  record_text fields' l' -> l ++ t = l' ++ u -> fields = fields' /\ t = u.
Proof.
  induction 1 as [s e He|s e fields l He Hl IH]; intros fields' l' t u H' E;
    destruct H' as [s' e' He'|s' e' fields' l' He' Hl']; rewrite <- !app_assoc in E;
    cbn [app] in E.
  - destruct (encodes_inj e e' s s' (LF :: t) (LF :: u) He He'
                ltac:(by eexists _, _; eauto) ltac:(by eexists _, _; eauto) E) as [-> [= ->]].
    done.
  - by destruct (encodes_inj e e' s s' (LF :: t) (COMMA :: l' ++ u) He He'
                   ltac:(by eexists _, _; eauto) ltac:(by eexists _, _; eauto) E) as [_ [=]].
  - by destruct (encodes_inj e e' s s' (COMMA :: l ++ t) (LF :: u) He He'
                   ltac:(by eexists _, _; eauto) ltac:(by eexists _, _; eauto) E) as [_ [=]].
  - destruct (encodes_inj e e' s s' (COMMA :: l ++ t) (COMMA :: l' ++ u) He He'
                ltac:(by eexists _, _; eauto) ltac:(by eexists _, _; eauto) E) as [-> [= E']].
    destruct (IH _ _ _ _ Hl' E') as [-> ->]. done.
Qed.

Lemma chars_concat_str x xs : chars (concat_str (x :: xs)) = chars x ++ chars (concat_str xs).
Proof. simpl. apply chars_app. Qed.

(** The text of the records determines them. *)
Lemma csv_records_inj rows1 : forall rows2,
  Forall (fun r => r <> []) rows1 -> Forall (fun r => r <> []) rows2 ->
  concat_str (csv_record <$> rows1) = concat_str (csv_record <$> rows2) ->
  rows1 = rows2.
Proof.
  induction rows1 as [|r1 rows1 IH]; intros [|r2 rows2] H1 H2 E; [done| | |].
  - apply Forall_cons in H2 as [Hr2 _]. apply (f_equal chars) in E.
    rewrite fmap_cons, chars_concat_str in E.
    destruct (record_text_nonempty _ _ (csv_record_text r2 Hr2)) as [Hne _].
    simpl in E. by destruct (chars (csv_record r2)).
  - apply Forall_cons in H1 as [Hr1 _]. apply (f_equal chars) in E.
    rewrite fmap_cons, chars_concat_str in E.
    destruct (record_text_nonempty _ _ (csv_record_text r1 Hr1)) as [Hne _].
    simpl in E. by destruct (chars (csv_record r1)).
  - apply Forall_cons in H1 as [Hr1 H1]. apply Forall_cons in H2 as [Hr2 H2].
    pose proof (f_equal chars E) as E'. rewrite !fmap_cons, !chars_concat_str in E'.
    destruct (record_text_inj _ _ (csv_record_text r1 Hr1) _ _ _ _
                (csv_record_text r2 Hr2) E') as [-> Et].
    f_equal. apply IH; [done|done|]. by apply chars_inj.
Qed.

Lemma to_csv_rows (f1 f2 : DataFrame) :
  columns f1 <> [] -> columns f2 <> [] -> to_csv f1 = to_csv f2 ->
  csv_row f1 <$> seq 0 (nrows f1) = csv_row f2 <$> seq 0 (nrows f2).
Proof.
  intros H1 H2 E. apply csv_records_inj.
  - apply Forall_fmap, Forall_forall. intros i _. simpl. unfold csv_row.
    by destruct (columns f1).
  - apply Forall_fmap, Forall_forall. intros i _. simpl. unfold csv_row.
    by destruct (columns f2).
  - unfold to_csv in E. by rewrite <- !list_fmap_compose.
Qed.

(** Two tables with at least one column and the same CSV text have as
    many rows and the same rows of text. *)
Theorem to_csv_injective (f1 f2 : DataFrame) :
  columns f1 <> [] -> columns f2 <> [] -> to_csv f1 = to_csv f2 ->
  nrows f1 = nrows f2
  /\ csv_row f1 <$> seq 0 (nrows f1) = csv_row f2 <$> seq 0 (nrows f2).
Proof.
  intros H1 H2 E. pose proof (to_csv_rows f1 f2 H1 H2 E) as Hrows.
  split; [|done].
  apply (f_equal length) in Hrows. by rewrite !length_fmap, !length_seq in Hrows.
Qed.

Lemma to_csv_injective_witness :
  nrows comma_left = nrows comma_left_renamed
  /\ csv_row comma_left <$> seq 0 (nrows comma_left)
     = csv_row comma_left_renamed <$> seq 0 (nrows comma_left_renamed).
Proof.
  apply (to_csv_injective comma_left comma_left_renamed);
    [discriminate|discriminate|reflexivity].
Defined.

(** ** The hashed text determines the canonical table *)

Lemma fmap_eq_pointwise {A B} (g1 g2 : A -> B) (l : list A) :
  g1 <$> l = g2 <$> l -> forall x, x ∈ l -> g1 x = g2 x.
Proof.
  induction l as [|a l IH]; intros E x Hx; [by apply elem_of_nil in Hx|].
  rewrite !fmap_cons in E. injection E as Ea El.
  apply elem_of_cons in Hx as [->|Hx]; [done|by apply IH].
Qed.

Lemma csv_row_canonical infer df i :
  csv_row (canonical infer df) i
  = (fun l => default EmptyString (texts_of infer df l !! i)) <$> sorted (labels df).
Proof.
  rewrite canonical_columns. unfold csv_row. cbn [columns].
  rewrite <- list_fmap_compose. apply fmap_ext_in. intros l _. simpl.
  change (default EmptyString <$> (Some <$> ?ts)) with (texts (ObjectCol (Some <$> ts))).
  by rewrite texts_text.
Qed.

(** For two tables with the same labels, not none, the text the
    order-dependent function hashes is the same only when the canonical
    tables are the same: the quoting of the CSV writer keeps the cells
    apart. *)
Theorem order_dependent_text_determines_table
        (infer : date_reader) (df1 df2 f1 f2 : DataFrame) :
  wf df1 -> wf df2 -> labels df1 ≡ₚ labels df2 -> labels df1 <> [] ->
  canonical_table infer df1 = Some f1 -> canonical_table infer df2 = Some f2 ->
  to_csv f1 = to_csv f2 -> f1 = f2.
Proof.
  intros Hwf1 Hwf2 Hp Hne.
  rewrite (canonical_table_eq infer df1 (proj1 Hwf1)).
  rewrite (canonical_table_eq infer df2 (proj1 Hwf2)).
  intros [= <-] [= <-] E.
  assert (HL : sorted (labels df2) = sorted (labels df1)) by (apply sorted_perm; by symmetry).
  assert (HneL : sorted (labels df1) <> []).
  { intros H. apply Hne. apply Permutation_nil_r. rewrite <- H.
    symmetry. apply sorted_Permutation. }
  apply to_csv_rows in E.
  2, 3: rewrite canonical_columns; cbn [columns]; rewrite ?HL;
        by destruct (sorted (labels df1)).
  assert (Hn : nrows df1 = nrows df2).
  { apply (f_equal length) in E. rewrite !length_fmap, !length_seq in E.
    by rewrite !canonical_columns in E. }
  assert (Hn1 : nrows (canonical infer df1) = nrows df1) by by rewrite canonical_columns.
  assert (Hn2 : nrows (canonical infer df2) = nrows df1) by by rewrite canonical_columns.
  rewrite Hn1, Hn2 in E.
  rewrite !canonical_columns, HL, <- Hn. f_equal. apply fmap_ext_in. intros l Hl.
  do 3 f_equal.
  assert (Hl1 : l ∈ labels df1) by by rewrite <- (sorted_Permutation (labels df1)).
  assert (Hl2 : l ∈ labels df2) by by rewrite <- Hp.
  pose proof (length_texts_of infer df1 l Hwf1 Hl1) as Hlen1.
  pose proof (length_texts_of infer df2 l Hwf2 Hl2) as Hlen2.
  apply list_eq. intros i.
  destruct (decide (i < nrows df1)%nat) as [Hi|Hi].
  - assert (Ei : csv_row (canonical infer df1) i = csv_row (canonical infer df2) i).
    { apply (fmap_eq_pointwise _ _ _ E). apply elem_of_seq. lia. }
    rewrite !csv_row_canonical, HL in Ei.
    pose proof (fmap_eq_pointwise _ _ _ Ei l Hl) as Ec. simpl in Ec.
    destruct (lookup_lt_is_Some_2 (texts_of infer df1 l) i) as [a Ha]; [lia|].
    destruct (lookup_lt_is_Some_2 (texts_of infer df2 l) i) as [b Hb]; [lia|].
    rewrite Ha, Hb in *. simpl in Ec. by rewrite Ec.
  - rewrite !lookup_ge_None_2 by lia. done.
Qed.

Lemma order_dependent_text_determines_table_witness :
  canonical no_dates scenario_A = canonical no_dates scenario_A_swapped.
Proof.
  apply (order_dependent_text_determines_table no_dates scenario_A scenario_A_swapped).
  - split; [nodup_tac|]. repeat constructor.
  - split; [nodup_tac|]. repeat constructor.
  - apply perm_swap.
  - discriminate.
  - vm_compute. reflexivity.
  - vm_compute. reflexivity.
  - vm_compute. reflexivity.
Defined.

(** ** Trimmed text *)

(** [lstrip] takes blanks off the front: what is left does not start with
    one. *)
Lemma lstrip_spec l :
  exists b, l = b ++ lstrip l /\ Forall (fun c => isspace c = true) b
            /\ (forall c, head (lstrip l) = Some c -> isspace c = false).
Proof.
  induction l as [|c l (b & Hl & Hb & Hh)]; simpl.
  - exists []. by repeat split.
  - destruct (isspace c) eqn:E.
    + exists (c :: b). split; [by rewrite <- app_comm_cons, <- Hl|].
      split; [by constructor|done].
    + exists []. split; [done|]. split; [constructor|]. simpl. by intros ? [= <-].
Qed.

Lemma lstrip_fixed l :
  (forall c, head l = Some c -> isspace c = false) -> lstrip l = l.
Proof. destruct l as [|c l]; [done|]. simpl. intros H. by rewrite (H c eq_refl). Qed.

Lemma head_rev {A} (l : list A) : head (rev l) = last l.
Proof.
  induction l as [|x l IH] using rev_ind; [done|].
  by rewrite rev_unit, last_snoc.
Qed.

Lemma head_app_l {A} (x a b : list A) c : x ++ a = b -> head x = Some c -> head b = Some c.
Proof. intros <-. by destruct x. Qed.

(** The characters of a trimmed text: a front part of the text without its
    leading blanks, with no blank at either end. *)
Lemma strip_chars s :
  exists tail,
    lstrip (chars s) = chars (strip s) ++ tail
    /\ Forall (fun c => isspace c = true) tail
    /\ is_trimmed (strip s)
    /\ lstrip (rev (chars (strip s))) = rev (chars (strip s)).
Proof.
  unfold strip, is_trimmed. rewrite chars_of_chars.
  destruct (lstrip_spec (chars s)) as (b1 & _ & _ & Hh1).
  destruct (lstrip_spec (rev (lstrip (chars s)))) as (b2 & Hl2 & Hb2 & Hh2).
  set (A := lstrip (chars s)) in *. set (B := lstrip (rev A)) in *.
  assert (HA : A = rev B ++ rev b2).
  { rewrite <- rev_app_distr, <- Hl2. by rewrite rev_involutive. }
  exists (rev b2). split; [done|].
  split; [by apply Forall_rev|]. split; [split|].
  - intros c Hc. apply Hh1. by apply (head_app_l _ _ _ _ (eq_sym HA)).
  - intros c Hc. apply Hh2. by rewrite <- head_rev, rev_involutive in Hc.
  - rewrite rev_involutive. by apply lstrip_fixed.
Qed.

Lemma strip_fixed s : is_trimmed s -> strip s = s.
Proof.
  intros [Hh Hl]. unfold strip. rewrite (lstrip_fixed _ Hh).
  rewrite (lstrip_fixed (rev (chars s))) by (intros c; rewrite head_rev; apply Hl).
  by rewrite rev_involutive, of_chars_chars.
Qed.

(** A cell of a column of ASCII text that is not taken for dates becomes
    its text without the blanks around it; trimming a trimmed text changes
    nothing. *)
Theorem text_cell_is_trimmed
        (infer : date_reader) (df : DataFrame) (col : string)
        (vals : list (option string)) (i : nat) (s : string) :
  wf df -> lookup_col col (columns df) = Some (ObjectCol vals) ->
  ascii_cells vals ->
  detect infer vals = None -> vals !! i = Some (Some s) ->
  canonical_cell infer df col i = Some (strip s)
  /\ is_trimmed (strip s)
  /\ strip (strip s) = strip s
  /\ (is_trimmed s -> strip s = s).
Proof.
  intros Hwf Hc _ Hd Hi. destruct (strip_chars s) as (tail & _ & _ & Ht & _).
  split; [|split; [done|split; [by apply strip_fixed|apply strip_fixed]]].
  rewrite (canonical_cell_eq infer df col _ i (proj1 Hwf) Hc).
  unfold canonical_texts, standardized_column, parsed_column. rewrite Hd. simpl.
  by rewrite !list_lookup_fmap, Hi.
Qed.

Lemma text_cell_is_trimmed_witness :
  canonical_cell no_dates (one_column (ObjectCol [Some "  x "; Some "y"])) "v" 0
  = Some (strip "  x ")
  /\ is_trimmed (strip "  x ")
  /\ strip (strip "  x ") = strip "  x "
  /\ (is_trimmed "  x " -> strip "  x " = "  x ").
Proof.
  apply (text_cell_is_trimmed no_dates (one_column (ObjectCol [Some "  x "; Some "y"]))
           "v" [Some "  x "; Some "y"] 0 "  x ").
  - split; [nodup_tac|]. repeat constructor.
  - reflexivity.
  - unfold ascii_cells, ascii_text. cbn [chars]. repeat constructor.
  - vm_compute. reflexivity.
  - reflexivity.
Defined.

(** ** Cells with both separators *)

Lemma split_on_covers sep l c :
  c ∈ l -> c <> sep -> exists p, p ∈ split_on sep l /\ c ∈ p.
Proof.
  induction l as [|x l IH]; intros Hc Hne; [by apply elem_of_nil in Hc|].
  cbn [split_on]. destruct (Ascii.eqb x sep) eqn:E.
  - apply Ascii.eqb_eq in E. subst x.
    apply elem_of_cons in Hc as [Hc|Hc]; [done|].
    destruct (IH Hc Hne) as (p & Hp & Hcp). exists p. split; [by right|done].
  - apply elem_of_cons in Hc as [->|Hc].
    + destruct (split_on sep l) as [|p ps]; eexists; (split; [left|left]).
    + destruct (IH Hc Hne) as (p & Hp & Hcp).
      destruct (split_on sep l) as [|q qs]; [by apply elem_of_nil in Hp|].
      apply elem_of_cons in Hp as [->|Hp].
      * exists (x :: q). split; [left|by right].
      * exists p. split; [by right|done].
Qed.

Lemma pure_digits_elem p c : c ∈ p -> isdigit c = false -> pure_digits p = false.
Proof.
  intros Hc Hd. destruct p as [|x p]; [done|]. unfold pure_digits.
  apply not_true_is_false. intros H. rewrite forallb_forall in H.
  rewrite (H c) in Hd; [done|]. by apply list_elem_of_In.
Qed.

Lemma is_evidence_other sep other value :
  other ∈ chars value -> other ∈ decimal_separators -> other <> sep ->
  is_evidence sep value = false.
Proof.
  intros Hv Ho Hne. rewrite is_evidence_split.
  assert (Hd : isdigit other = false).
  { unfold decimal_separators in Ho.
    repeat (apply elem_of_cons in Ho as [->|Ho]); [done|done|by apply elem_of_nil in Ho]. }
  assert (Hc : other ∈ clean value).
  { unfold clean. apply list_elem_of_In, filter_In. split; [by apply list_elem_of_In|].
    apply orb_true_iff. right. apply existsb_exists. exists other.
    split; [by apply list_elem_of_In|apply Ascii.eqb_refl]. }
  destruct (split_on_covers sep (clean value) other Hc Hne) as (p & Hp & Hop).
  destruct (split_on sep (clean value)) as [|a [|b [|c rest]]]; try done.
  apply elem_of_cons in Hp as [->|Hp].
  - by rewrite (pure_digits_elem _ _ Hop Hd).
  - apply elem_of_cons in Hp as [->|Hp]; [|by apply elem_of_nil in Hp].
    by rewrite (pure_digits_elem _ _ Hop Hd), andb_false_r.
Qed.

Lemma count_value_both decimal_counts value :
  ","%char ∈ chars value -> "."%char ∈ chars value ->
  count_value decimal_counts value = decimal_counts.
Proof.
  intros Hc Hp. unfold count_value, decimal_separators. cbn [fold_left].
  rewrite !count_sep_evidence.
  rewrite (is_evidence_other "," "." value Hp) by (done || (right; left)).
  by rewrite (is_evidence_other "." "," value Hc) by (done || left).
Qed.

Lemma evidence_count_none sep rows :
  (forall row value, row ∈ rows -> value ∈ row -> is_evidence sep value = false) ->
  evidence_count sep rows = 0%nat.
Proof.
  intros H. unfold evidence_count.
  assert (E : List.filter (is_evidence sep) (concat rows) = []); [|by rewrite E].
  induction rows as [|row rows IH]; [done|]. cbn [concat].
  rewrite List.filter_app, IH by (intros r v Hr; apply H; by right).
  rewrite app_nil_r. assert (Hrow : forall value, value ∈ row -> is_evidence sep value = false)
    by (intros v; apply H; left).
  clear -Hrow. induction row as [|v row IH]; [done|]. simpl.
  rewrite (Hrow v) by left. apply IH. intros v' Hv'. apply Hrow. by right.
Qed.

(** A cell with a comma and a point counts for neither separator, whatever
    else it holds: 1,234.56 is no evidence for the point.  When every
    sampled cell with a comma has a point too, the detector returns the
    point. *)
Theorem cells_with_both_separators
        (header : list string) (rows : list (list string)) :
  (forall row value, row ∈ take 10 rows -> value ∈ row ->
     ","%char ∈ chars value -> "."%char ∈ chars value) ->
  (forall decimal_counts row value, row ∈ take 10 rows -> value ∈ row ->
     ","%char ∈ chars value -> count_value decimal_counts value = decimal_counts)
  /\ detect_decimal_separator (header :: rows) = ".".
Proof.
  intros H. split.
  - intros m row value Hr Hv Hc. apply count_value_both; [done|]. by apply (H row).
  - rewrite detect_decimal_separator_counts. unfold described_separator, sample.
    cbn [drop]. rewrite !drop_0.
    rewrite (evidence_count_none ","%char (take 10 rows)); [done|].
    intros row value Hr Hv. destruct (is_evidence "," value) eqn:E; [|done].
    pose proof (is_evidence_other "," "." value) as X. rewrite E in X.
    apply X; [|right; left|done].
    apply (H row); [done|done|]. by apply is_evidence_has_sep.
Qed.

Lemma cells_with_both_separators_witness :
  (forall decimal_counts row value,
     row ∈ take 10 [["1,234.56"; "12"]; ["7,000.5"; "x"]] -> value ∈ row ->
     ","%char ∈ chars value -> count_value decimal_counts value = decimal_counts)
  /\ detect_decimal_separator (["amount"; "n"] :: [["1,234.56"; "12"]; ["7,000.5"; "x"]]) = ".".
Proof.
  apply (cells_with_both_separators ["amount"; "n"] [["1,234.56"; "12"]; ["7,000.5"; "x"]]).
  intros row value Hr Hv Hc. cbn [take] in Hr.
  repeat (apply elem_of_cons in Hr as [->|Hr]); [| |by apply elem_of_nil in Hr];
    (repeat (apply elem_of_cons in Hv as [->|Hv]); [| |by apply elem_of_nil in Hv]);
    first [ by (apply (bool_decide_unpack _); vm_compute)
          | exfalso; revert Hc; apply (bool_decide_unpack _); by vm_compute ].
Defined.

(** ** Integers and floats *)

Lemma str_int_chars z :
  Forall (fun c => isdigit c = true \/ c = "-"%char) (chars (str_int z))
  /\ chars (str_int z) <> [].
Proof.
  unfold str_int. destruct (z <? 0); cbn [chars]; rewrite chars_of_chars.
  - split; [|done]. constructor; [by right|].
    eapply Forall_impl; [apply nat_digits_digits|]. by left.
  - split; [|apply nat_digits_nonempty].
    eapply Forall_impl; [apply nat_digits_digits|]. by left.
Qed.

Lemma format_short_mark ds p :
  exists c, c ∈ chars (Float64.format_short ds p) /\ (c = "."%char \/ c = "e"%char).
Proof.
  unfold Float64.format_short.
  destruct ((p <=? -4) || (16 <? p)); [|destruct (p <=? 0); [|destruct (_ <=? p)]];
    rewrite ?chars_app, ?chars_of_chars; cbn [chars].
  - exists "e"%char. split; [|by right]. apply elem_of_app. right. left.
  - exists "."%char. split; [|by left]. right. left.
  - exists "."%char. split; [|by left]. apply elem_of_app. right. left.
  - exists "."%char. split; [|by left]. apply elem_of_app. right. left.
Qed.

Lemma float_str_mark y :
  exists c, c ∈ chars (Float64.str y) /\ isdigit c = false /\ c <> "-"%char.
Proof.
  unfold Float64.str. destruct (Prim2SF y) as [s|s| |s m e].
  - exists "."%char. split; [|done]. destruct s; cbn [chars]; repeat first [left|right].
  - exists "i"%char. split; [|done]. destruct s; cbn [chars]; repeat first [left|right].
  - exists "n"%char. split; [|done]. left.
  - destruct (Float64.digits_decpt (Z.pos m) e) as [ds p].
    destruct (format_short_mark ds p) as (c & Hc & Hm).
    exists c. split; [|by destruct Hm as [->| ->]].
    rewrite chars_app. apply elem_of_app. by right.
Qed.

Lemma str_int_float_text z x : String.eqb (str_int z) (float_text x) = false.
Proof.
  apply String.eqb_neq. intros E. destruct (str_int_chars z) as [Hd Hne].
  unfold float_text in E. destruct (PrimFloat.is_nan _).
  - by rewrite E in Hne.
  - destruct (float_str_mark (Float64.np_round 6 x)) as (c & Hc & Hdc & Hm).
    rewrite <- E in Hc. rewrite Forall_forall in Hd.
    destruct (Hd c Hc) as [H|H]; [by rewrite H in Hdc|done].
Qed.

(** A cell of an integer column and a cell of a float column never have
    the same canonical text: the one is digits after an optional minus
    sign, the other has a point or an exponent, or is [inf] or empty. *)
Theorem int_and_float_cells_differ
        (infer : date_reader)
        (df1 : DataFrame) (col1 : string) (ints : list Z) (i : nat) (z : Z)
        (df2 : DataFrame) (col2 : string) (floats : list float) (j : nat) (x : float) :
  wf df1 -> lookup_col col1 (columns df1) = Some (Int64Col ints) -> ints !! i = Some z ->
  wf df2 -> lookup_col col2 (columns df2) = Some (Float64Col floats) ->
  floats !! j = Some x ->
  exists a b,
    canonical_cell infer df1 col1 i = Some a
    /\ canonical_cell infer df2 col2 j = Some b
    /\ a = str_int z
    /\ String.eqb a b = false.
Proof.
  intros Hwf1 Hc1 Hi Hwf2 Hc2 Hj. exists (str_int z), (float_text x).
  split; [by apply int_cell with ints; [apply Hwf1| |]|].
  split; [by apply float_cell with floats; [apply Hwf2| |]|].
  split; [done|apply str_int_float_text].
Qed.

Lemma int_and_float_cells_differ_witness :
  exists a b,
    canonical_cell no_dates (one_column (Int64Col [1; 2])) "v" 0 = Some a
    /\ canonical_cell no_dates (one_column (Float64Col [1%float; 2%float])) "v" 0 = Some b
    /\ a = str_int 1
    /\ String.eqb a b = false.
Proof.
  apply (int_and_float_cells_differ no_dates
           (one_column (Int64Col [1; 2])) "v" [1; 2] 0%nat 1
           (one_column (Float64Col [1%float; 2%float])) "v"
           [1%float; 2%float] 0%nat 1%float).
  - split; [nodup_tac|]. repeat constructor.
  - reflexivity.
  - reflexivity.
  - split; [nodup_tac|]. repeat constructor.
  - reflexivity.
  - reflexivity.
Defined.
